(** * Notebooks of the deep-learning course: naive Bayes, tied parameters,
      name resolution

    The code cells of the notebooks are embedded as Rocq functions.

    Tensors ([mxnet.nd] and [numpy] arrays) are lists: a vector of shape
    [(n)] is a [list R], a matrix of shape [(n, k)] is the list of its [n]
    rows.  The notebooks compute in [float32].  The naive Bayes notebook is
    embedded twice: over the real numbers (module [NaiveBayes]), for the
    statements about the mathematics of the estimator, which say that they
    are read in exact arithmetic; and over [float32] numbers with their
    rounding, infinities and [nan] (module [Float32]), for the statements
    about what the arrays hold.  In the embedding over the real numbers
    [nd.log] is the one operation whose non-finite results ([-inf] at [0],
    [nan] below) are kept. *)

From Stdlib Require Import Reals Lra Lia ZArith.
From stdpp Require Import base option list gmap strings.

Open Scope R_scope.

#[global] Instance R_eq_dec : EqDecision R := Req_dec_T.
#[global] Instance R_inhabited : Inhabited R := populate 0.

(** ** Vectors and matrices *)

Abbreviation vec := (list R).
Abbreviation mat := (list (list R)).

Module Tensor.

(** [m[i, y]], [None] when an index is out of range. *)
Definition mget (m : mat) (i y : nat) : option R := m !! i ≫= (.!! y).

(** [v.sum()] *)
Definition vsum (v : vec) : R := foldr Rplus 0 v.

(** [nd.max(v)] of a vector (of a non-empty one in every use). *)
Definition vmax (v : vec) : R :=
  match v with
  | [] => 0
  | a :: t => foldl Rmax a t
  end.

(** Elementwise operations on equal shapes. *)
Definition vadd (u v : vec) : vec := zip_with Rplus u v.
Definition vmul (u v : vec) : vec := zip_with Rmult u v.
Definition madd (a b : mat) : mat := zip_with vadd a b.

(** [1 - v] and [1 - m]: the scalar is broadcast. *)
Definition vcompl (v : vec) : vec := (λ a, 1 - a) <$> v.
Definition mcompl (m : mat) : mat := vcompl <$> m.

(** [m * d] for [m] of shape [(n, k)] and [d] of shape [(n, 1)]: the column
    [d] is broadcast along the rows. *)
Definition bmul (m : mat) (d : vec) : mat :=
  zip_with (λ row di, (λ a, a * di) <$> row) m d.

(** [m / v.reshape(1, k)]: the row [v] is broadcast along the columns. *)
Definition bdiv (m : mat) (v : vec) : mat := (λ row, zip_with Rdiv row v) <$> m.

(** [m.sum(0)] and [m.prod(0)] of a matrix with [k] columns. *)
Definition sum0 (k : nat) (m : mat) : vec := foldr vadd (replicate k 0) m.
Definition prod0 (k : nat) (m : mat) : vec := foldr vmul (replicate k 1) m.

(** [v / v.sum()] *)
Definition normalize (v : vec) : vec := (λ a, a / vsum v) <$> v.

(** A matrix of shape [(n, k)]. *)
Definition shape (n k : nat) (m : mat) : Prop :=
  length m = n ∧ Forall (λ row, length row = k) m.

End Tensor.

Import Tensor.

(** ** The naive Bayes notebook *)

Module NaiveBayes.

(** The 28 x 28 pixels of an image and the ten digits. *)
Definition npix : nat := 784.
Definition ncls : nat := 10.

(** A sample as the loops see it: the flattened image
    [data.reshape((784))] and the label [int(label)]. *)
Definition sample : Type := vec * nat.

(** [transform]: an MNIST image holds [uint8] pixels; [nd.floor(data/128)]
    is [0] below 128 and [1] from 128 on.  The label goes to [float32] and
    back through [int], which leaves it as it is. *)
Definition transform (raw : list Z * nat) : sample :=
  ((λ p, IZR (p / 128)) <$> raw.1, raw.2).

(** *** Cell 1: the counters *)

Record counters := Counters { xcount : mat; ycount : vec }.

(** [xcount = nd.ones((784,10))], [ycount = nd.ones((10))] *)
Definition init_counters : counters :=
  {| xcount := replicate npix (replicate ncls 1);
     ycount := replicate ncls 1 |}.

(** The body of the training loop.  [ycount[y] += 1] raises on a label out
    of range and [xcount[:,y] += data.reshape((784))] on an image that has
    not 784 pixels: [None].  (MXNet's [reshape] takes the first 784 entries
    of a longer array; that case is kept in [Float32.train_step], here an
    image has 784 pixels or is refused.) *)
Definition train_step (c : counters) (s : sample) : option counters :=
  let '(data, y) := s in
  if bool_decide (y < ncls)%nat && bool_decide (length data = npix) then
    Some {| ycount := alter (λ n, n + 1) y (ycount c);
            xcount := zip_with (λ row d, alter (λ n, n + d) y row) (xcount c) data |}
  else None.

(** [for data, label in mnist_train: ...] *)
Fixpoint train_loop (c : counters) (train : list sample) : option counters :=
  match train with
  | [] => Some c
  | s :: rest => c' ← train_step c s; train_loop c' rest
  end.

(** The estimates [py = ycount / ycount.sum()] and
    [px = xcount / ycount.reshape(1,10)]. *)
Record model := Model { px : mat; py : vec }.

Definition estimate (c : counters) : model :=
  {| py := (λ n, n / vsum (ycount c)) <$> ycount c;
     px := bdiv (xcount c) (ycount c) |}.

Definition fit (train : list sample) : option model :=
  estimate <$> train_loop init_counters train.

(** *** Cell 3: the product of the per-pixel probabilities

    [data] is the column [data.reshape((784,1))]. *)
Definition pixel_probs (m : model) (data : vec) : mat :=
  madd (bmul (px m) data) (bmul (mcompl (px m)) (vcompl data)).

(** [xprob.prod(0) * py], then [xprob / xprob.sum()]. *)
Definition xprob_unnormalized (m : model) (data : vec) : vec :=
  vmul (prod0 ncls (pixel_probs m data)) (py m).

Definition xprob (m : model) (data : vec) : vec :=
  normalize (xprob_unnormalized m data).

(** The same posterior by its formula: the entry of class [y] is
    [py[y] * prod_i (px[i,y] * x[i] + (1 - px[i,y]) * (1 - x[i]))], divided
    by the sum of these products over the classes. *)
Definition class_product (m : model) (data : vec) (y : nat) : R :=
  foldr Rmult 1
    (zip_with (λ row x, default 0 (row !! y) * x + (1 - default 0 (row !! y)) * (1 - x))
       (px m) data).

Definition product_posterior (m : model) (data : vec) : vec :=
  normalize ((λ y, default 0 (py m !! y) * class_product m data y) <$> seq 0 ncls).

(** *** Cell 4: logarithms

    [nd.log] is finite on a positive number, [-inf] at zero and [nan] on a
    negative one. *)
Inductive logval := Finite (r : R) | NegInf | NaN.

Definition nd_log (p : R) : logval :=
  if Rlt_dec 0 p then Finite (ln p)
  else if decide (p = 0) then NegInf else NaN.

Definition finite (v : logval) : option R :=
  match v with
  | Finite r => Some r
  | NegInf | NaN => None
  end.

(** [logpx = nd.log(px)], [logpxneg = nd.log(1-px)], [logpy = nd.log(py)]
    as tensors of real numbers: [None] when an entry is not finite. *)
Record logmodel := LogModel { logpx : mat; logpxneg : mat; logpy : vec }.

Definition vlog (v : vec) : option vec := mapM (finite ∘ nd_log) v.
Definition mlog (a : mat) : option mat := mapM vlog a.

Definition logs (m : model) : option logmodel :=
  lpx ← mlog (px m);
  lpxneg ← mlog (mcompl (px m));
  lpy ← vlog (py m);
  Some {| logpx := lpx; logpxneg := lpxneg; logpy := lpy |}.

(** [logpost = logpy.copy()] and
    [logpost += (logpx * data + logpxneg * (1-data)).sum(0)] *)
Definition logpost (lm : logmodel) (data : vec) : vec :=
  vadd (logpy lm)
    (sum0 ncls (madd (bmul (logpx lm) data) (bmul (logpxneg lm) (vcompl data)))).

(** [bayespost]: the largest entry is subtracted, then the softmax. *)
Definition bayespost (lm : logmodel) (data : vec) : vec :=
  let lp := logpost lm data in
  let lp := (λ a, a - vmax lp) <$> lp in
  let post := exp <$> lp in
  normalize post.

(** *** Cell 5: the error rate

    [x = data.reshape((784,1))] raises on an image that has not 784 pixels
    and [post[y]] on a label out of range: [None].  (An image of more than
    784 pixels, which MXNet's [reshape] would cut, is refused here as
    well.) *)
#[global] Instance Rlt_decision (x y : R) : Decision (x < y) := Rlt_dec x y.

Definition test_step (lm : logmodel) (st : nat * nat) (s : sample) : option (nat * nat) :=
  let '(ctr, err) := st in
  let ctr := S ctr in
  if bool_decide (length s.1 = npix) then
    let post := bayespost lm s.1 in
    p ← post !! s.2;
    Some (ctr, if decide (p < vmax post) then S err else err)
  else None.

Fixpoint test_loop (lm : logmodel) (st : nat * nat) (test : list sample) : option (nat * nat) :=
  match test with
  | [] => Some st
  | s :: rest => st' ← test_step lm st s; test_loop lm st' rest
  end.

(** [err/ctr] raises [ZeroDivisionError] when the test set is empty. *)
Definition error_rate (lm : logmodel) (test : list sample) : option R :=
  st ← test_loop lm (0%nat, 0%nat) test;
  if decide (st.1 = 0%nat) then None else Some (INR st.2 / INR st.1).

(** The samples whose true-label posterior is strictly below the largest. *)
Definition true_posterior (lm : logmodel) (s : sample) : R :=
  default 0 (bayespost lm s.1 !! s.2).

Definition misclassified (lm : logmodel) (test : list sample) : list sample :=
  filter (λ s, true_posterior lm s < vmax (bayespost lm s.1)) test.

(** *** What the counters are meant to hold *)

Definition label (s : sample) : nat := s.2.
Definition pixel (i : nat) (s : sample) : R := default 0 (s.1 !! i).

(** The samples of class [y]. *)
Definition of_class (y : nat) (train : list sample) : list sample :=
  filter (λ s, label s = y) train.

(** The number of training samples with label [y]. *)
Definition n_y (train : list sample) (y : nat) : R := INR (length (of_class y train)).

(** The sum of pixel [i] over the samples with label [y]. *)
Definition n_iy (train : list sample) (i y : nat) : R :=
  vsum (pixel i <$> of_class y train).

(** The number of samples with label [y] in which pixel [i] is set. *)
Definition on_iy (train : list sample) (i y : nat) : R :=
  INR (length (filter (λ s, pixel i s = 1) (of_class y train))).

(** A training set the loop runs through: images of 784 pixels, labels
    among the ten digits. *)
Definition wf_sample (s : sample) : Prop := length s.1 = npix ∧ (s.2 < ncls)%nat.

Definition binary (s : sample) : Prop := Forall (λ v, v = 0 ∨ v = 1) s.1.
Definition unit_range (s : sample) : Prop := Forall (λ v, 0 <= v <= 1) s.1.

(** *** Shapes and sample sets used in the statements *)

(** The counters keep their shapes. *)
Definition counters_shape (c : counters) : Prop :=
  length (ycount c) = ncls ∧ shape npix ncls (xcount c).

(** Two raw images: one bright with label 3, one dark with label 7. *)
Definition two_images : list sample :=
  transform <$> [(replicate npix 200%Z, 3%nat); (replicate npix 5%Z, 7%nat)].

(** A matrix with rows of [k] entries. *)
Definition rows (k : nat) (a : mat) : Prop := Forall (λ row, length row = k) a.

(** Entrywise [ln], where the logarithm is finite. *)
Definition vln (v : vec) : vec := ln <$> v.
Definition mln (a : mat) : mat := vln <$> a.

(** A vector of positive numbers. *)
Definition positive (v : vec) : Prop := Forall (λ p, 0 < p) v.

(** *** A training set on which every cell runs: one dark image for each
    of the ten digits, and the 784 pixels of a dark image *)
Definition dark_raw (y : nat) : list Z * nat := (replicate npix 5%Z, y).

Definition ten_images : list sample := (λ y, transform (dark_raw y)) <$> seq 0 ncls.

Definition dark : vec := (transform (dark_raw 0)).1.

(** *** Cell 2: the counters as images *)

(** [m[:, i]]: column [i]; it raises on a column out of range. *)
Definition column (i : nat) (m : mat) : option vec := mapM (.!! i) m.

(** [v.reshape((r, k))]: [r] rows of [k] entries in row-major order; it
    raises unless [v] has [r * k] entries. *)
Definition reshape2 (r k : nat) (v : vec) : option mat :=
  if bool_decide (length v = (r * k)%nat) then Some (reshape (replicate r k) v)
  else None.

(** [for i in range(10): figarr[i].imshow(xcount[:, i].reshape((28, 28)), ...)]:
    the ten images drawn, one per axis of [plt.subplots(1, 10)]. *)
Definition heat_maps (c : counters) : option (list mat) :=
  mapM (λ i, column i (xcount c) ≫= reshape2 28 28) (seq 0 10).

(** *** Cell 4: the first ten test images

    One drawing: the column of the figure, the image and its posterior.
    [figarr] comes from [plt.subplots(2, 10)], so [figarr[1, ctr]] raises
    from column 10 on; [x = data.reshape((784,1))] raises on an image that
    has not 784 pixels (one of more than 784 pixels, which MXNet's [reshape]
    would cut, is refused here as well).  The loop breaks when [ctr]
    reaches 10. *)
Fixpoint show_loop (lm : logmodel) (ctr : nat) (shown : list (nat * vec * vec))
    (test : list sample) : option (nat * list (nat * vec * vec)) :=
  match test with
  | [] => Some (ctr, shown)
  | s :: rest =>
      if bool_decide (length s.1 = npix) then
        if bool_decide (ctr < 10)%nat then
          let shown := shown ++ [(ctr, s.1, bayespost lm s.1)] in
          let ctr := S ctr in
          if bool_decide (ctr = 10%nat) then Some (ctr, shown)
          else show_loop lm ctr shown rest
        else None
      else None
  end.

(** [ctr = 0] and the loop. *)
Definition show_ten (lm : logmodel) (test : list sample)
  : option (nat * list (nat * vec * vec)) :=
  show_loop lm 0 [] test.

(** [np.sum(post)] in [bayespost], the denominator of the softmax. *)
Definition softmax_denominator (lm : logmodel) (data : vec) : R :=
  vsum (exp <$> ((λ a, a - vmax (logpost lm data)) <$> logpost lm data)).

End NaiveBayes.

(** ** The naive Bayes notebook in [float32]

    The arrays of the notebook hold [float32] numbers: every operation
    returns the [float32] nearest to its exact result (a tie goes to the
    neighbour with an even significand), infinite when that is out of range,
    and zero when the result is below half of the smallest positive
    [float32].  Zero carries no sign here: a division by zero takes the sign
    of its numerator. *)

Module Float32.

Import NaiveBayes.

(** The nearest integer, a tie going to the even one. *)
Definition rne (r : R) : Z :=
  let f := Int_part r in
  if Rlt_dec (r - IZR f) (1 / 2) then f
  else if Rlt_dec (1 / 2) (r - IZR f) then (f + 1)%Z
  else if Z.even f then f else (f + 1)%Z.

(** The exponent of the leading bit and that of the last place: 24
    significant bits, the last place never below [2^-149]. *)
Definition floor_log2 (r : R) : Z := Int_part (ln (Rabs r) / ln 2).

Definition ulp_exp (r : R) : Z := Z.max (-149) (floor_log2 r - 23).

(** The nearest number with 24 significant bits. *)
Definition f32 (r : R) : R :=
  IZR (rne (r * powerRZ 2 (- ulp_exp r))) * powerRZ 2 (ulp_exp r).

Inductive float := Num (r : R) | Inf (negative : bool) | NaN.

(** The result of an operation whose exact result is [r]. *)
Definition round (r : R) : float :=
  let x := f32 r in
  if Rlt_dec (Rabs x) (powerRZ 2 128) then Num x
  else Inf (bool_decide (x < 0)).

Definition fadd (a b : float) : float :=
  match a, b with
  | Num x, Num y => round (x + y)
  | NaN, _ | _, NaN => NaN
  | Inf s, Inf t => if Bool.eqb s t then Inf s else NaN
  | Inf s, Num _ | Num _, Inf s => Inf s
  end.

Definition fdiv (a b : float) : float :=
  match a, b with
  | NaN, _ | _, NaN => NaN
  | Inf _, Inf _ => NaN
  | Inf s, Num y => Inf (xorb s (bool_decide (y < 0)))
  | Num _, Inf _ => Num 0
  | Num x, Num y =>
      if decide (y = 0) then
        if decide (x = 0) then NaN else Inf (bool_decide (x < 0))
      else round (x / y)
  end.

(** [nd.exp] *)
Definition fexp (a : float) : float :=
  match a with
  | Num x => round (exp x)
  | Inf true => Num 0
  | Inf false => Inf false
  | NaN => NaN
  end.

(** [v.sum()], from the left. *)
Definition fsum (v : list float) : float := foldl fadd (Num 0) v.

(** *** Cell 1 in [float32] *)

Record counters := Counters { xcount : list (list float); ycount : list float }.

(** [xcount = nd.ones((784,10))], [ycount = nd.ones((10))] *)
Definition init_counters : counters :=
  {| xcount := replicate npix (replicate ncls (Num 1));
     ycount := replicate ncls (Num 1) |}.

(** [data.reshape((784))]: the first 784 entries of the array; it raises
    when the array has fewer. *)
Definition reshape784 (data : vec) : option vec :=
  if bool_decide (npix ≤ length data)%nat then Some (take npix data) else None.

(** The body of the training loop: [ycount[y] += 1] raises on a label out
    of range, [xcount[:,y] += data.reshape((784))] on an image of fewer than
    784 pixels. *)
Definition train_step (c : counters) (s : sample) : option counters :=
  let '(data, y) := s in
  if bool_decide (y < ncls)%nat then
    d ← reshape784 data;
    Some {| ycount := alter (λ n, fadd n (Num 1)) y (ycount c);
            xcount := zip_with (λ row x, alter (λ n, fadd n (Num x)) y row) (xcount c) d |}
  else None.

Fixpoint train_loop (c : counters) (train : list sample) : option counters :=
  match train with
  | [] => Some c
  | s :: rest => c' ← train_step c s; train_loop c' rest
  end.

(** [py = ycount / ycount.sum()] and [px = xcount / ycount.reshape(1,10)] *)
Record model := Model { px : list (list float); py : list float }.

Definition estimate (c : counters) : model :=
  {| py := (λ n, fdiv n (fsum (ycount c))) <$> ycount c;
     px := (λ row, zip_with fdiv row (ycount c)) <$> xcount c |}.

Definition fit (train : list sample) : option model :=
  estimate <$> train_loop init_counters train.

(** *** Cell 2 in [float32]: the counters as images *)

Definition column (i : nat) (m : list (list float)) : option (list float) :=
  mapM (.!! i) m.

Definition reshape2 (r k : nat) (v : list float) : option (list (list float)) :=
  if bool_decide (length v = (r * k)%nat) then Some (reshape (replicate r k) v)
  else None.

(** [for i in range(10): figarr[i].imshow(xcount[:, i].reshape((28, 28)), ...)] *)
Definition heat_maps (c : counters) : option (list (list (list float))) :=
  mapM (λ i, column i (xcount c) ≫= reshape2 28 28) (seq 0 10).

(** *** The last lines of [bayespost] in [float32], on a vector [logpost]
    of finite numbers *)

(** [logpost -= nd.max(logpost)] *)
Definition stabilize (v : vec) : list float := (λ a, round (a - vmax v)) <$> v.

(** [post = nd.exp(logpost)] and [post /= np.sum(post)] *)
Definition softmax (logpost : list float) : list float :=
  let post := fexp <$> logpost in
  (λ a, fdiv a (fsum post)) <$> post.

(** Arrays of real numbers as [float32] arrays. *)
Definition nums (v : vec) : list float := Num <$> v.
Definition num_rows (a : mat) : list (list float) := nums <$> a.

(** Counters that hold real numbers, as [float32] arrays. *)
Definition of_reals (c : NaiveBayes.counters) : counters :=
  {| xcount := (λ row : vec, Num <$> row) <$> NaiveBayes.xcount c;
     ycount := Num <$> NaiveBayes.ycount c |}.

(** A vector of natural numbers up to [b]. *)
Definition counts_upto (b : nat) (v : vec) : Prop :=
  Forall (λ x, ∃ k : nat, x = INR k ∧ (k ≤ b)%nat) v.

(** An image of at least 784 pixels with a label among the ten digits. *)
Definition accepted (s : sample) : Prop := (npix ≤ length s.1)%nat ∧ (s.2 < ncls)%nat.

(** Ten log-posteriors of -600 each. *)
Definition cold : vec := replicate 10 (-600).

(** [2^24] samples, each a dark image of the digit 0. *)
Definition many_zeros : list sample := replicate (Z.to_nat 16777216) (dark, 0%nat).

End Float32.

(** ** The parameter notebook: tied parameters (cell 14)

    A Gluon [Parameter] is an object that owns an array; [data()] returns
    that array itself, not a copy, so an assignment into it is seen by
    everyone who holds the parameter.  Parameters are locations of a heap of
    arrays, a [Dense] layer holds the locations of its [weight] and [bias]. *)

Module TiedParameters.

Abbreviation loc := nat.

Record dense := Dense { weight : loc; bias : loc }.

(** The objects of the kernel: the next free location and the arrays of the
    parameters that are initialized. *)
Record world := World { next : loc; heap : gmap loc mat }.

(** A new, not yet initialized parameter. *)
Definition new_parameter (w : world) : loc * world :=
  (next w, {| next := S (next w); heap := heap w |}).

(** [nn.Dense(units)]: a layer with parameters of its own. *)
Definition new_dense (w : world) : dense * world :=
  let '(pw, w1) := new_parameter w in
  let '(pb, w2) := new_parameter w1 in
  ({| weight := pw; bias := pb |}, w2).

(** [nn.Dense(units, params=other.params)]: the layer looks its parameters
    up in the dictionary it is given, and finds those of [other]. *)
Definition new_dense_with_params (other : dense) : dense :=
  {| weight := weight other; bias := bias other |}.

(** [net = nn.Sequential()], [shared = nn.Dense(8, activation='relu')] and
    [net.add(nn.Dense(8, ...), shared, nn.Dense(8, ..., params=shared.params),
    nn.Dense(10))]: the arguments are built from left to right. *)
Definition build_net (w0 : world) : list dense * world :=
  let '(shared, w1) := new_dense w0 in
  let '(first, w2) := new_dense w1 in
  let third := new_dense_with_params shared in
  let '(last, w3) := new_dense w2 in
  ([first; shared; third; last], w3).

(** [net.initialize()] followed by the first forward pass [net(x)]: every
    parameter of the network gets the array the initializer draws for it. *)
Definition init_layer (init : loc → mat) (l : dense) (h : gmap loc mat) : gmap loc mat :=
  <[weight l := init (weight l)]> (<[bias l := init (bias l)]> h).

Definition initialize (init : loc → mat) (net : list dense) (w : world) : world :=
  {| next := next w; heap := foldr (init_layer init) (heap w) net |}.

(** [p.data()]: the array of a parameter; it raises before initialization. *)
Definition data (w : world) (p : loc) : option mat := heap w !! p.

(** An in-place assignment through [p.data()] ([data()[...] = ...],
    [data()[:] += 1]): [f] computes the new contents of the array from the
    old ones, or raises; the parameter's own array is overwritten. *)
Definition assign (w : world) (p : loc) (f : mat → option mat) : option world :=
  a ← data w p;
  a' ← f a;
  Some {| next := next w; heap := <[p := a']> (heap w) |}.

(** [a[r, c] = v]; it raises on an index out of range. *)
Definition set_entry (r c : nat) (v : R) (a : mat) : option mat :=
  row ← a !! r;
  _ ← row !! c;
  Some (<[r := <[c := v]> row]> a).

(** [p.data()[r, c] = v] *)
Definition set_item (w : world) (p : loc) (r c : nat) (v : R) : option world :=
  assign w p (set_entry r c v).

(** Cell 14 up to the forward pass. *)
Definition shared_net (init : loc → mat) (w0 : world) : list dense * world :=
  let '(net, w) := build_net w0 in (net, initialize init net w).

(** The network built in a fresh kernel, all weights initialized to an
    8 x 8 array of zeros: [net[1].weight.data()[0,0] = 100] is read back
    through [net[2]]. *)
Definition fresh : world := {| next := 0%nat; heap := ∅ |}.
Definition zeros (_ : loc) : mat := replicate 8 (replicate 8 0).

(** Cell 13: [p.data()[:] += 1], then [p.data()[0,0] = 42]. *)
Definition add_one (a : mat) : option mat :=
  Some ((λ row : vec, (λ x, x + 1) <$> row) <$> a).

Definition cell_13 (w : world) (p : loc) : option world :=
  w1 ← assign w p add_one;
  set_item w1 p 0 0 42.

(** *** Cell 9: nested blocks

    A block is a layer or a [nn.Sequential] of blocks; the containers hold
    no parameters of their own. *)
#[warnings="-register-all"] Inductive block :=
  Layer (d : dense) | Sequential (children : list block).

(** [block1()]: a [Sequential] of [nn.Dense(32)] and [nn.Dense(16)]. *)
Definition block1 (w : world) : block * world :=
  let '(d1, w1) := new_dense w in
  let '(d2, w2) := new_dense w1 in
  (Sequential [Layer d1; Layer d2], w2).

(** [for i in range(k): net.add(block1())] *)
Fixpoint add_blocks (k : nat) (w : world) : list block * world :=
  match k with
  | O => ([], w)
  | S k =>
      let '(b, w1) := block1 w in
      let '(bs, w2) := add_blocks k w1 in
      (b :: bs, w2)
  end.

(** [block2()]: four times [block1()]. *)
Definition block2 (w : world) : block * world :=
  let '(bs, w') := add_blocks 4 w in (Sequential bs, w').

(** [rgnet = nn.Sequential()], [rgnet.add(block2())],
    [rgnet.add(nn.Dense(10))] *)
Definition rgnet (w : world) : block * world :=
  let '(b, w1) := block2 w in
  let '(d, w2) := new_dense w1 in
  (Sequential [b; Layer d], w2).

(** [b.collect_params()]: the parameters of the block and of the blocks
    below it, in order.  (A layer that occurs twice is listed twice here,
    where Gluon's dictionary lists it once; on blocks that share no layer
    the two agree.) *)
Fixpoint collect_params (b : block) : list loc :=
  match b with
  | Layer d => [weight d; bias d]
  | Sequential bs =>
      (fix go (bs : list block) : list loc :=
         match bs with
         | [] => []
         | b :: bs => collect_params b ++ go bs
         end) bs
  end.

(** [b[i]]: the [i]-th block of a [Sequential]. *)
Definition child (i : nat) (b : block) : option block :=
  match b with
  | Layer _ => None
  | Sequential bs => bs !! i
  end.

End TiedParameters.

(** ** The notebooks as programs

    What a notebook takes from the kernel it runs in is the names its
    statements read.  The code cells are kept as syntax trees; a name is
    read when the evaluator reaches it, and what the libraries do with the
    values they are given (calls, attributes, operators, imports, the shell
    and magic lines) is left open: it is a parameter [prim] of the
    evaluator, a function of the argument values and of a state [W] of the
    world outside the namespace (arrays, figures, the output, the random
    generator, the files).  A function of a notebook that a library calls
    back is not run by the evaluator; its names are checked where it is
    defined. *)

Module Notebooks.

Local Open Scope string_scope.

#[warnings="-register-all"]
Inductive expr :=
  | Name (x : string)
  | Lit (c : string)
  | Prim (o : string) (args : list expr)
  | Call (f : expr) (args : list expr) (kws : list string).

(** [e.a] and [e[i, ...]] *)
Definition Attr (e : expr) (a : string) : expr := Prim ("." ++ a) [e].
Definition Index (e : expr) (ix : list expr) : expr := Prim "[]" (e :: ix).

(** [Import] keeps the source line and the names it binds; [SetItem obj ix
    o e] is [obj[ix] o e] for [o] one of [=], [+=], ...; in [Call] the
    values of the keywords [kws] are the last arguments. *)
#[warnings="-register-all"]
Inductive stmt :=
  | Magic (line : string)
  | Import (line : string) (names : list string)
  | Assign (xs : list string) (e : expr)
  | AugAssign (x : string) (o : string) (e : expr)
  | SetItem (obj : expr) (ix : list expr) (o : string) (e : expr)
  | ExprStmt (e : expr)
  | For (xs : list string) (it : expr) (body : list stmt)
  | If (c : expr) (body : list stmt)
  | Break
  | Def (f : string) (params : list string) (body : list stmt)
  | Return (e : expr)
  | Class (name : string) (bases : list expr) (body : list stmt).

Abbreviation cell := (list stmt).
Abbreviation notebook := (list (list stmt)).

(** The names a block assigns: the local names of a function body. *)
Fixpoint assigned_stmt (s : stmt) : list string :=
  match s with
  | Import _ names => names
  | Assign xs _ => xs
  | AugAssign x _ _ => [x]
  | For xs _ body => (xs ++ flat_map assigned_stmt body)%list
  | If _ body => flat_map assigned_stmt body
  | Def f _ _ => [f]
  | Class c _ _ => [c]
  | Magic _ | SetItem _ _ _ _ | ExprStmt _ | Break | Return _ => []
  end.

Definition assigned (ss : list stmt) : list string := flat_map assigned_stmt ss.

(** The expressions of [obj[ix] o e] in the order they are evaluated: the
    right-hand side first in a plain assignment, last in an augmented one. *)
Definition item_exprs (obj : expr) (ix : list expr) (o : string) (e : expr) : list expr :=
  if String.eqb o "=" then e :: obj :: ix else (obj :: ix ++ [e])%list.

(** *** Running a notebook *)

(** A value is an object of a library or a function of the notebook. *)
Inductive value (A : Type) := Lib (a : A) | Clo (params : list string) (body : list stmt).

Arguments Lib {A} a.
Arguments Clo {A} params body.

Inductive signal (A : Type) := Normal | Broke | Returned (v : value A).

Arguments Normal {A}.
Arguments Broke {A}.
Arguments Returned {A} v.

(** The names a kernel binds; and the local names of the function that
    runs with their values, [None] at the top level of a cell. *)
Abbreviation namespace A := (gmap string (value A)).
Abbreviation frame A := (option (list string * gmap string (value A))).

Section Semantics.

Context (A W : Type).

Local Abbreviation value := (value A).
Local Abbreviation namespace := (namespace A).
Local Abbreviation frame := (frame A).
Local Abbreviation signal := (signal A).

Variable lit : string → A.
Variable prim : string → list value → W → option (A * W).
Variable truthy : A → bool.
Variable stop : A → bool.
Variable unpack : nat → A → option (list A).

(** A read of a name that is not bound raises: [None]. *)
Definition lookup_name (g : namespace) (fr : frame) (x : string) : option value :=
  match fr with
  | Some (L, lm) => if bool_decide (x ∈ L) then lm !! x else g !! x
  | None => g !! x
  end.

Definition bind_name (g : namespace) (fr : frame) (x : string) (v : value)
  : namespace * frame :=
  match fr with
  | Some (L, lm) => (g, Some (L, <[x := v]> lm))
  | None => (<[x := v]> g, None)
  end.

Fixpoint bind_names (g : namespace) (fr : frame) (xs : list string) (vs : list value)
  : option (namespace * frame) :=
  match xs, vs with
  | [], [] => Some (g, fr)
  | x :: xs, v :: vs => let '(g1, fr1) := bind_name g fr x v in bind_names g1 fr1 xs vs
  | _, _ => None
  end.

(** [x = v] and [x, y = v] *)
Definition bind_targets (g : namespace) (fr : frame) (xs : list string) (v : value)
  : option (namespace * frame) :=
  match xs with
  | [x] => Some (bind_name g fr x v)
  | _ =>
      match v with
      | Lib a => vs ← unpack (length xs) a; bind_names g fr xs (Lib <$> vs)
      | Clo _ _ => None
      end
  end.

Fixpoint import_names (line : string) (g : namespace) (fr : frame) (w : W)
    (names : list string) : option (namespace * frame * W) :=
  match names with
  | [] => Some (g, fr, w)
  | x :: rest =>
      '(a, w1) ← prim (line ++ " : " ++ x) [] w;
      let '(g1, fr1) := bind_name g fr x (Lib a) in
      import_names line g1 fr1 w1 rest
  end.

Fixpoint eval_list (ev : W → expr → option (value * W)) (w : W) (es : list expr)
  : option (list value * W) :=
  match es with
  | [] => Some ([], w)
  | e :: rest =>
      '(v, w1) ← ev w e;
      '(vs, w2) ← eval_list ev w1 rest;
      Some (v :: vs, w2)
  end.

Fixpoint exec_list
    (ex : namespace → frame → W → stmt → option (namespace * frame * W * signal))
    (g : namespace) (fr : frame) (w : W) (ss : list stmt)
  : option (namespace * frame * W * signal) :=
  match ss with
  | [] => Some (g, fr, w, Normal)
  | s :: rest =>
      '(g1, fr1, w1, sig) ← ex g fr w s;
      match sig with
      | Normal => exec_list ex g1 fr1 w1 rest
      | _ => Some (g1, fr1, w1, sig)
      end
  end.

Definition members (fr : frame) (names : list string) : option (list value) :=
  match fr with
  | Some (_, lm) => mapM (λ x, lm !! x) names
  | None => None
  end.

(** The evaluator, with a bound [n] on the depth of the evaluation. *)
Fixpoint eval (n : nat) (g : namespace) (fr : frame) (w : W) (e : expr) {struct n}
  : option (value * W) :=
  match n with
  | O => None
  | S n =>
      match e with
      | Name x => v ← lookup_name g fr x; Some (v, w)
      | Lit c => Some (Lib (lit c), w)
      | Prim o args =>
          '(vs, w1) ← eval_list (eval n g fr) w args;
          '(a, w2) ← prim o vs w1;
          Some (Lib a, w2)
      | Call f args kws =>
          '(vf, w1) ← eval n g fr w f;
          '(vs, w2) ← eval_list (eval n g fr) w1 args;
          match vf with
          | Lib _ =>
              '(a, w3) ← prim (String.concat "," ("call" :: kws)) (vf :: vs) w2;
              Some (Lib a, w3)
          | Clo ps body =>
              match kws with
              | [] =>
                  '(_, lf) ← bind_names g (Some ((ps ++ assigned body)%list, ∅)) ps vs;
                  '(_, _, w3, sig) ← exec_list (exec n) g lf w2 body;
                  match sig with
                  | Returned v => Some (v, w3)
                  | Normal => Some (Lib (lit "None"), w3)
                  | Broke => None
                  end
              | _ :: _ => None
              end
          end
      end
  end
with exec (n : nat) (g : namespace) (fr : frame) (w : W) (s : stmt) {struct n}
  : option (namespace * frame * W * signal) :=
  match n with
  | O => None
  | S n =>
      match s with
      | Magic line => '(_, w1) ← prim line [] w; Some (g, fr, w1, Normal)
      | Import line names =>
          '(g1, fr1, w1) ← import_names line g fr w names;
          Some (g1, fr1, w1, Normal)
      | Assign xs e =>
          '(v, w1) ← eval n g fr w e;
          '(g1, fr1) ← bind_targets g fr xs v;
          Some (g1, fr1, w1, Normal)
      | AugAssign x o e =>
          v ← lookup_name g fr x;
          '(ve, w1) ← eval n g fr w e;
          '(a, w2) ← prim o [v; ve] w1;
          let '(g1, fr1) := bind_name g fr x (Lib a) in
          Some (g1, fr1, w2, Normal)
      | SetItem obj ix o e =>
          '(vs, w1) ← eval_list (eval n g fr) w (item_exprs obj ix o e);
          '(_, w2) ← prim ("[]" ++ o) vs w1;
          Some (g, fr, w2, Normal)
      | ExprStmt e => '(_, w1) ← eval n g fr w e; Some (g, fr, w1, Normal)
      | For xs it body =>
          '(v, w1) ← eval n g fr w it;
          '(a, w2) ← prim "iter" [v] w1;
          loop n g fr w2 (Lib a) xs body
      | If c body =>
          '(v, w1) ← eval n g fr w c;
          if match v with Lib a => truthy a | Clo _ _ => true end
          then exec_list (exec n) g fr w1 body
          else Some (g, fr, w1, Normal)
      | Break => Some (g, fr, w, Broke)
      | Def f ps body =>
          let '(g1, fr1) := bind_name g fr f (Clo ps body) in
          Some (g1, fr1, w, Normal)
      | Return e => '(v, w1) ← eval n g fr w e; Some (g, fr, w1, Returned v)
      | Class name bases body =>
          '(vs, w1) ← eval_list (eval n g fr) w bases;
          '(_, cf, w2, _) ← exec_list (exec n) g (Some (assigned body, ∅)) w1 body;
          ms ← members cf (assigned body);
          '(a, w3) ← prim ("class " ++ name) (vs ++ ms)%list w2;
          let '(g1, fr1) := bind_name g fr name (Lib a) in
          Some (g1, fr1, w3, Normal)
      end
  end
with loop (n : nat) (g : namespace) (fr : frame) (w : W) (itr : value)
    (xs : list string) (body : list stmt) {struct n}
  : option (namespace * frame * W * signal) :=
  match n with
  | O => None
  | S n =>
      '(a, w1) ← prim "next" [itr] w;
      if stop a then Some (g, fr, w1, Normal)
      else
        '(g1, fr1) ← bind_targets g fr xs (Lib a);
        '(g2, fr2, w2, sig) ← exec_list (exec n) g1 fr1 w1 body;
        match sig with
        | Normal => loop n g2 fr2 w2 itr xs body
        | Broke => Some (g2, fr2, w2, Normal)
        | Returned _ => Some (g2, fr2, w2, sig)
        end
  end.

(** The cells run one after another in one kernel. *)
Definition run (n : nat) (nb : notebook) (g : namespace) (w : W)
  : option (namespace * frame * W * signal) :=
  exec_list (exec n) g None w (concat nb).

End Semantics.

Arguments lookup_name {A} g fr x.
Arguments bind_name {A} g fr x v.
Arguments bind_names {A} g fr xs vs.
Arguments bind_targets {A} unpack g fr xs v.
Arguments import_names {A W} prim line g fr w names.
Arguments eval_list {A W} ev w es.
Arguments exec_list {A W} ex g fr w ss.
Arguments members {A} fr names.
Arguments eval {A W} lit prim truthy stop unpack n g fr w e.
Arguments exec {A W} lit prim truthy stop unpack n g fr w s.
Arguments loop {A W} lit prim truthy stop unpack n g fr w itr xs body.
Arguments run {A W} lit prim truthy stop unpack n nb g w.

(** *** Name resolution *)

(** A name that is read is a local name of the function that runs or one
    of the names [D] the kernel is known to bind. *)
Definition ok (L D : list string) (x : string) : bool :=
  bool_decide (x ∈ L) || bool_decide (x ∈ D).

Fixpoint closed_expr (L D : list string) (e : expr) : bool :=
  match e with
  | Name x => ok L D x
  | Lit _ => true
  | Prim _ args => forallb (closed_expr L D) args
  | Call f args _ => closed_expr L D f && forallb (closed_expr L D) args
  end.

(** The names a statement at the top level binds whenever it ends. *)
Definition defs (s : stmt) : list string :=
  match s with
  | Import _ names => names
  | Assign xs _ => xs
  | Def f _ _ => [f]
  | Class c _ _ => [c]
  | _ => []
  end.

(** Every name a statement reads is bound when it is read: at the top level
    ([top]) by the kernel's names [D], which grow with the statements that
    ran before; in a function by its local names [L] or by the names [D]
    the kernel bound when the function was defined. *)
Fixpoint closed_stmt (top : bool) (L D : list string) (s : stmt) {struct s} : bool :=
  let block :=
    fix block (top : bool) (L D : list string) (ss : list stmt) {struct ss} : bool :=
      match ss with
      | [] => true
      | s :: rest =>
          closed_stmt top L D s && block top L (if top then (defs s ++ D)%list else D) rest
      end in
  match s with
  | Magic _ | Import _ _ | Break => true
  | Assign _ e | ExprStmt e | Return e => closed_expr L D e
  | AugAssign x _ e => ok L D x && closed_expr L D e
  | SetItem obj ix o e => forallb (closed_expr L D) (item_exprs obj ix o e)
  | For xs it body =>
      closed_expr L D it && block top L (if top then (xs ++ D)%list else D) body
  | If c body => closed_expr L D c && block top L D body
  | Def _ ps body => block false (ps ++ assigned body)%list D body
  | Class _ bases body =>
      forallb (closed_expr L D) bases && block false (assigned body) D body
  end.

Fixpoint closed_block (top : bool) (L D : list string) (ss : list stmt) : bool :=
  match ss with
  | [] => true
  | s :: rest =>
      closed_stmt top L D s && closed_block top L (if top then (defs s ++ D)%list else D) rest
  end.

(** The builtins of Python the notebooks use; a fresh kernel binds them. *)
Definition builtins : list string := ["int"; "range"; "print"; "str"].

(** Every name a cell reads is a builtin or bound by a statement that ran
    before it in the same notebook. *)
Definition self_contained (nb : notebook) : bool :=
  closed_block true [] builtins (concat nb).

(** *** Two kernels

    A function of the notebook is [good] in a namespace that binds every
    name its body reads from the kernel. *)

Section Kernels.

Context {A : Type}.

Definition bound (g : namespace A) (x : string) : Prop := is_Some (g !! x).

Definition grows (g g' : namespace A) : Prop := ∀ x, bound g x → bound g' x.

Definition good (g : namespace A) (v : value A) : Prop :=
  match v with
  | Lib _ => True
  | Clo ps body =>
      ∃ D0, (∀ x, x ∈ D0 → bound g x) ∧
            closed_block false (ps ++ assigned body)%list D0 body = true
  end.

(** The namespace [g2] of a kernel in which something ran before binds
    what the namespace [g1] binds, and more; [g1] binds the names [D]. *)
Definition inv (D : list string) (g1 g2 : namespace A) : Prop :=
  g1 ⊆ g2 ∧ (∀ x, x ∈ D → bound g1 x) ∧ (∀ x v, g1 !! x = Some v → good g1 v).

Definition locals (fr : frame A) : list string :=
  match fr with Some (L, _) => L | None => [] end.

Definition at_top (fr : frame A) : bool :=
  match fr with Some _ => false | None => true end.

Definition good_frame (g : namespace A) (fr : frame A) : Prop :=
  match fr with
  | Some (_, lm) => ∀ x v, lm !! x = Some v → good g v
  | None => True
  end.

Definition good_signal (g : namespace A) (sig : signal A) : Prop :=
  match sig with Returned v => good g v | _ => True end.

(** What a step keeps. *)
Definition ext (D : list string) (g1 g2 : namespace A) (fr : frame A)
    (g1' g2' : namespace A) (fr' : frame A) : Prop :=
  inv D g1' g2' ∧ grows g1 g1' ∧ good_frame g1' fr' ∧
  locals fr' = locals fr ∧ at_top fr' = at_top fr ∧
  (at_top fr = false → g1' = g1 ∧ g2' = g2).

(** The outcomes of a block in the two kernels: the same failure, or the
    same frame, world and signal. *)
Definition alike {W : Type} (D Dn : list string) (g1 g2 : namespace A) (fr : frame A)
    (r1 r2 : option (namespace A * frame A * W * signal A)) : Prop :=
  match r1, r2 with
  | None, None => True
  | Some (g1', fr1, w1, s1), Some (g2', fr2, w2, s2) =>
      fr1 = fr2 ∧ w1 = w2 ∧ s1 = s2 ∧ ext D g1 g2 fr g1' g2' fr1 ∧
      (s1 = Normal → inv Dn g1' g2') ∧ good_signal g1' s1
  | _, _ => False
  end.

(** The names the kernel binds after a block that ran to its end. *)
Fixpoint after (top : bool) (D : list string) (ss : list stmt) : list string :=
  match ss with
  | [] => D
  | s :: rest => after top (if top then (defs s ++ D)%list else D) rest
  end.

(** A fresh kernel binds the builtins, each to an object of Python. *)
Definition fresh_kernel (obj : string → A) : namespace A :=
  list_to_map ((λ x, (x, Lib (obj x))) <$> builtins).

(** The outcomes of a notebook in two kernels: the same failure, or the
    same world and every name of the first namespace with the same value in
    the second. *)
Definition same_outcome {W : Type}
    (r1 r2 : option (namespace A * frame A * W * signal A)) : Prop :=
  match r1, r2 with
  | None, None => True
  | Some (g1, _, w1, s1), Some (g2, _, w2, s2) => w1 = w2 ∧ s1 = s2 ∧ g1 ⊆ g2
  | _, _ => False
  end.

End Kernels.

(** No statement of the notebook assigns a builtin. *)
Definition keeps_builtins (nb : notebook) : bool :=
  forallb (λ x, bool_decide (x ∉ builtins)) (assigned (concat nb)).

End Notebooks.

(** ** The code cells of the notebooks *)

Module NotebookCells.

Import Notebooks.

Local Open Scope string_scope.

(** [f(args)], [obj.m(args)] and [print(args)] without keywords. *)
Definition call (f : expr) (args : list expr) : expr := Call f args [].
Definition meth (obj : expr) (m : string) (args : list expr) : expr :=
  Call (Attr obj m) args [].
Definition print (args : list expr) : stmt := ExprStmt (call (Name "print") args).

(** *** chapter_crashcourse/naive-bayes.ipynb *)

(** [mx.gluon.data.vision.MNIST(train=..., transform=transform)] *)
Definition mnist (train : string) : expr :=
  Call (Attr (Attr (Attr (Attr (Name "mx") "gluon") "data") "vision") "MNIST")
    [Lit train; Name "transform"] ["train"; "transform"].

(** [figarr[...].axes.get_xaxis().set_visible(False)] *)
Definition hide (ix : list expr) (axis : string) : stmt :=
  ExprStmt (meth (meth (Attr (Index (Name "figarr") ix) "axes") axis []) "set_visible"
              [Lit "False"]).

(** [figarr[...].imshow(img.reshape((28, 28)).asnumpy(), cmap='hot')] *)
Definition imshow (ix : list expr) (img : expr) : stmt :=
  ExprStmt (Call (Attr (Index (Name "figarr") ix) "imshow")
              [meth (meth img "reshape" [Prim "tuple" [Lit "28"; Lit "28"]]) "asnumpy" [];
               Lit "'hot'"] ["cmap"]).

(** [plt.subplots(r, 10, figsize=(a, b))] *)
Definition subplots (r a b : string) : expr :=
  Call (Attr (Name "plt") "subplots")
    [Lit r; Lit "10"; Prim "tuple" [Lit a; Lit b]] ["figsize"].

(** [data.reshape((784,1))] *)
Definition column_of (data : string) : expr :=
  meth (Name data) "reshape" [Prim "tuple" [Lit "784"; Lit "1"]].

Definition naive_bayes : notebook := [
  [ Magic "!pip install mxnet-cu100";
    Magic "!pip install d2l";
    Magic "%matplotlib inline";
    Import "from matplotlib import pyplot as plt" ["plt"];
    Import "from IPython import display" ["display"];
    ExprStmt (meth (Name "display") "set_matplotlib_formats" [Lit "'svg'"]);
    Import "import mxnet as mx" ["mx"];
    Import "from mxnet import nd" ["nd"];
    Import "import numpy as np" ["np"];
    Def "transform" ["data"; "label"] [
      Return (Prim "tuple" [
        meth (meth (Name "nd") "floor" [Prim "/" [Name "data"; Lit "128"]]) "astype"
          [Attr (Name "np") "float32"];
        meth (Name "label") "astype" [Attr (Name "np") "float32"]]) ];
    Assign ["mnist_train"] (mnist "True");
    Assign ["mnist_test"] (mnist "False");
    Assign ["xcount"] (meth (Name "nd") "ones" [Prim "tuple" [Lit "784"; Lit "10"]]);
    Assign ["ycount"] (meth (Name "nd") "ones" [Lit "10"]);
    For ["data"; "label"] (Name "mnist_train") [
      Assign ["y"] (call (Name "int") [Name "label"]);
      SetItem (Name "ycount") [Name "y"] "+=" (Lit "1");
      SetItem (Name "xcount") [Prim ":" []; Name "y"] "+="
        (meth (Name "data") "reshape" [Lit "784"]) ];
    Assign ["py"] (Prim "/" [Name "ycount"; meth (Name "ycount") "sum" []]);
    Assign ["px"] (Prim "/" [Name "xcount";
                             meth (Name "ycount") "reshape" [Lit "1"; Lit "10"]]) ];
  [ Import "import matplotlib.pyplot as plt" ["plt"];
    Assign ["fig"; "figarr"] (subplots "1" "10" "10");
    For ["i"] (call (Name "range") [Lit "10"]) [
      imshow [Name "i"] (Index (Name "xcount") [Prim ":" []; Name "i"]);
      hide [Name "i"] "get_xaxis";
      hide [Name "i"] "get_yaxis" ];
    ExprStmt (meth (Name "plt") "show" []);
    print [Lit "'Class probabilities'"; Name "py"] ];
  [ Assign ["data"; "label"] (Index (Name "mnist_test") [Lit "0"]);
    Assign ["data"] (column_of "data");
    Assign ["xprob"]
      (Prim "+" [Prim "*" [Name "px"; Name "data"];
                 Prim "*" [Prim "-" [Lit "1"; Name "px"];
                           Prim "-" [Lit "1"; Name "data"]]]);
    Assign ["xprob"] (Prim "*" [meth (Name "xprob") "prod" [Lit "0"]; Name "py"]);
    print [Lit "'Unnormalized Probabilities'"; Name "xprob"];
    Assign ["xprob"] (Prim "/" [Name "xprob"; meth (Name "xprob") "sum" []]);
    print [Lit "'Normalized Probabilities'"; Name "xprob"] ];
  [ Assign ["logpx"] (meth (Name "nd") "log" [Name "px"]);
    Assign ["logpxneg"] (meth (Name "nd") "log" [Prim "-" [Lit "1"; Name "px"]]);
    Assign ["logpy"] (meth (Name "nd") "log" [Name "py"]);
    Def "bayespost" ["data"] [
      Assign ["logpost"] (meth (Name "logpy") "copy" []);
      AugAssign "logpost" "+="
        (meth (Prim "+" [Prim "*" [Name "logpx"; Name "data"];
                         Prim "*" [Name "logpxneg"; Prim "-" [Lit "1"; Name "data"]]])
           "sum" [Lit "0"]);
      AugAssign "logpost" "-=" (meth (Name "nd") "max" [Name "logpost"]);
      Assign ["post"] (meth (meth (Name "nd") "exp" [Name "logpost"]) "asnumpy" []);
      AugAssign "post" "/=" (meth (Name "np") "sum" [Name "post"]);
      Return (Name "post") ];
    Assign ["fig"; "figarr"] (subplots "2" "10" "3");
    Assign ["ctr"] (Lit "0");
    For ["data"; "label"] (Name "mnist_test") [
      Assign ["x"] (column_of "data");
      Assign ["y"] (call (Name "int") [Name "label"]);
      Assign ["post"] (call (Name "bayespost") [Name "x"]);
      ExprStmt (meth (Index (Name "figarr") [Lit "1"; Name "ctr"]) "bar"
                  [call (Name "range") [Lit "10"]; Name "post"]);
      hide [Lit "1"; Name "ctr"] "get_yaxis";
      imshow [Lit "0"; Name "ctr"] (Name "x");
      hide [Lit "0"; Name "ctr"] "get_xaxis";
      hide [Lit "0"; Name "ctr"] "get_yaxis";
      AugAssign "ctr" "+=" (Lit "1");
      If (Prim "==" [Name "ctr"; Lit "10"]) [Break] ];
    ExprStmt (meth (Name "plt") "show" []) ];
  [ Assign ["ctr"] (Lit "0");
    Assign ["err"] (Lit "0");
    For ["data"; "label"] (Name "mnist_test") [
      AugAssign "ctr" "+=" (Lit "1");
      Assign ["x"] (column_of "data");
      Assign ["y"] (call (Name "int") [Name "label"]);
      Assign ["post"] (call (Name "bayespost") [Name "x"]);
      If (Prim "<" [Index (Name "post") [Name "y"]; meth (Name "post") "max" []])
        [AugAssign "err" "+=" (Lit "1")] ];
    print [Lit "'Naive Bayes has an error rate of'"; Prim "/" [Name "err"; Name "ctr"]] ]
].

(** *** chapter_deep-learning-computation/parameters.ipynb *)

(** [nn.Dense(units)] and [nn.Dense(units, activation='relu')] *)
Definition dense (units : string) : expr := meth (Name "nn") "Dense" [Lit units].
Definition dense_relu (units : string) : expr :=
  Call (Attr (Name "nn") "Dense") [Lit units; Lit "'relu'"] ["activation"].

(** [net.add(layer)] *)
Definition add (net : string) (layer : expr) : stmt :=
  ExprStmt (meth (Name net) "add" [layer]).

(** [net[i].weight.data()] *)
Definition weight_data (i : string) : expr :=
  meth (Attr (Index (Name "net") [Lit i]) "weight") "data" [].

(** [net.initialize(init=init.I(args), force_reinit=True)] on [target] *)
Definition reinit (target : expr) (initializer : expr) : stmt :=
  ExprStmt (Call (Attr target "initialize") [initializer; Lit "True"]
              ["init"; "force_reinit"]).

(** [nd.random.uniform(shape=(2, 20))] *)
Definition uniform_2_20 : expr :=
  Call (Attr (Attr (Name "nd") "random") "uniform") [Prim "tuple" [Lit "2"; Lit "20"]]
    ["shape"].

(** [net[1].weight.data()[0] == net[2].weight.data()[0]] *)
Definition same_row : expr :=
  Prim "==" [Index (weight_data "1") [Lit "0"]; Index (weight_data "2") [Lit "0"]].

Definition parameters : notebook := [
  [ Magic "!pip install mxnet-cu100";
    Magic "!pip install d2l";
    Import "from mxnet import init, nd" ["init"; "nd"];
    Import "from mxnet.gluon import nn" ["nn"];
    Assign ["net"] (meth (Name "nn") "Sequential" []);
    add "net" (dense_relu "256");
    add "net" (dense "10");
    ExprStmt (meth (Name "net") "initialize" []);
    Assign ["x"] uniform_2_20;
    ExprStmt (call (Name "net") [Name "x"]) ];
  [ print [Attr (Index (Name "net") [Lit "0"]) "params"];
    print [Attr (Index (Name "net") [Lit "1"]) "params"] ];
  [ print [Attr (Index (Name "net") [Lit "1"]) "bias"];
    print [meth (Attr (Index (Name "net") [Lit "1"]) "bias") "data" []] ];
  [ print [Index (Attr (Index (Name "net") [Lit "0"]) "params") [Lit "'dense0_weight'"]];
    print [meth (Index (Attr (Index (Name "net") [Lit "0"]) "params")
                   [Lit "'dense0_weight'"]) "data" []] ];
  [ ExprStmt (meth (Attr (Index (Name "net") [Lit "0"]) "weight") "grad" []) ];
  [ print [meth (Index (Name "net") [Lit "0"]) "collect_params" []];
    print [meth (Name "net") "collect_params" []] ];
  [ ExprStmt (meth (Index (meth (Name "net") "collect_params" []) [Lit "'dense1_bias'"])
                "data" []) ];
  [ print [meth (Name "net") "collect_params" [Lit "'.*weight'"]];
    print [meth (Name "net") "collect_params" [Lit "'dense0.*'"]] ];
  [ Def "block1" [] [
      Assign ["net"] (meth (Name "nn") "Sequential" []);
      add "net" (dense_relu "32");
      add "net" (dense_relu "16");
      Return (Name "net") ];
    Def "block2" [] [
      Assign ["net"] (meth (Name "nn") "Sequential" []);
      For ["i"] (call (Name "range") [Lit "4"]) [
        add "net" (call (Name "block1") []) ];
      Return (Name "net") ];
    Assign ["rgnet"] (meth (Name "nn") "Sequential" []);
    add "rgnet" (call (Name "block2") []);
    add "rgnet" (dense "10");
    ExprStmt (meth (Name "rgnet") "initialize" []);
    ExprStmt (call (Name "rgnet") [Name "x"]) ];
  [ print [Attr (Name "rgnet") "collect_params"];
    print [meth (Name "rgnet") "collect_params" []] ];
  [ ExprStmt (meth (Attr (Index (Index (Index (Name "rgnet") [Lit "0"]) [Lit "1"])
                            [Lit "0"]) "bias") "data" []) ];
  [ reinit (Name "net")
      (Call (Attr (Name "init") "Normal") [Lit "0.01"] ["sigma"]);
    ExprStmt (Index (weight_data "0") [Lit "0"]) ];
  [ reinit (Name "net") (meth (Name "init") "Constant" [Lit "1"]);
    ExprStmt (Index (weight_data "0") [Lit "0"]) ];
  [ reinit (Index (Name "net") [Lit "1"]) (meth (Name "init") "Constant" [Lit "42"]);
    reinit (Attr (Index (Name "net") [Lit "0"]) "weight")
      (meth (Name "init") "Xavier" []);
    print [Index (weight_data "1") [Lit "0"; Lit "0"]];
    print [Index (weight_data "0") [Lit "0"]] ];
  [ Class "MyInit" [Attr (Name "init") "Initializer"] [
      Def "_init_weight" ["self"; "name"; "data"] [
        print [Lit "'Init'"; Name "name"; Attr (Name "data") "shape"];
        SetItem (Name "data") [Prim ":" []] "="
          (Call (Attr (Attr (Name "nd") "random") "uniform")
             [Lit "-10"; Lit "10"; Attr (Name "data") "shape"]
             ["low"; "high"; "shape"]);
        AugAssign "data" "*="
          (Prim ">=" [meth (Name "data") "abs" []; Lit "5"]) ] ];
    ExprStmt (Call (Attr (Name "net") "initialize")
                [call (Name "MyInit") []; Lit "True"] ["force_reinit"]);
    ExprStmt (Index (weight_data "0") [Lit "0"]) ];
  [ SetItem (weight_data "0") [Prim ":" []] "+=" (Lit "1");
    SetItem (weight_data "0") [Lit "0"; Lit "0"] "=" (Lit "42");
    ExprStmt (Index (weight_data "0") [Lit "0"]) ];
  [ Assign ["net"] (meth (Name "nn") "Sequential" []);
    Assign ["shared"] (dense_relu "8");
    ExprStmt (meth (Name "net") "add"
                [dense_relu "8";
                 Name "shared";
                 Call (Attr (Name "nn") "Dense")
                   [Lit "8"; Lit "'relu'"; Attr (Name "shared") "params"]
                   ["activation"; "params"];
                 dense "10"]);
    ExprStmt (meth (Name "net") "initialize" []);
    Assign ["x"] uniform_2_20;
    ExprStmt (call (Name "net") [Name "x"]);
    print [same_row];
    SetItem (weight_data "1") [Lit "0"; Lit "0"] "=" (Lit "100");
    print [same_row] ]
].

(** *** The linear regression notebook (vectorization and the normal
    distribution) *)

(** [nd.f(shape=10000)] *)
Definition filled (f : string) : expr :=
  Call (Attr (Name "nd") f) [Lit "10000"] ["shape"].

(** [time() - start] *)
Definition elapsed : stmt :=
  ExprStmt (Prim "-" [call (Name "time") []; Name "start"]).

(** [sigma**2] *)
Definition sigma2 : expr := Prim "**" [Name "sigma"; Lit "2"].

Definition linear_regression : notebook := [
  [ Magic "!pip install mxnet-cu100";
    Magic "!pip install d2l";
    Import "from mxnet import nd" ["nd"];
    Import "from time import time" ["time"];
    Assign ["a"] (filled "ones");
    Assign ["b"] (filled "ones") ];
  [ Assign ["start"] (call (Name "time") []);
    Assign ["c"] (filled "zeros");
    For ["i"] (call (Name "range") [Lit "10000"]) [
      SetItem (Name "c") [Name "i"] "="
        (Prim "+" [Index (Name "a") [Name "i"]; Index (Name "b") [Name "i"]]) ];
    elapsed ];
  [ Assign ["start"] (call (Name "time") []);
    Assign ["d"] (Prim "+" [Name "a"; Name "b"]);
    elapsed ];
  [ Magic "%matplotlib inline";
    Import "from matplotlib import pyplot as plt" ["plt"];
    Import "from IPython import display" ["display"];
    Import "from mxnet import nd" ["nd"];
    Import "import math" ["math"];
    Assign ["x"] (meth (Name "nd") "arange" [Lit "-7"; Lit "7"; Lit "0.01"]);
    Assign ["parameters"]
      (Prim "list" [Prim "tuple" [Lit "0"; Lit "1"];
                    Prim "tuple" [Lit "0"; Lit "2"];
                    Prim "tuple" [Lit "3"; Lit "1"]]);
    ExprStmt (meth (Name "display") "set_matplotlib_formats" [Lit "'svg'"]);
    ExprStmt (Call (Attr (Name "plt") "figure") [Prim "tuple" [Lit "10"; Lit "6"]]
                ["figsize"]);
    For ["mu"; "sigma"] (Name "parameters") [
      Assign ["p"]
        (Prim "*" [
           Prim "/" [Lit "1";
                     meth (Name "math") "sqrt"
                       [Prim "*" [Prim "*" [Lit "2"; Attr (Name "math") "pi"]; sigma2]]];
           meth (Name "nd") "exp"
             [Prim "*" [Prim "neg" [Prim "/" [Lit "0.5"; sigma2]];
                        Prim "**" [Prim "-" [Name "x"; Name "mu"]; Lit "2"]]]]);
      ExprStmt (Call (Attr (Name "plt") "plot")
                  [meth (Name "x") "asnumpy" [];
                   meth (Name "p") "asnumpy" [];
                   Prim "+" [Prim "+" [Prim "+" [Lit "'mean '";
                                                 call (Name "str") [Name "mu"]];
                                       Lit "', variance '"];
                             call (Name "str") [Name "sigma"]]]
                  ["label"]) ];
    ExprStmt (meth (Name "plt") "legend" []);
    ExprStmt (meth (Name "plt") "show" []) ]
].

(** *** The index of the chapter on convolutional networks: no code cell *)

Definition convolutional_networks : notebook := [].

Definition repository : list notebook :=
  [naive_bayes; parameters; linear_regression; convolutional_networks].

(** A library that does nothing but log what it is asked to do; its
    iterators end when the length of the log is a multiple of four. *)
Definition logging (o : string) (vs : list (value nat)) (w : list string)
  : option (nat * list string) :=
  Some (if String.eqb o "next" then (length w `mod` 4)%nat else 1%nat, o :: w).

Definition logged (n : nat) (nb : notebook) (g : namespace nat)
  : option (namespace nat * frame nat * list string * signal nat) :=
  run (λ _, 1%nat) logging (λ _, true) (λ a, bool_decide (a = 0%nat))
    (λ k _, Some (replicate k 1%nat)) n nb g [].

(** A cell that reads a name no statement binds, [print(x)], and a kernel
    in which something has bound that name. *)
Definition reads_x : notebook := [[print [Name "x"]]].

Definition kernel_with_x : namespace nat :=
  <["x" := Lib 7%nat]> (fresh_kernel (λ _, 1%nat)).

End NotebookCells.

(** ** The linear regression notebook: two ways to add, and the normal
    density *)

Module LinearRegression.

(** [a = nd.ones(shape=10000)], [b = nd.ones(shape=10000)] *)
Definition size : nat := Z.to_nat 10000.
Definition ones (k : nat) : vec := replicate k 1.

(** [c[i] = a[i] + b[i]]: each of the three indexings raises out of range. *)
Definition add_at (a b c : vec) (i : nat) : option vec :=
  x ← a !! i;
  y ← b !! i;
  if bool_decide (i < length c)%nat then Some (<[i := x + y]> c) else None.

(** [for i in range(k): ...], the iterations from [i] on. *)
Fixpoint for_range (i k : nat) (body : vec → nat → option vec) (c : vec) : option vec :=
  match k with
  | O => Some c
  | S k => c' ← body c i; for_range (S i) k body c'
  end.

(** [c = nd.zeros(shape=k)] and the loop over [range(k)]. *)
Definition loop_add (k : nat) (a b : vec) : option vec :=
  for_range 0 k (add_at a b) (replicate k 0).

(** [d = a + b]: elementwise on equal shapes; an array of one entry is
    broadcast; other shapes raise. *)
Definition vector_add (a b : vec) : option vec :=
  if bool_decide (length a = length b) then Some (vadd a b)
  else match a, b with
       | [x], _ => Some ((λ y, x + y) <$> b)
       | _, [y] => Some ((λ x, x + y) <$> a)
       | _, _ => None
       end.

(** [(1/math.sqrt(2 * math.pi * sigma**2)) * nd.exp(-(0.5/sigma**2) *
    (x-mu)**2)]: with [sigma = 0] the first quotient divides by zero. *)
Definition peak (sigma : R) : R := 1 / sqrt (2 * PI * sigma ^ 2).

Definition normal_density (mu sigma : R) (x : vec) : option vec :=
  if decide (sigma = 0) then None
  else Some ((λ xi, peak sigma * exp (- (0.5 / sigma ^ 2) * (xi - mu) ^ 2)) <$> x).

(** [parameters = [(0,1), (0,2), (3,1)]] and the loop that draws a curve for
    each pair. *)
Definition parameters : list (R * R) := [(0, 1); (0, 2); (3, 1)].

Definition curves (x : vec) : option (list vec) :=
  mapM (λ ms, normal_density ms.1 ms.2 x) parameters.

End LinearRegression.

(** ** The parameter notebook: the custom initializer (cell 12) *)

Module Initializers.

#[global] Instance Rle_decision (x y : R) : Decision (x <= y) := Rle_dec x y.

(** [MyInit._init_weight]: [data[:] = nd.random.uniform(low=-10, high=10,
    shape=data.shape)], then [data *= data.abs() >= 5]; [draw] is the array
    the generator returns, the comparison gives 1 or 0. *)
Definition my_init (draw : mat) : mat :=
  (λ row : vec, (λ x, x * (if decide (5 <= Rabs x) then 1 else 0)) <$> row) <$> draw.

End Initializers.

(** * Theorems *)

(** ** The naive Bayes notebook *)

Module NaiveBayesProofs.

Import NaiveBayes.

(** ** Training: the counters count *)

Section Training.

Implicit Types (c : counters) (s : sample) (train : list sample).

Lemma init_counters_shape : counters_shape init_counters.
Proof.
  split; [apply length_replicate|].
  split; [apply length_replicate|].
  apply Forall_replicate, length_replicate.
Qed.

Lemma vsum_cons (a : R) (v : vec) : vsum (a :: v) = a + vsum v.
Proof. reflexivity. Qed.

(** One sample moves exactly the counters of its class. *)
Lemma train_step_spec c data y0 :
  wf_sample (data, y0) → counters_shape c →
  ∃ c', train_step c (data, y0) = Some c' ∧ counters_shape c' ∧
    (∀ y, ycount c' !! y =
          (λ n, if decide (y = y0) then n + 1 else n) <$> ycount c !! y) ∧
    (∀ i y, mget (xcount c') i y =
          (λ n, if decide (y = y0) then n + pixel i (data, y0) else n)
            <$> mget (xcount c) i y).
Proof.
  intros [Hlen Hy] (Hyc & Hxl & Hxr). simpl in Hlen, Hy.
  eexists. split.
  { unfold train_step. rewrite !bool_decide_eq_true_2 by done. reflexivity. }
  split; [|split].
  - split; cbn [ycount xcount]; [by rewrite length_alter|]. split.
    + rewrite length_zip_with, Hxl, Hlen. lia.
    + apply Forall_zip_with_fst with (P := λ row, length row = ncls); [done|].
      apply Forall_true. intros d row Hrow. by rewrite length_alter.
  - intros y. cbn [ycount]. destruct (decide (y = y0)) as [->|Hne].
    + by rewrite list_lookup_alter_eq.
    + rewrite list_lookup_alter_ne by done. by destruct (ycount c !! y).
  - intros i y. unfold mget, pixel. cbn [xcount fst]. rewrite lookup_zip_with.
    destruct (xcount c !! i) as [row|] eqn:Hrow; simpl; [|done].
    destruct (data !! i) as [d|] eqn:Hd; simpl.
    + destruct (decide (y = y0)) as [->|Hne].
      * by rewrite list_lookup_alter_eq.
      * rewrite list_lookup_alter_ne by done. by destruct (row !! y).
    + apply lookup_lt_Some in Hrow. apply lookup_ge_None in Hd. lia.
Qed.

Lemma of_class_cons y s train :
  of_class y (s :: train) =
  if decide (label s = y) then s :: of_class y train else of_class y train.
Proof. unfold of_class. by rewrite filter_cons. Qed.

Lemma n_y_cons y s train :
  n_y (s :: train) y = (if decide (y = label s) then 1 else 0) + n_y train y.
Proof.
  unfold n_y. rewrite of_class_cons.
  destruct (decide (label s = y)), (decide (y = label s)); try congruence.
  - change (length (s :: of_class y train)) with (S (length (of_class y train))).
    rewrite S_INR. lra.
  - lra.
Qed.

Lemma n_iy_cons i y s train :
  n_iy (s :: train) i y =
  (if decide (y = label s) then pixel i s else 0) + n_iy train i y.
Proof.
  unfold n_iy. rewrite of_class_cons.
  destruct (decide (label s = y)), (decide (y = label s)); try congruence.
  - reflexivity.
  - lra.
Qed.

(** The loop from any counters of the right shape. *)
Lemma train_loop_spec train : ∀ c,
  Forall wf_sample train → counters_shape c →
  ∃ c', train_loop c train = Some c' ∧ counters_shape c' ∧
    (∀ y, ycount c' !! y = (λ n, n + n_y train y) <$> ycount c !! y) ∧
    (∀ i y, mget (xcount c') i y =
            (λ n, n + n_iy train i y) <$> mget (xcount c) i y).
Proof.
  induction train as [|[data y0] train IH]; intros c Hwf Hc.
  - exists c. split; [done|]. split; [done|]. split.
    + intros y. unfold n_y. simpl. destruct (ycount c !! y); simpl; [|done].
      f_equal. lra.
    + intros i y. unfold n_iy. simpl. destruct (mget (xcount c) i y); simpl; [|done].
      f_equal. lra.
  - apply Forall_cons in Hwf as [Hs Hwf].
    destruct (train_step_spec c data y0 Hs Hc) as (c1 & Hstep & Hc1 & Hy1 & Hx1).
    destruct (IH c1 Hwf Hc1) as (c' & Hloop & Hc' & Hy' & Hx').
    exists c'. split; [cbn [train_loop]; by rewrite Hstep|]. split; [done|]. split.
    + intros y. rewrite Hy', Hy1, n_y_cons. simpl.
      destruct (ycount c !! y); simpl; [|done]. f_equal.
      destruct (decide (y = y0)); lra.
    + intros i y. rewrite Hx', Hx1, n_iy_cons. simpl.
      destruct (mget (xcount c) i y); simpl; [|done]. f_equal.
      destruct (decide (y = y0)); lra.
Qed.

Lemma init_ycount_lookup y : (y < ncls)%nat → ycount init_counters !! y = Some 1.
Proof. intros. by apply lookup_replicate_2. Qed.

Lemma init_xcount_lookup i y :
  (i < npix)%nat → (y < ncls)%nat → mget (xcount init_counters) i y = Some 1.
Proof.
  intros Hi Hy. unfold mget, init_counters. cbn [xcount].
  rewrite (lookup_replicate_2 npix _ i Hi). by apply lookup_replicate_2.
Qed.

(** On binary images the sum of a pixel is the number of images that set it. *)
Lemma n_iy_binary train i y :
  Forall binary train → n_iy train i y = on_iy train i y.
Proof.
  unfold n_iy, on_iy, of_class. induction train as [|s train IH]; intros Hb.
  - reflexivity.
  - apply Forall_cons in Hb as [Hs Hb]. specialize (IH Hb).
    rewrite filter_cons. destruct (decide (label s = y)); [|done].
    rewrite fmap_cons, filter_cons. simpl vsum. rewrite IH.
    assert (Hp : pixel i s = 0 ∨ pixel i s = 1).
    { unfold pixel. destruct (s.1 !! i) as [v|] eqn:Hv; simpl; [|by left].
      eapply Forall_lookup_1 in Hs; [exact Hs | exact Hv]. }
    destruct (decide (pixel i s = 1)) as [H1|H1].
    + change (length (s :: ?l)) with (S (length l)). rewrite S_INR, H1. lra.
    + destruct Hp as [H0|]; [rewrite H0; lra | done].
Qed.

(** The lookups of the estimates. *)
Lemma py_lookup c y : py (estimate c) !! y = (λ n, n / vsum (ycount c)) <$> ycount c !! y.
Proof. unfold estimate. simpl. by rewrite list_lookup_fmap. Qed.

Lemma px_lookup c i y xv yv :
  mget (xcount c) i y = Some xv → ycount c !! y = Some yv →
  mget (px (estimate c)) i y = Some (xv / yv).
Proof.
  unfold mget, estimate, bdiv. simpl. intros Hx Hy.
  rewrite list_lookup_fmap.
  destruct (xcount c !! i) as [row|]; simpl in *; [|done].
  rewrite lookup_zip_with, Hx. simpl. by rewrite Hy.
Qed.

Lemma n_y_nonneg train y : 0 <= n_y train y.
Proof. apply pos_INR. Qed.

Lemma vsum_pos (v : vec) : Forall (λ a, 0 < a) v → v ≠ [] → 0 < vsum v.
Proof.
  intros Hv Hne. destruct Hv as [|a v Ha Hv]; [done|]. clear Hne.
  cbn [vsum foldr]. revert a Ha. induction Hv as [|b v Hb Hv IH]; intros a Ha.
  - simpl. lra.
  - specialize (IH b Hb). cbn [foldr] in *. lra.
Qed.

(** The state of the notebook after cell 1. *)
Lemma fit_spec train :
  Forall wf_sample train →
  ∃ c, train_loop init_counters train = Some c ∧ fit train = Some (estimate c) ∧
    counters_shape c ∧ 0 < vsum (ycount c) ∧
    (∀ y, (y < ncls)%nat →
       ycount c !! y = Some (1 + n_y train y) ∧
       py (estimate c) !! y = Some ((1 + n_y train y) / vsum (ycount c))) ∧
    (∀ i y, (i < npix)%nat → (y < ncls)%nat →
       mget (xcount c) i y = Some (1 + n_iy train i y) ∧
       mget (px (estimate c)) i y = Some ((1 + n_iy train i y) / (1 + n_y train y))).
Proof.
  intros Hwf.
  destruct (train_loop_spec train init_counters Hwf init_counters_shape)
    as (c & Hloop & Hshape & Hy & Hx).
  assert (Hyc : ∀ y, (y < ncls)%nat → ycount c !! y = Some (1 + n_y train y)).
  { intros y Hlt. by rewrite Hy, init_ycount_lookup. }
  assert (Hxc : ∀ i y, (i < npix)%nat → (y < ncls)%nat →
                mget (xcount c) i y = Some (1 + n_iy train i y)).
  { intros i y Hi Hlt. by rewrite Hx, init_xcount_lookup. }
  exists c. split; [done|]. split; [unfold fit; by rewrite Hloop|].
  split; [done|]. split; [|split].
  - destruct Hshape as [Hlen _]. apply vsum_pos.
    + apply Forall_lookup_2. intros y a Ha.
      assert (Hlt : (y < ncls)%nat) by (rewrite <- Hlen; by eapply lookup_lt_Some).
      rewrite (Hyc y Hlt) in Ha. injection Ha as <-.
      pose proof (n_y_nonneg train y). lra.
    + intros Heq. rewrite Heq in Hlen. unfold ncls in Hlen. simpl in Hlen. lia.
  - intros y Hlt. split; [auto|]. by rewrite py_lookup, Hyc.
  - intros i y Hi Hlt. split; [auto|]. eapply px_lookup; eauto.
Qed.

(** [transform] makes every image of [uint8] pixels binary. *)
Lemma transform_binary raw :
  Forall (λ p, 0 ≤ p ≤ 255)%Z raw.1 → binary (transform raw).
Proof.
  unfold binary, transform. cbn [fst]. intros H. apply Forall_fmap.
  eapply Forall_impl; [exact H|]. intros p Hp. unfold compose. cbn beta in Hp |- *.
  assert (Hq : (0 ≤ p / 128 < 2)%Z).
  { split; [apply Z.div_pos; lia | apply Z.div_lt_upper_bound; lia]. }
  assert (Hc : (p / 128 = 0 ∨ p / 128 = 1)%Z) by lia.
  destruct Hc as [-> | ->]; auto.
Qed.

Lemma transform_wf raw :
  length raw.1 = npix → (raw.2 < ncls)%nat → wf_sample (transform raw).
Proof. intros Hl Hy. split; cbn [transform fst snd]; [by rewrite length_fmap | done]. Qed.

Lemma two_images_wf : Forall wf_sample two_images.
Proof.
  unfold two_images. apply Forall_fmap.
  apply Forall_cons_2; [|apply Forall_cons_2; [|apply Forall_nil_2]];
    apply transform_wf; cbn [fst snd];
    first [apply length_replicate | unfold ncls; lia].
Qed.

Lemma two_images_binary : Forall binary two_images.
Proof.
  unfold two_images. apply Forall_fmap.
  apply Forall_cons_2; [|apply Forall_cons_2; [|apply Forall_nil_2]];
    apply transform_binary; cbn [fst]; apply Forall_replicate; lia.
Qed.

End Training.

(** ** The range of the estimates *)

Section Range.

Implicit Types (s : sample) (train : list sample).

Lemma binary_unit_range s : binary s → unit_range s.
Proof.
  unfold binary, unit_range. intros H. eapply Forall_impl; [exact H|].
  intros v [-> | ->]; lra.
Qed.

Lemma pixel_unit_range i s : unit_range s → 0 <= pixel i s <= 1.
Proof.
  unfold unit_range, pixel. intros Hs.
  destruct (s.1 !! i) as [v|] eqn:Hv; simpl; [|lra].
  eapply Forall_lookup_1 in Hs; [exact Hs | exact Hv].
Qed.

(** A pixel is set in at most all the samples of a class. *)
Lemma n_iy_bounds train i y :
  Forall unit_range train → 0 <= n_iy train i y <= n_y train y.
Proof.
  unfold n_iy, n_y, of_class. induction train as [|s train IH]; intros Hr.
  - simpl. lra.
  - apply Forall_cons in Hr as [Hs Hr]. specialize (IH Hr).
    rewrite filter_cons. destruct (decide (label s = y)); [|done].
    rewrite fmap_cons. change (length (s :: ?l)) with (S (length l)).
    rewrite S_INR, vsum_cons.
    pose proof (pixel_unit_range i s Hs). lra.
Qed.

Lemma n_iy_all_set train i y :
  Forall (λ s, pixel i s = 1) (of_class y train) → n_iy train i y = n_y train y.
Proof.
  unfold n_iy, n_y. induction 1 as [|s l Hs _ IH]; [done|].
  rewrite fmap_cons. change (length (s :: ?l)) with (S (length l)).
  rewrite S_INR, vsum_cons, IH, Hs. lra.
Qed.

Lemma nd_log_pos p : 0 < p → nd_log p = Finite (ln p).
Proof. intros Hp. unfold nd_log. by destruct (Rlt_dec 0 p). Qed.

Lemma nd_log_zero : nd_log 0 = NegInf.
Proof.
  unfold nd_log. destruct (Rlt_dec 0 0) as [H|_]; [lra|].
  by destruct (decide (0 = 0)).
Qed.

Lemma nd_log_finite p r : nd_log p = Finite r → 0 < p ∧ r = ln p.
Proof.
  unfold nd_log. destruct (Rlt_dec 0 p); [intros [= <-]; done|].
  by destruct (decide (p = 0)).
Qed.

(** The estimated pixel probabilities lie in [(0, 1]]. *)
Lemma px_range train i y :
  Forall unit_range train →
  0 < (1 + n_iy train i y) / (1 + n_y train y) <= 1.
Proof.
  intros Hr. pose proof (n_iy_bounds train i y Hr) as [H0 H1].
  split.
  - apply Rdiv_lt_0_compat; lra.
  - replace 1 with ((1 + n_y train y) / (1 + n_y train y)) at 3 by (field; lra).
    apply Rmult_le_compat_r; [left; apply Rinv_0_lt_compat|]; lra.
Qed.

(** C5. Laplace smoothing keeps the logarithm of [px] defined: on a
    training set with pixel values in [[0,1]] every entry of [px] is
    strictly positive and at most 1, so [nd.log(px)] is finite there.  The
    upper bound is reached: where every sample of a class sets a pixel the
    entry of [px] is 1, and [nd.log(1-px)] is [-inf]. *)
Theorem laplace_smoothing_bounds_px train :
  Forall wf_sample train → Forall unit_range train →
  ∃ m, fit train = Some m ∧
    (∀ i y, (i < npix)%nat → (y < ncls)%nat →
       ∃ p, mget (px m) i y = Some p ∧ 0 < p <= 1 ∧ nd_log p = Finite (ln p)) ∧
    (∀ i y, (i < npix)%nat → (y < ncls)%nat →
       Forall (λ s, pixel i s = 1) (of_class y train) →
       ∃ p, mget (px m) i y = Some p ∧ p = 1 ∧ nd_log (1 - p) = NegInf).
Proof.
  intros Hwf Hr.
  destruct (fit_spec train Hwf) as (c & _ & Hfit & _ & _ & _ & Hx).
  exists (estimate c). split; [done|]. split.
  - intros i y Hi Hy. destruct (Hx i y Hi Hy) as [_ Hpx].
    eexists. split; [exact Hpx|].
    pose proof (px_range train i y Hr) as Hp.
    split; [done|]. apply nd_log_pos. lra.
  - intros i y Hi Hy Hall. destruct (Hx i y Hi Hy) as [_ Hpx].
    eexists. split; [exact Hpx|].
    rewrite (n_iy_all_set train i y Hall).
    pose proof (n_y_nonneg train y).
    assert (H1 : (1 + n_y train y) / (1 + n_y train y) = 1) by (field; lra).
    rewrite H1. split; [done|].
    replace (1 - 1) with 0 by lra. apply nd_log_zero.
Qed.

(** The classes of the two images. *)
Lemma two_images_of_class y :
  of_class y two_images =
    (if decide (3%nat = y) then [transform (replicate npix 200%Z, 3%nat)] else []) ++
    (if decide (7%nat = y) then [transform (replicate npix 5%Z, 7%nat)] else []).
Proof.
  unfold of_class, two_images. rewrite !fmap_cons, fmap_nil, !filter_cons, filter_nil.
  unfold label, transform. cbn [snd].
  by destruct (decide (3%nat = y)), (decide (7%nat = y)).
Qed.

Lemma pixel_transform_replicate i p y :
  (i < npix)%nat → pixel i (transform (replicate npix p, y)) = IZR (p / 128).
Proof.
  intros Hi. unfold pixel, transform. cbn [fst].
  by rewrite list_lookup_fmap, lookup_replicate_2.
Qed.

(** The estimates of pixel 0 on the two images: the bright image of class 3
    sets it ([2/2]), the dark one of class 7 does not ([1/2]), and class 0
    has no sample ([1/1]). *)
Example two_images_estimates :
  ∃ m, fit two_images = Some m ∧
    mget (px m) 0 3 = Some 1 ∧ mget (px m) 0 7 = Some (1 / 2) ∧
    mget (px m) 0 0 = Some 1.
Proof.
  destruct (fit_spec two_images two_images_wf) as (c & _ & Hfit & _ & _ & _ & Hx).
  exists (estimate c). split; [done|].
  assert (H0 : (0 < npix)%nat) by (unfold npix; lia).
  assert (Hn : ∀ y, (y < ncls)%nat → (1 + n_iy two_images 0 y) / (1 + n_y two_images y) =
            if decide (3%nat = y) then 1 else if decide (7%nat = y) then 1 / 2 else 1).
  { intros y _. unfold n_iy, n_y. rewrite two_images_of_class.
    destruct (decide (3%nat = y)) as [<-|]; [|destruct (decide (7%nat = y)) as [<-|]].
    - rewrite decide_False by lia. cbn [app fmap list_fmap length].
      rewrite vsum_cons, pixel_transform_replicate by done.
      change (IZR (200 / 128)) with 1. cbn. field.
    - cbn [app fmap list_fmap length].
      rewrite vsum_cons, pixel_transform_replicate by done.
      change (IZR (5 / 128)) with 0. cbn. field.
    - cbn. field. }
  assert (Hc : ∀ y, (y < ncls)%nat → mget (px (estimate c)) 0 y =
            Some (if decide (3%nat = y) then 1 else if decide (7%nat = y) then 1 / 2 else 1)).
  { intros y Hy. destruct (Hx 0%nat y H0 Hy) as [_ ->]. by rewrite Hn. }
  rewrite !Hc by (unfold ncls; lia). done.
Qed.

(** The bright image is the one sample of class 3, and it sets pixel 0. *)
Lemma two_images_class_3 :
  Forall (λ s, pixel 0 s = 1) (of_class 3 two_images).
Proof.
  unfold two_images, of_class. rewrite !fmap_cons, !filter_cons.
  cbn [transform label snd fst fmap list_fmap filter list_filter].
  destruct (decide (3 = 3)%nat); [|done]. destruct (decide (7 = 3)%nat); [done|].
  apply Forall_cons_2; [|apply Forall_nil_2].
  unfold pixel, transform. cbn [fst]. rewrite list_lookup_fmap.
  rewrite lookup_replicate_2 by (unfold npix; lia). reflexivity.
Qed.

(** The bounds on the two images, where class 3 reaches the upper one. *)
Lemma laplace_smoothing_bounds_witness :
  Forall (λ s, pixel 0 s = 1) (of_class 3 two_images) ∧
  ∃ m, fit two_images = Some m ∧
    (∀ i y, (i < npix)%nat → (y < ncls)%nat →
       ∃ p, mget (px m) i y = Some p ∧ 0 < p <= 1 ∧ nd_log p = Finite (ln p)) ∧
    (∀ i y, (i < npix)%nat → (y < ncls)%nat →
       Forall (λ s, pixel i s = 1) (of_class y two_images) →
       ∃ p, mget (px m) i y = Some p ∧ p = 1 ∧ nd_log (1 - p) = NegInf).
Proof.
  split; [exact two_images_class_3|].
  apply (laplace_smoothing_bounds_px two_images two_images_wf).
  eapply Forall_impl; [exact two_images_binary | exact binary_unit_range].
Defined.

End Range.

(** ** The softmax of [bayespost] *)

Section Softmax.

Implicit Types (v : vec) (lm : logmodel).

Lemma vsum_scale v d : vsum ((λ a, a / d) <$> v) = vsum v / d.
Proof.
  induction v as [|a v IH]; [cbn; unfold Rdiv; lra|].
  rewrite fmap_cons, !vsum_cons, IH. unfold Rdiv. lra.
Qed.

Lemma vsum_exp_shift v c :
  vsum (exp <$> ((λ a, a - c) <$> v)) = exp (- c) * vsum (exp <$> v).
Proof.
  induction v as [|a v IH]; [cbn; lra|].
  rewrite !fmap_cons, !vsum_cons, IH.
  replace (a - c) with (a + - c) by lra. rewrite exp_plus. lra.
Qed.

Lemma exp_all_pos v : Forall (λ a, 0 < a) (exp <$> v).
Proof. apply Forall_fmap, Forall_true. intros a. apply exp_pos. Qed.

Lemma vsum_exp_pos v : v ≠ [] → 0 < vsum (exp <$> v).
Proof.
  intros Hv. apply vsum_pos; [apply exp_all_pos|]. by destruct v.
Qed.

Lemma normalize_exp_shift v c :
  normalize (exp <$> ((λ a, a - c) <$> v)) = normalize (exp <$> v).
Proof.
  destruct (decide (v = [])) as [-> | Hv]; [done|].
  unfold normalize. rewrite vsum_exp_shift.
  pose proof (vsum_exp_pos v Hv) as HS. pose proof (exp_pos (- c)) as Hc.
  rewrite <- !list_fmap_compose. apply list_fmap_ext. intros _ a _.
  unfold compose. replace (a - c) with (a + - c) by lra.
  rewrite exp_plus. field. lra.
Qed.

(** C4 (amended). In exact arithmetic, subtracting a constant before
    exponentiating does not change the normalized result:
    [exp(v - c) / sum(exp(v - c))] is [exp(v) / sum(exp(v))] for every
    vector [v] of real numbers and every constant [c]; hence [bayespost],
    which subtracts [nd.max(logpost)], returns in exact arithmetic the
    softmax of [logpost] itself. *)
Theorem softmax_shift_invariant :
  (∀ v c, normalize (exp <$> ((λ a, a - c) <$> v)) = normalize (exp <$> v)) ∧
  (∀ lm data, bayespost lm data = normalize (exp <$> logpost lm data)).
Proof.
  split; [exact normalize_exp_shift|].
  intros lm data. unfold bayespost. cbv zeta. apply normalize_exp_shift.
Qed.

(** A normalized vector of positive numbers is a probability distribution. *)
Lemma normalize_distribution v :
  Forall (λ a, 0 < a) v → v ≠ [] →
  Forall (λ p, 0 <= p) (normalize v) ∧ vsum (normalize v) = 1.
Proof.
  intros Hpos Hne. pose proof (vsum_pos v Hpos Hne) as HS. split.
  - unfold normalize. apply Forall_fmap.
    eapply Forall_impl; [exact Hpos|]. intros a Ha. unfold compose.
    left. apply Rdiv_lt_0_compat; lra.
  - unfold normalize. rewrite vsum_scale. field. lra.
Qed.

End Softmax.

(** ** The state of the notebook when [bayespost] runs *)

Section NotebookState.

Implicit Types (c : counters) (m : model) (lm : logmodel) (train : list sample).

Lemma train_step_Some_wf c s c' : train_step c s = Some c' → wf_sample s.
Proof.
  unfold train_step, wf_sample. destruct s as [data y]. cbn [fst snd].
  destruct (bool_decide (y < ncls)%nat) eqn:Hy; [|done].
  destruct (bool_decide (length data = npix)) eqn:Hl; [|done].
  intros _. apply bool_decide_eq_true_1 in Hy, Hl. done.
Qed.

(** The loop ends only on a training set it can index. *)
Lemma train_loop_Some_wf train : ∀ c c',
  train_loop c train = Some c' → Forall wf_sample train.
Proof.
  induction train as [|s train IH]; intros c c' H; [by apply Forall_nil_2|].
  cbn [train_loop] in H.
  destruct (train_step c s) as [c1|] eqn:Hstep; [|done].
  apply Forall_cons_2; [by eapply train_step_Some_wf | by eapply IH].
Qed.

Lemma fit_Some_wf train m : fit train = Some m → Forall wf_sample train.
Proof.
  unfold fit. destruct (train_loop init_counters train) eqn:H; [|done].
  intros _. by eapply train_loop_Some_wf.
Qed.

Lemma estimate_shape c :
  counters_shape c →
  shape npix ncls (px (estimate c)) ∧ length (py (estimate c)) = ncls.
Proof.
  intros (Hy & Hl & Hr). unfold estimate, bdiv. cbn [px py]. split; [split|].
  - by rewrite length_fmap.
  - apply Forall_fmap. eapply Forall_impl; [exact Hr|].
    intros row Hrow. unfold compose. cbn beta in Hrow.
    rewrite length_zip_with. lia.
  - by rewrite length_fmap.
Qed.

(** After cell 1: the shapes of [px] and [py], and the prior is positive. *)
Lemma fit_shape train m :
  fit train = Some m →
  shape npix ncls (px m) ∧ length (py m) = ncls ∧ Forall (λ p, 0 < p) (py m).
Proof.
  intros Hfit. pose proof (fit_Some_wf train m Hfit) as Hwf.
  destruct (fit_spec train Hwf) as (c & _ & Hfit' & Hshape & Hsum & Hy & _).
  rewrite Hfit in Hfit'. injection Hfit' as ->.
  destruct (estimate_shape c Hshape) as [Hpx Hpy].
  split; [done|]. split; [done|].
  apply Forall_lookup_2. intros y p Hp.
  assert (Hlt : (y < ncls)%nat) by (rewrite <- Hpy; by eapply lookup_lt_Some).
  destruct (Hy y Hlt) as [_ Hpy']. rewrite Hpy' in Hp. injection Hp as <-.
  pose proof (n_y_nonneg train y). apply Rdiv_lt_0_compat; lra.
Qed.

(** The logarithms are finite exactly on positive entries. *)
Lemma vlog_Some (v lv : vec) :
  vlog v = Some lv → lv = vln v ∧ Forall (λ p, 0 < p) v.
Proof.
  unfold vlog, vln. rewrite mapM_Some. induction 1 as [|p r v lv Hp _ [-> IH]]; [done|].
  unfold compose in Hp. destruct (nd_log p) as [r'| |] eqn:Hlog; try done.
  injection Hp as ->. apply nd_log_finite in Hlog as [Hpos ->].
  split; [done | by apply Forall_cons_2].
Qed.

Lemma vlog_pos (v : vec) :
  Forall (λ p, 0 < p) v → vlog v = Some (vln v).
Proof.
  intros Hv. unfold vlog, vln. apply mapM_Some. induction Hv as [|p v Hp _ IH]; [constructor|].
  rewrite fmap_cons. constructor; [|done].
  unfold compose. by rewrite nd_log_pos.
Qed.

Lemma mlog_Some (a la : mat) :
  mlog a = Some la → la = mln a ∧ Forall (Forall (λ p, 0 < p)) a.
Proof.
  unfold mlog, mln. rewrite mapM_Some.
  induction 1 as [|v lv a la Hv _ [-> IH]]; [done|].
  apply vlog_Some in Hv as [-> Hv]. split; [done | by apply Forall_cons_2].
Qed.

Lemma mlog_pos (a : mat) :
  Forall (Forall (λ p, 0 < p)) a → mlog a = Some (mln a).
Proof.
  intros Ha. unfold mlog, mln. apply mapM_Some.
  induction Ha as [|v a Hv _ IH]; [constructor|].
  rewrite fmap_cons. constructor; [by apply vlog_pos | done].
Qed.

(** Cell 4 goes through exactly when [px] lies strictly between 0 and 1
    and [py] is positive, and then holds the logarithms. *)
Lemma logs_Some m lm :
  logs m = Some lm →
  logpx lm = mln (px m) ∧ logpxneg lm = mln (mcompl (px m)) ∧
  logpy lm = vln (py m) ∧
  Forall (Forall (λ p, 0 < p)) (px m) ∧
  Forall (Forall (λ p, 0 < p)) (mcompl (px m)) ∧
  Forall (λ p, 0 < p) (py m).
Proof.
  unfold logs. intros H.
  destruct (mlog (px m)) as [lpx|] eqn:H1; [|done].
  destruct (mlog (mcompl (px m))) as [lpxn|] eqn:H2; [|done].
  destruct (vlog (py m)) as [lpy|] eqn:H3; [|done].
  cbn in H. injection H as <-. cbn [logpx logpxneg logpy].
  apply mlog_Some in H1 as [-> ?]. apply mlog_Some in H2 as [-> ?].
  apply vlog_Some in H3 as [-> ?]. done.
Qed.

Lemma logs_total m :
  Forall (Forall (λ p, 0 < p < 1)) (px m) → Forall (λ p, 0 < p) (py m) →
  logs m = Some {| logpx := mln (px m);
                   logpxneg := mln (mcompl (px m));
                   logpy := vln (py m) |}.
Proof.
  intros Hpx Hpy. unfold logs.
  assert (H1 : Forall (Forall (λ p, 0 < p)) (px m)).
  { eapply Forall_impl; [exact Hpx|]. intros row Hrow.
    eapply Forall_impl; [exact Hrow|]. intros p Hp. cbn beta in Hp. lra. }
  assert (H2 : Forall (Forall (λ p, 0 < p)) (mcompl (px m))).
  { unfold mcompl, vcompl. rewrite Forall_fmap.
    eapply Forall_impl; [exact Hpx|]. intros row Hrow. unfold compose.
    rewrite Forall_fmap. eapply Forall_impl; [exact Hrow|].
    intros p Hp. unfold compose. cbn beta in Hp. lra. }
  by rewrite (mlog_pos _ H1), (mlog_pos _ H2), (vlog_pos _ Hpy).
Qed.

(** Shapes of the intermediate tensors of [logpost]. *)
Lemma rows_mln k (a : mat) : rows k a → rows k (mln a).
Proof.
  intros Ha. unfold mln, vln. apply Forall_fmap. eapply Forall_impl; [exact Ha|].
  intros row Hrow. unfold compose. by rewrite length_fmap.
Qed.

Lemma rows_mcompl k (a : mat) : rows k a → rows k (mcompl a).
Proof.
  intros Ha. unfold mcompl, vcompl. apply Forall_fmap.
  eapply Forall_impl; [exact Ha|].
  intros row Hrow. unfold compose. by rewrite length_fmap.
Qed.

Lemma rows_bmul k (a : mat) (d : vec) : rows k a → rows k (bmul a d).
Proof.
  intros Ha. unfold bmul.
  apply Forall_zip_with_fst with (P := λ row, length row = k); [done|].
  apply Forall_true. intros di row Hrow. by rewrite length_fmap.
Qed.

Lemma rows_madd k (a b : mat) : rows k a → rows k b → rows k (madd a b).
Proof.
  intros Ha. revert b. induction Ha as [|u a Hu _ IH]; intros b Hb; [constructor|].
  destruct Hb as [|v b Hv Hb]; [constructor|].
  cbn [madd zip_with]. constructor; [|by apply IH].
  unfold vadd. rewrite length_zip_with. lia.
Qed.

Lemma length_sum0 k (a : mat) : rows k a → length (sum0 k a) = k.
Proof.
  induction 1 as [|u a Hu _ IH]; [apply length_replicate|].
  cbn [sum0 foldr]. unfold vadd at 1. rewrite length_zip_with.
  fold (sum0 k a). lia.
Qed.

Lemma length_bayespost lm data : length (bayespost lm data) = length (logpost lm data).
Proof. unfold bayespost, normalize. cbv zeta. by rewrite !length_fmap. Qed.

(** After cells 1 and 4 the posterior has one entry per digit. *)
Lemma length_logpost train m lm data :
  fit train = Some m → logs m = Some lm → length (logpost lm data) = ncls.
Proof.
  intros Hfit Hlogs.
  destruct (fit_shape train m Hfit) as ([_ Hrows] & Hpy & _).
  destruct (logs_Some m lm Hlogs) as (Hlpx & Hlpxneg & Hlpy & _).
  unfold logpost, vadd. rewrite Hlpx, Hlpxneg, Hlpy. unfold vln.
  rewrite length_zip_with, length_fmap, Hpy.
  rewrite length_sum0; [lia|].
  apply rows_madd; apply rows_bmul, rows_mln; [done|].
  by apply rows_mcompl.
Qed.


End NotebookState.

(** ** Log space against the direct product *)

Section LogSpace.

Implicit Types (u v w : vec) (a : mat) (m : model).

Lemma exp_vln v : positive v → exp <$> vln v = v.
Proof.
  unfold vln. induction 1 as [|p v Hp _ IH]; [done|].
  rewrite !fmap_cons, IH, exp_ln; done.
Qed.

Lemma vmul_comm u v : vmul u v = vmul v u.
Proof.
  revert v. induction u as [|x u IH]; intros [|y v]; try done.
  cbn [vmul zip_with]. f_equal; [lra | apply IH].
Qed.

(** The logarithm turns the elementwise product into the elementwise sum. *)
Lemma vadd_vln u v :
  positive u → positive v →
  vadd (vln u) (vln v) = vln (vmul u v) ∧ positive (vmul u v).
Proof.
  intros Hu. revert v. induction Hu as [|x u Hx _ IH]; intros v Hv.
  - split; [done | constructor].
  - destruct Hv as [|y v Hy Hv]; [split; [done | constructor]|].
    destruct (IH v Hv) as [IH1 IH2]. split.
    + unfold vln in *. cbn [vadd vmul zip_with fmap list_fmap] in *.
      rewrite ln_mult by done. f_equal. exact IH1.
    + cbn [vmul zip_with]. constructor; [by apply Rmult_lt_0_compat | done].
Qed.

Lemma vln_ones k : vln (replicate k 1) = replicate k 0.
Proof.
  unfold vln. induction k as [|k IH]; [done|].
  cbn [replicate fmap list_fmap] in *. by rewrite ln_1, IH.
Qed.

(** Summing logarithms along the pixels is the logarithm of the product. *)
Lemma sum0_mln k a :
  Forall positive a →
  sum0 k (mln a) = vln (prod0 k a) ∧ positive (prod0 k a).
Proof.
  induction 1 as [|u a Hu _ [IH1 IH2]].
  - cbn. rewrite vln_ones. split; [done|].
    apply Forall_replicate. cbn beta. lra.
  - unfold mln in *. cbn [sum0 prod0 foldr fmap list_fmap] in *.
    fold (sum0 k (vln <$> a)). fold (prod0 k a). rewrite IH1.
    by apply vadd_vln.
Qed.

(** One pixel row: on a binary pixel the two logarithm terms select
    [ln px] or [ln (1 - px)], as the two probability terms select [px] or
    [1 - px]. *)
Lemma pixel_row_log (row : vec) (d : R) :
  Forall (λ p, 0 < p < 1) row → d = 0 ∨ d = 1 →
  vadd ((λ x, x * d) <$> vln row) ((λ x, x * (1 - d)) <$> vln (vcompl row)) =
    vln (vadd ((λ x, x * d) <$> row) ((λ x, x * (1 - d)) <$> vcompl row)) ∧
  positive (vadd ((λ x, x * d) <$> row) ((λ x, x * (1 - d)) <$> vcompl row)).
Proof.
  intros Hrow Hd. induction Hrow as [|p row Hp _ [IH1 IH2]].
  - split; [done | constructor].
  - unfold vln, vcompl in *. cbn [vadd zip_with fmap list_fmap] in *. split.
    + f_equal; [|exact IH1].
      destruct Hd as [-> | ->].
      * replace (p * 0 + (1 - p) * (1 - 0)) with (1 - p) by lra. lra.
      * replace (p * 1 + (1 - p) * (1 - 1)) with p by lra. lra.
    + constructor; [|exact IH2]. cbn beta in Hp. destruct Hd as [-> | ->]; lra.
Qed.

Lemma pixel_probs_log (p : mat) (data : vec) :
  Forall (Forall (λ p, 0 < p < 1)) p → Forall (λ d, d = 0 ∨ d = 1) data →
  madd (bmul (mln p) data) (bmul (mln (mcompl p)) (vcompl data)) =
    mln (madd (bmul p data) (bmul (mcompl p) (vcompl data))) ∧
  Forall positive (madd (bmul p data) (bmul (mcompl p) (vcompl data))).
Proof.
  intros Hp. revert data. induction Hp as [|row p Hrow _ IH]; intros data Hdata.
  - split; [done | constructor].
  - destruct Hdata as [|d data Hd Hdata]; [split; [done | constructor]|].
    destruct (IH data Hdata) as [IH1 IH2].
    destruct (pixel_row_log row d Hrow Hd) as [Hr1 Hr2].
    unfold mln, mcompl, vcompl in *.
    cbn [madd bmul zip_with fmap list_fmap] in *. split.
    + f_equal; [exact Hr1 | exact IH1].
    + constructor; [exact Hr2 | exact IH2].
Qed.

(** [logpost] is the logarithm of the unnormalized product of cell 3. *)
Lemma logpost_is_log_of_product m data :
  Forall (Forall (λ p, 0 < p < 1)) (px m) → positive (py m) →
  Forall (λ d, d = 0 ∨ d = 1) data →
  logpost {| logpx := mln (px m); logpxneg := mln (mcompl (px m));
             logpy := vln (py m) |} data
    = vln (xprob_unnormalized m data) ∧
  positive (xprob_unnormalized m data).
Proof.
  intros Hpx Hpy Hdata.
  destruct (pixel_probs_log (px m) data Hpx Hdata) as [H1 H2].
  unfold logpost, xprob_unnormalized, pixel_probs. cbn [logpx logpxneg logpy].
  rewrite H1.
  destruct (sum0_mln ncls _ H2) as [H3 H4]. rewrite H3.
  rewrite vmul_comm. by apply vadd_vln.
Qed.

(** The column of class [y] of the per-pixel probabilities. *)
Lemma pixel_probs_column (p : mat) (data : vec) y :
  rows ncls p → (y < ncls)%nat →
  (λ row : vec, default 0 (row !! y)) <$> madd (bmul p data) (bmul (mcompl p) (vcompl data)) =
  zip_with (λ row x, default 0 (row !! y) * x + (1 - default 0 (row !! y)) * (1 - x)) p data.
Proof.
  intros Hp Hy. revert data. induction Hp as [|row p Hrow _ IH]; intros data; [done|].
  destruct data as [|d data]; [done|].
  unfold mcompl, vcompl in *. cbn [madd bmul zip_with fmap list_fmap] in *.
  f_equal; [|apply IH].
  cbn beta in Hrow. destruct (lookup_lt_is_Some_2 row y) as [a Ha]; [lia|].
  unfold vadd. rewrite lookup_zip_with, !list_lookup_fmap, Ha. reflexivity.
Qed.

Lemma prod0_lookup k (a : mat) y :
  rows k a → (y < k)%nat →
  prod0 k a !! y = Some (foldr Rmult 1 ((λ row : vec, default 0 (row !! y)) <$> a)).
Proof.
  intros Ha Hy. induction Ha as [|u a Hu _ IH]; [by apply lookup_replicate_2|].
  rewrite fmap_cons. cbn [prod0 foldr]. fold (prod0 k a).
  cbn beta in Hu. destruct (lookup_lt_is_Some_2 u y) as [x Hx]; [lia|].
  unfold vmul at 1. by rewrite lookup_zip_with, Hx, IH.
Qed.

(** Cell 3 computes the formula. *)
Lemma xprob_is_product_posterior m data :
  shape npix ncls (px m) → length (py m) = ncls →
  xprob m data = product_posterior m data.
Proof.
  intros [_ Hrows] Hpy. unfold xprob, product_posterior. f_equal.
  assert (Hr : rows ncls (pixel_probs m data)).
  { unfold pixel_probs. apply rows_madd; apply rows_bmul; [done|].
    by apply rows_mcompl. }
  apply list_eq. intros y. rewrite list_lookup_fmap.
  destruct (decide (y < ncls)%nat) as [Hy|Hy].
  - rewrite lookup_seq_lt by done. cbn [fmap option_fmap option_map Nat.add].
    destruct (lookup_lt_is_Some_2 (py m) y) as [q Hq]; [lia|].
    unfold xprob_unnormalized, vmul.
    rewrite lookup_zip_with, (prod0_lookup ncls _ y Hr Hy), Hq.
    cbn [mbind option_bind default from_option id].
    unfold pixel_probs. rewrite (pixel_probs_column (px m) data y Hrows Hy).
    unfold class_product. f_equal. apply Rmult_comm.
  - rewrite lookup_seq_ge by lia. cbn [fmap option_fmap option_map].
    apply lookup_ge_None. unfold xprob_unnormalized, vmul.
    rewrite length_zip_with, Hpy. lia.
Qed.

(** C2. The log-space computation is the direct product computation: in
    exact arithmetic, once the training loop has run and every entry of
    [px] lies strictly between 0 and 1, cell 4 goes through and for every
    binary image of 784 pixels [bayespost] returns the normalized product
    of cell 3, whose [y]-th entry is
    [py[y] * prod_i (px[i,y] * x[i] + (1 - px[i,y]) * (1 - x[i]))] divided
    by the sum of these products over the classes. *)
Theorem log_space_equals_direct_product train m data :
  fit train = Some m →
  Forall (Forall (λ p, 0 < p < 1)) (px m) →
  length data = npix → Forall (λ d, d = 0 ∨ d = 1) data →
  ∃ lm, logs m = Some lm ∧
    bayespost lm data = xprob m data ∧
    xprob m data = product_posterior m data.
Proof.
  intros Hfit Hpx _ Hdata.
  destruct (fit_shape train m Hfit) as (Hshape & Hlen & Hpy).
  eexists. split; [by apply logs_total|].
  split; [|by apply xprob_is_product_posterior].
  destruct (logpost_is_log_of_product m data Hpx Hpy Hdata) as [Hlog Hpos].
  unfold bayespost. cbv zeta. rewrite normalize_exp_shift, Hlog.
  by rewrite exp_vln.
Qed.

End LogSpace.

(** ** The error rate *)

Section ErrorRate.

Implicit Types (lm : logmodel) (s : sample) (test : list sample).

Lemma misclassified_cons lm s test :
  misclassified lm (s :: test) =
  if decide (true_posterior lm s < vmax (bayespost lm s.1))
  then s :: misclassified lm test else misclassified lm test.
Proof. unfold misclassified. by rewrite filter_cons. Qed.

Lemma true_posterior_lookup lm s p :
  bayespost lm s.1 !! s.2 = Some p → true_posterior lm s = p.
Proof. unfold true_posterior. by intros ->. Qed.

(** The loop counts the samples in [ctr] and the strict misses in [err]. *)
Lemma test_loop_spec lm test : ∀ ctr err,
  Forall (λ s, length s.1 = npix ∧ (s.2 < length (bayespost lm s.1))%nat) test →
  test_loop lm (ctr, err) test =
    Some ((ctr + length test)%nat, (err + length (misclassified lm test))%nat).
Proof.
  induction test as [|s test IH]; intros ctr err Hwf.
  - cbn. do 2 f_equal; lia.
  - apply Forall_cons in Hwf as [[Hlen Hy] Hwf].
    apply lookup_lt_is_Some_2 in Hy as [p Hp].
    cbn [test_loop]. unfold test_step.
    rewrite bool_decide_eq_true_2 by done. cbv zeta. rewrite Hp. cbn [mbind option_bind].
    rewrite IH by done. rewrite misclassified_cons.
    rewrite (true_posterior_lookup lm s p Hp).
    destruct (decide (p < vmax (bayespost lm s.1))); cbn [length]; do 2 f_equal; lia.
Qed.

(** On the empty test set [err/ctr] divides by zero. *)
Example error_rate_empty lm : error_rate lm [] = None.
Proof. reflexivity. Qed.

(** C3. The error rate is computed correctly on the held-out test set: after
    cells 1 and 4, on every test set of 784-pixel images with labels among
    the ten digits, [err/ctr] is the number of test samples whose
    true-label posterior [bayespost(x)[y]] is strictly below the largest
    entry of [bayespost(x)], divided by the number of test samples (on the
    empty test set the division raises and nothing is printed).  A sample
    whose true-label posterior ties the maximum is not counted. *)
Theorem error_rate_counts_strict_misses train m lm test :
  fit train = Some m → logs m = Some lm → Forall wf_sample test →
  error_rate lm test =
    match test with
    | [] => None
    | _ :: _ => Some (INR (length (misclassified lm test)) / INR (length test))
    end ∧
  (∀ s, s ∈ test → true_posterior lm s = vmax (bayespost lm s.1) →
        s ∉ misclassified lm test).
Proof.
  intros Hfit Hlogs Hwf. split.
  - unfold error_rate. rewrite (test_loop_spec lm test 0 0).
    + cbn [mbind option_bind fst snd]. destruct test as [|s test]; [done|].
      rewrite decide_False by (cbn [length]; lia). done.
    + eapply Forall_impl; [exact Hwf|]. intros s [Hlen Hy].
      split; [done|].
      by rewrite length_bayespost, (length_logpost train m lm s.1 Hfit Hlogs).
  - intros s _ Htie Hin. unfold misclassified in Hin.
    apply list_elem_of_filter in Hin as [Hlt _]. lra.
Qed.

End ErrorRate.

(** ** The ten dark images: every cell runs *)

Section TenImages.

Lemma dark_raw_binary y : binary (transform (dark_raw y)).
Proof. apply transform_binary. cbn [dark_raw fst]. apply Forall_replicate. lia. Qed.

Lemma dark_raw_wf y : (y < ncls)%nat → wf_sample (transform (dark_raw y)).
Proof. intros Hy. apply transform_wf; cbn [dark_raw fst snd]; [apply length_replicate | done]. Qed.

Lemma ten_images_wf : Forall wf_sample ten_images.
Proof.
  unfold ten_images. rewrite Forall_fmap. apply Forall_seq.
  intros y Hy. unfold compose. apply dark_raw_wf. lia.
Qed.

Lemma ten_images_binary : Forall binary ten_images.
Proof.
  unfold ten_images. rewrite Forall_fmap. apply Forall_true.
  intros y. apply dark_raw_binary.
Qed.

Lemma length_dark : length dark = npix.
Proof. apply (dark_raw_wf 0). unfold ncls. lia. Qed.

Lemma dark_binary : Forall (λ d, d = 0 ∨ d = 1) dark.
Proof. apply (dark_raw_binary 0). Qed.

Lemma pixel_dark i y : pixel i (transform (dark_raw y)) = 0.
Proof.
  unfold pixel, transform, dark_raw. cbn [fst]. rewrite list_lookup_fmap.
  destruct (replicate npix 5%Z !! i) as [p|] eqn:Hp; [|done].
  apply lookup_replicate_1 in Hp as [-> _]. reflexivity.
Qed.

Lemma ten_images_n_iy i y : n_iy ten_images i y = 0.
Proof.
  unfold n_iy, of_class, ten_images.
  induction (seq 0 ncls) as [|z l IH]; [done|].
  rewrite fmap_cons, filter_cons. destruct (decide _); [|done].
  rewrite fmap_cons, vsum_cons, IH, pixel_dark. lra.
Qed.

Lemma ten_images_n_y y : (y < ncls)%nat → 1 <= n_y ten_images y.
Proof.
  intros Hy. unfold n_y.
  assert (Hin : transform (dark_raw y) ∈ of_class y ten_images).
  { unfold of_class. apply list_elem_of_filter. split; [done|].
    unfold ten_images. apply list_elem_of_fmap. exists y. split; [done|].
    apply elem_of_seq. lia. }
  destruct (of_class y ten_images) as [|s l]; [by apply elem_of_nil in Hin|].
  change 1 with (INR 1). apply le_INR. cbn [length]. lia.
Qed.

(** On the ten images every cell of the notebook runs: the estimates lie
    strictly between 0 and 1 and all logarithms are finite. *)
Lemma ten_images_state :
  ∃ m lm, fit ten_images = Some m ∧
    Forall (Forall (λ p, 0 < p < 1)) (px m) ∧ logs m = Some lm.
Proof.
  destruct (fit_spec ten_images ten_images_wf)
    as (c & _ & Hfit & Hshape & _ & _ & Hx).
  destruct (estimate_shape c Hshape) as [[Hl Hr] _].
  assert (Hpx : Forall (Forall (λ p, 0 < p < 1)) (px (estimate c))).
  { apply Forall_lookup_2. intros i row Hrow.
    assert (Hi : (i < npix)%nat) by (rewrite <- Hl; by eapply lookup_lt_Some).
    assert (Hk : length row = ncls) by (eapply Forall_lookup_1 in Hr; eauto).
    apply Forall_lookup_2. intros y p Hp.
    assert (Hy : (y < ncls)%nat) by (rewrite <- Hk; by eapply lookup_lt_Some).
    destruct (Hx i y Hi Hy) as [_ Hm]. unfold mget in Hm.
    rewrite Hrow in Hm. cbn [mbind option_bind] in Hm.
    rewrite Hp in Hm. injection Hm as ->. cbn beta.
    rewrite ten_images_n_iy. pose proof (ten_images_n_y y Hy).
    split; [apply Rdiv_lt_0_compat; lra|].
    apply Rmult_lt_reg_r with (1 + n_y ten_images y); [lra|].
    unfold Rdiv. rewrite Rmult_assoc, Rinv_l by lra. lra. }
  exists (estimate c). eexists. split; [done|]. split; [done|].
  apply logs_total; [done|].
  by destruct (fit_shape ten_images _ Hfit) as (_ & _ & ?).
Qed.

(** On the ten images, the posterior of a dark image both ways. *)
Lemma log_space_witness :
  ∃ m, fit ten_images = Some m ∧
    ∃ lm, logs m = Some lm ∧
      bayespost lm dark = xprob m dark ∧
      xprob m dark = product_posterior m dark.
Proof.
  destruct ten_images_state as (m & _ & Hfit & Hpx & _).
  exists m. split; [exact Hfit|].
  exact (log_space_equals_direct_product ten_images m dark
           Hfit Hpx length_dark dark_binary).
Defined.

(** The error rate of the ten images on themselves. *)
Lemma error_rate_witness :
  ∃ m lm, fit ten_images = Some m ∧ logs m = Some lm ∧
    error_rate lm ten_images =
      Some (INR (length (misclassified lm ten_images)) / INR (length ten_images)) ∧
    (∀ s, s ∈ ten_images → true_posterior lm s = vmax (bayespost lm s.1) →
          s ∉ misclassified lm ten_images).
Proof.
  destruct ten_images_state as (m & lm & Hfit & _ & Hlogs).
  exists m, lm. split; [exact Hfit|]. split; [exact Hlogs|].
  exact (error_rate_counts_strict_misses ten_images m lm ten_images
           Hfit Hlogs ten_images_wf).
Defined.


End TenImages.

(** ** Beyond the claims: the cells of the naive Bayes notebook *)

Section Transform.

(** [transform] thresholds at 128: a [uint8] pixel becomes 1 from 128 on and
    0 below, the label and the number of pixels are kept. *)
Theorem transform_thresholds_at_128 (raw : list Z * nat) i p :
  raw.1 !! i = Some p → (0 ≤ p ≤ 255)%Z →
  (transform raw).1 !! i = Some (if decide (128 ≤ p)%Z then 1 else 0) ∧
  (transform raw).2 = raw.2 ∧ length (transform raw).1 = length raw.1.
Proof.
  intros Hp Hr. unfold transform. cbn [fst snd].
  rewrite list_lookup_fmap, Hp, length_fmap. cbn [fmap option_fmap option_map].
  split; [|done]. f_equal. destruct (decide (128 ≤ p)%Z).
  - replace (p / 128)%Z with 1%Z; [done|].
    apply Z.div_unique with (r := (p - 128)%Z); lia.
  - replace (p / 128)%Z with 0%Z; [done|].
    symmetry. apply Z.div_small. lia.
Qed.

(** Pixel 128 of a four-pixel image. *)
Lemma transform_thresholds_witness :
  (transform ([0; 127; 128; 255]%Z, 4%nat)).1 !! 2%nat =
    Some (if decide (128 ≤ 128)%Z then 1 else 0) ∧
  (transform ([0; 127; 128; 255]%Z, 4%nat)).2 = 4%nat ∧
  length (transform ([0; 127; 128; 255]%Z, 4%nat)).1 = 4%nat.
Proof.
  apply (transform_thresholds_at_128 ([0; 127; 128; 255]%Z, 4%nat) 2 128%Z);
    [reflexivity | lia].
Defined.

End Transform.

Section TrainingMore.

Implicit Types (c : counters) (s : sample) (train : list sample).

Lemma vsum_alter (v : vec) y d :
  (y < length v)%nat → vsum (alter (λ n, n + d) y v) = vsum v + d.
Proof.
  revert y. induction v as [|a v IH]; intros y Hy; [cbn in Hy; lia|].
  destruct y as [|y]; cbn [alter list_alter].
  - rewrite !vsum_cons. lra.
  - rewrite !vsum_cons, (IH y) by (cbn in Hy; lia). lra.
Qed.

Lemma vsum_ones k : vsum (replicate k 1) = INR k.
Proof.
  induction k as [|k IH]; [done|].
  cbn [replicate]. rewrite vsum_cons, IH, S_INR. lra.
Qed.

(** Every sample adds one to the sum of [ycount]. *)
Lemma vsum_ycount train : ∀ c c',
  counters_shape c → train_loop c train = Some c' →
  vsum (ycount c') = vsum (ycount c) + INR (length train).
Proof.
  induction train as [|[data y0] train IH]; intros c c' Hc Hloop.
  - injection Hloop as <-. cbn. lra.
  - cbn [train_loop] in Hloop.
    destruct (train_step c (data, y0)) as [c1|] eqn:Hstep; [|done].
    cbn [mbind option_bind] in Hloop.
    pose proof (train_step_Some_wf _ _ _ Hstep) as Hwf.
    destruct (train_step_spec c data y0 Hwf Hc) as (c1' & Hstep' & Hc1 & _).
    rewrite Hstep in Hstep'. injection Hstep' as <-.
    rewrite (IH c1 c' Hc1 Hloop).
    unfold train_step in Hstep. destruct Hwf as [Hl Hy]. cbn [fst snd] in Hl, Hy.
    rewrite !bool_decide_eq_true_2 in Hstep by done. injection Hstep as <-.
    cbn [ycount]. rewrite vsum_alter by (destruct Hc as [-> _]; done).
    change (length ((data, y0) :: train)) with (S (length train)).
    rewrite S_INR. lra.
Qed.

(** The prior [py] is a probability distribution, the smoothed frequency of
    each digit: [py[y] = (1 + n_y) / (10 + n)] on [n] training samples, all
    entries positive, summing to 1. *)
Theorem prior_is_smoothed_frequency train m :
  fit train = Some m →
  Forall (λ p, 0 < p) (py m) ∧ vsum (py m) = 1 ∧
  ∀ y, (y < ncls)%nat →
    py m !! y = Some ((1 + n_y train y) / (INR ncls + INR (length train))).
Proof.
  intros Hfit. pose proof (fit_Some_wf train m Hfit) as Hwf.
  destruct (fit_shape train m Hfit) as (_ & _ & Hpos).
  destruct (fit_spec train Hwf) as (c & Hloop & Hfit' & _ & Hsum & Hy & _).
  rewrite Hfit in Hfit'. injection Hfit' as ->.
  pose proof (vsum_ycount train _ _ init_counters_shape Hloop) as Hn.
  change (ycount init_counters) with (replicate ncls 1) in Hn.
  rewrite vsum_ones in Hn.
  split; [done|]. split.
  - unfold estimate. cbn [py]. rewrite vsum_scale. field. lra.
  - intros y Hlt. destruct (Hy y Hlt) as [_ ->]. by rewrite Hn.
Qed.

(** The prior on the two images: twelve in the denominator. *)
Lemma prior_witness :
  ∃ m, fit two_images = Some m ∧
    Forall (λ p, 0 < p) (py m) ∧ vsum (py m) = 1 ∧
    ∀ y, (y < ncls)%nat →
      py m !! y = Some ((1 + n_y two_images y) / (INR ncls + INR (length two_images))).
Proof.
  destruct (fit_spec two_images two_images_wf) as (c & _ & Hfit & _).
  exists (estimate c). split; [exact Hfit|].
  exact (prior_is_smoothed_frequency two_images (estimate c) Hfit).
Defined.

End TrainingMore.

Section TrainingOrder.

Implicit Types (c : counters) (s : sample) (train : list sample).

Lemma vsum_Permutation (u v : vec) : u ≡ₚ v → vsum u = vsum v.
Proof.
  induction 1 as [|a u v _ IH|a b u|u v w _ IH1 _ IH2];
    rewrite ?vsum_cons; try lra; congruence.
Qed.

Lemma n_y_Permutation train train' y :
  train ≡ₚ train' → n_y train y = n_y train' y.
Proof. intros H. unfold n_y, of_class. by rewrite H. Qed.

Lemma n_iy_Permutation train train' i y :
  train ≡ₚ train' → n_iy train i y = n_iy train' i y.
Proof.
  intros H. unfold n_iy, of_class. apply vsum_Permutation. by rewrite H.
Qed.

(** Two matrices of one shape with the same entries are the same matrix. *)
Lemma mat_eq n k (a b : mat) :
  shape n k a → shape n k b →
  (∀ i y, (i < n)%nat → (y < k)%nat → mget a i y = mget b i y) → a = b.
Proof.
  intros [Ha Hra] [Hb Hrb] Heq.
  apply (list_eq_same_length _ _ n); [done..|].
  intros i row row' Hi Hrow Hrow'.
  pose proof (Forall_lookup_1 _ _ _ _ Hra Hrow) as Hl. cbn beta in Hl.
  pose proof (Forall_lookup_1 _ _ _ _ Hrb Hrow') as Hl'. cbn beta in Hl'.
  apply (list_eq_same_length _ _ k); [done..|].
  intros y x x' Hy Hx Hx'. specialize (Heq i y Hi Hy). unfold mget in Heq.
  rewrite Hrow, Hrow' in Heq. cbn [mbind option_bind] in Heq. congruence.
Qed.

(** The estimates do not depend on the order of the training samples. *)
Theorem training_is_order_independent train train' :
  train ≡ₚ train' → fit train = fit train'.
Proof.
  intros Hperm.
  assert (Hwf : Forall wf_sample train ↔ Forall wf_sample train') by by rewrite Hperm.
  destruct (fit train) as [m|] eqn:Hm, (fit train') as [m'|] eqn:Hm'.
  - pose proof (fit_Some_wf _ _ Hm) as H1. pose proof (fit_Some_wf _ _ Hm') as H2.
    destruct (fit_spec train H1) as (c & _ & Hf & [Hyl Hxs] & _ & Hy & Hx).
    destruct (fit_spec train' H2) as (c' & _ & Hf' & [Hyl' Hxs'] & _ & Hy' & Hx').
    assert (Hc : c = c').
    { destruct c as [xc yc], c' as [xc' yc']. cbn [xcount ycount] in *. f_equal.
      - apply (mat_eq npix ncls); [done..|]. intros i y Hi Hlt.
        destruct (Hx i y Hi Hlt) as [-> _]. destruct (Hx' i y Hi Hlt) as [-> _].
        by rewrite (n_iy_Permutation _ _ i y Hperm).
      - apply (list_eq_same_length _ _ ncls); [done..|].
        intros y a a' Hlt Ha Ha'.
        destruct (Hy y Hlt) as [Hv _]. destruct (Hy' y Hlt) as [Hv' _].
        rewrite (n_y_Permutation _ _ y Hperm) in Hv. congruence. }
    congruence.
  - pose proof (fit_Some_wf _ _ Hm) as H1. apply Hwf in H1.
    destruct (fit_spec train' H1) as (c' & _ & Hf' & _). congruence.
  - pose proof (fit_Some_wf _ _ Hm') as H1. apply Hwf in H1.
    destruct (fit_spec train H1) as (c & _ & Hf & _). congruence.
  - done.
Qed.

(** The two images in either order. *)
Lemma training_order_witness : fit two_images = fit (reverse two_images).
Proof.
  apply (training_is_order_independent two_images (reverse two_images)).
  symmetry. apply reverse_Permutation.
Defined.

(** A digit without a training sample gets [px = 1] in every pixel, so
    [nd.log(1-px)] is [-inf] in its column and cell 4 does not produce finite
    logarithms. *)
Theorem absent_class_has_no_finite_logs train m y :
  fit train = Some m → (y < ncls)%nat → of_class y train = [] →
  (∀ i, (i < npix)%nat → mget (px m) i y = Some 1) ∧ logs m = None.
Proof.
  intros Hfit Hy Hnone. pose proof (fit_Some_wf _ _ Hfit) as Hwf.
  destruct (fit_spec train Hwf) as (c & _ & Hfit' & _ & _ & _ & Hx).
  rewrite Hfit in Hfit'. injection Hfit' as ->.
  assert (Hone : ∀ i, (i < npix)%nat → mget (px (estimate c)) i y = Some 1).
  { intros i Hi. destruct (Hx i y Hi Hy) as [_ ->].
    unfold n_iy, n_y. rewrite Hnone. cbn. f_equal. field. }
  split; [done|].
  destruct (logs (estimate c)) as [lm|] eqn:Hlogs; [|done]. exfalso.
  destruct (logs_Some _ _ Hlogs) as (_ & _ & _ & _ & Hneg & _).
  assert (H0 : (0 < npix)%nat) by (unfold npix; lia).
  specialize (Hone 0%nat H0). unfold mget in Hone.
  destruct (px (estimate c) !! 0%nat) as [row|] eqn:Hrow; [|done].
  cbn [mbind option_bind] in Hone.
  assert (Hrow' : mcompl (px (estimate c)) !! 0%nat = Some (vcompl row)).
  { unfold mcompl. by rewrite list_lookup_fmap, Hrow. }
  pose proof (Forall_lookup_1 _ _ _ _ Hneg Hrow') as Hpos.
  assert (Hent : vcompl row !! y = Some (1 - 1)).
  { unfold vcompl. by rewrite list_lookup_fmap, Hone. }
  pose proof (Forall_lookup_1 _ _ _ _ Hpos Hent) as Hlt. cbn beta in Hlt. lra.
Qed.

(** No image of the two has label 0. *)
Lemma absent_class_witness :
  ∃ m, fit two_images = Some m ∧
    (∀ i, (i < npix)%nat → mget (px m) i 0 = Some 1) ∧ logs m = None.
Proof.
  destruct (fit_spec two_images two_images_wf) as (c & _ & Hfit & _).
  exists (estimate c). split; [exact Hfit|].
  apply (absent_class_has_no_finite_logs two_images (estimate c) 0 Hfit).
  - unfold ncls. lia.
  - rewrite two_images_of_class. reflexivity.
Defined.

End TrainingOrder.

Section HeatMaps.

Implicit Types (c : counters) (train : list sample).

(** A column of a matrix holds the entries of that column. *)
Lemma column_spec k (a : mat) i :
  rows k a → (i < k)%nat →
  ∃ col, column i a = Some col ∧ length col = length a ∧
         ∀ j, col !! j = mget a j i.
Proof.
  intros Ha Hi. induction Ha as [|row a Hrow _ (col & Hcol & Hlen & Hget)].
  - exists []. split; [done|]. split; [done|]. by intros [|j].
  - cbn beta in Hrow. destruct (lookup_lt_is_Some_2 row i) as [x Hx]; [lia|].
    exists (x :: col). split; [|split].
    + unfold column in *. cbn [mapM]. rewrite Hx. cbn [mbind option_bind].
      rewrite Hcol. done.
    + cbn [length]. by rewrite Hlen.
    + intros [|j]; [unfold mget; cbn; by rewrite Hx | apply Hget].
Qed.

(** Row-major reshaping: entry [[r, k]] of the image is entry [28 r + k] of
    the vector. *)
Lemma reshape2_spec (v : vec) :
  length v = npix →
  ∃ img, reshape2 28 28 v = Some img ∧ length img = 28%nat ∧
    ∀ r k, (r < 28)%nat → (k < 28)%nat → mget img r k = v !! (28 * r + k)%nat.
Proof.
  intros Hv. unfold npix in Hv. eexists. split; [|split].
  - unfold reshape2. rewrite bool_decide_eq_true_2; [done|]. rewrite Hv. done.
  - by rewrite length_reshape, length_replicate.
  - intros r k Hr Hk. unfold mget.
    rewrite (sublist_lookup_reshape v r 28 28) by (rewrite ?Hv; lia).
    rewrite sublist_lookup_Some by (rewrite Hv; lia).
    cbn [mbind option_bind]. rewrite lookup_take_lt, lookup_drop by done.
    f_equal. lia.
Qed.

Lemma mapM_seq (A : Type) (f : nat → option A) n :
  (∀ i, (i < n)%nat → is_Some (f i)) →
  ∃ l, mapM f (seq 0 n) = Some l ∧ length l = n ∧
       ∀ i, (i < n)%nat → l !! i = f i.
Proof.
  intros Hf.
  assert (Hs : is_Some (mapM f (seq 0 n))).
  { apply mapM_is_Some. apply Forall_seq. intros i Hi. apply Hf. lia. }
  destruct Hs as [l Hl]. exists l. split; [done|].
  pose proof (length_mapM _ _ _ Hl) as Hlen. rewrite length_seq in Hlen.
  split; [done|]. intros i Hi. apply mapM_Some_1 in Hl.
  destruct (Hf i Hi) as [x Hx]. rewrite Hx.
  destruct (lookup_lt_is_Some_2 l i) as [x' Hx']; [lia|].
  assert (Hseq : seq 0 n !! i = Some i) by (by apply lookup_seq_lt).
  pose proof (Forall2_lookup_lr _ _ _ _ _ _ Hl Hseq Hx') as Hfi. congruence.
Qed.

(** Cell 2 in exact arithmetic: the ten images hold the counters. *)
Lemma heat_maps_exact train :
  Forall wf_sample train →
  ∃ c imgs, train_loop init_counters train = Some c ∧
    heat_maps c = Some imgs ∧ length imgs = 10%nat ∧
    ∀ i r k, (i < 10)%nat → (r < 28)%nat → (k < 28)%nat →
      ∃ img, imgs !! i = Some img ∧ length img = 28%nat ∧
        mget img r k = Some (1 + n_iy train (28 * r + k) i).
Proof.
  intros Hwf.
  destruct (fit_spec train Hwf) as (c & Hloop & _ & [_ [Hlen Hrows]] & _ & _ & Hx).
  assert (Hcol : ∀ i, (i < 10)%nat →
            ∃ img, column i (xcount c) ≫= reshape2 28 28 = Some img ∧
              length img = 28%nat ∧
              ∀ r k, (r < 28)%nat → (k < 28)%nat →
                mget img r k = Some (1 + n_iy train (28 * r + k) i)).
  { intros i Hi.
    destruct (column_spec ncls (xcount c) i Hrows Hi) as (col & Hc & Hl & Hget).
    destruct (reshape2_spec col) as (img & Himg & Hl' & Hent); [congruence|].
    exists img. rewrite Hc. cbn [mbind option_bind]. split; [done|]. split; [done|].
    intros r k Hr Hk. rewrite (Hent r k Hr Hk), Hget.
    apply Hx; [unfold npix; lia | done]. }
  destruct (mapM_seq _ (λ i, column i (xcount c) ≫= reshape2 28 28) 10)
    as (imgs & Hmaps & Hn & Hlook).
  { intros i Hi. destruct (Hcol i Hi) as (img & -> & _). by eexists. }
  exists c, imgs. split; [done|]. split; [done|]. split; [done|].
  intros i r k Hi Hr Hk. destruct (Hcol i Hi) as (img & Himg & Hl & Hent).
  exists img. rewrite (Hlook i Hi), Himg. auto.
Qed.

End HeatMaps.

Section Posterior.

Implicit Types (v : vec) (m : model) (lm : logmodel).

Lemma length_prod0 k (a : mat) : rows k a → length (prod0 k a) = k.
Proof.
  induction 1 as [|u a Hu _ IH]; [apply length_replicate|].
  cbn [prod0 foldr]. unfold vmul at 1. rewrite length_zip_with.
  fold (prod0 k a). cbn beta in Hu. lia.
Qed.

Lemma pixel_row_positive (row : vec) (d : R) :
  Forall (λ p, 0 < p < 1) row → 0 <= d <= 1 →
  positive (vadd ((λ x, x * d) <$> row) ((λ x, x * (1 - d)) <$> vcompl row)).
Proof.
  intros Hrow Hd. induction Hrow as [|p row Hp _ IH]; [constructor|].
  unfold vcompl in *. cbn [vadd zip_with fmap list_fmap] in *.
  constructor; [|exact IH]. cbn beta in Hp.
  destruct (Rle_dec d (1 / 2)); nra.
Qed.

Lemma pixel_probs_positive (p : mat) (data : vec) :
  Forall (Forall (λ p, 0 < p < 1)) p → Forall (λ d, 0 <= d <= 1) data →
  Forall positive (madd (bmul p data) (bmul (mcompl p) (vcompl data))).
Proof.
  intros Hp. revert data. induction Hp as [|row p Hrow _ IH]; intros data Hdata;
    [constructor|].
  destruct Hdata as [|d data Hd Hdata]; [constructor|].
  unfold mcompl, vcompl in *. cbn [madd bmul zip_with fmap list_fmap] in *.
  constructor; [by apply pixel_row_positive | by apply IH].
Qed.

Lemma vmul_positive (u v : vec) : positive u → positive v → positive (vmul u v).
Proof. intros Hu Hv. by destruct (vadd_vln u v Hu Hv). Qed.

(** In exact arithmetic the direct product of cell 3 is a probability
    distribution: with [px] strictly between 0 and 1, for an image with
    pixel values in [[0,1]] its entries are nonnegative and sum to 1. *)
Theorem xprob_is_distribution train m data :
  fit train = Some m → Forall (Forall (λ p, 0 < p < 1)) (px m) →
  length data = npix → Forall (λ d, 0 <= d <= 1) data →
  Forall (λ p, 0 <= p) (xprob m data) ∧ vsum (xprob m data) = 1.
Proof.
  intros Hfit Hpx _ Hdata.
  destruct (fit_shape train m Hfit) as ([_ Hrows] & Hlen & Hpy).
  pose proof (pixel_probs_positive (px m) data Hpx Hdata) as Hpos.
  destruct (sum0_mln ncls _ Hpos) as [_ Hprod].
  unfold xprob. apply normalize_distribution.
  - unfold xprob_unnormalized. by apply vmul_positive.
  - intros Hnil. apply (f_equal length) in Hnil.
    unfold xprob_unnormalized, vmul in Hnil.
    rewrite length_zip_with, Hlen, length_prod0 in Hnil; [by cbv in Hnil|].
    unfold pixel_probs. apply rows_madd; apply rows_bmul; [done|].
    by apply rows_mcompl.
Qed.

(** The direct product for a dark image after the ten images. *)
Lemma xprob_distribution_witness :
  ∃ m, fit ten_images = Some m ∧
    Forall (λ p, 0 <= p) (xprob m dark) ∧ vsum (xprob m dark) = 1.
Proof.
  destruct ten_images_state as (m & _ & Hfit & Hpx & _).
  exists m. split; [exact Hfit|].
  exact (xprob_is_distribution ten_images m dark Hfit Hpx length_dark
           (binary_unit_range (dark, 0%nat) dark_binary)).
Defined.

(** The entries of [bayespost]. *)
Lemma bayespost_fmap lm data :
  bayespost lm data =
  (λ a, exp (a - vmax (logpost lm data)) / softmax_denominator lm data)
    <$> logpost lm data.
Proof.
  unfold bayespost, normalize, softmax_denominator. cbv zeta.
  rewrite <- !list_fmap_compose. done.
Qed.

Lemma softmax_denominator_pos lm data :
  logpost lm data ≠ [] → 0 < softmax_denominator lm data.
Proof.
  intros Hne. unfold softmax_denominator. apply vsum_exp_pos.
  intros Hnil. apply fmap_nil_inv in Hnil. done.
Qed.

(** In exact arithmetic [bayespost] keeps the order of the log-posteriors:
    a class has a smaller posterior than another exactly when it has a
    smaller log-posterior, and an equal one exactly when the log-posteriors
    are equal.  (In [float32] the exponentials far below the largest are
    zero, and the order is kept only weakly.) *)
Theorem bayespost_preserves_order lm data y1 y2 a b :
  logpost lm data !! y1 = Some a → logpost lm data !! y2 = Some b →
  ∃ p q, bayespost lm data !! y1 = Some p ∧ bayespost lm data !! y2 = Some q ∧
    (p < q ↔ a < b) ∧ (p = q ↔ a = b).
Proof.
  intros Ha Hb. rewrite bayespost_fmap, !list_lookup_fmap, Ha, Hb.
  cbn [fmap option_fmap option_map]. eexists _, _. split; [done|]. split; [done|].
  assert (HD : 0 < softmax_denominator lm data).
  { apply softmax_denominator_pos. intros Hnil. by rewrite Hnil in Ha. }
  set (M := vmax (logpost lm data)). set (D := softmax_denominator lm data) in *.
  assert (Hinv : 0 < / D) by by apply Rinv_0_lt_compat.
  unfold Rdiv. split; split.
  - intros Hlt. apply Rmult_lt_reg_r in Hlt; [|done].
    apply exp_lt_inv in Hlt. lra.
  - intros Hlt. apply Rmult_lt_compat_r; [done|]. apply exp_increasing. lra.
  - intros Heq. apply Rmult_eq_reg_r in Heq; [|lra].
    apply exp_inv in Heq. lra.
  - by intros ->.
Qed.

(** Two classes after the ten images. *)
Lemma bayespost_order_witness :
  ∃ lm a b p q,
    logpost lm dark !! 0%nat = Some a ∧ logpost lm dark !! 1%nat = Some b ∧
    bayespost lm dark !! 0%nat = Some p ∧ bayespost lm dark !! 1%nat = Some q ∧
    (p < q ↔ a < b) ∧ (p = q ↔ a = b).
Proof.
  destruct ten_images_state as (m & lm & Hfit & _ & Hlogs).
  pose proof (length_logpost ten_images m lm dark Hfit Hlogs) as Hlen.
  destruct (lookup_lt_is_Some_2 (logpost lm dark) 0) as [a Ha];
    [rewrite Hlen; unfold ncls; lia|].
  destruct (lookup_lt_is_Some_2 (logpost lm dark) 1) as [b Hb];
    [rewrite Hlen; unfold ncls; lia|].
  destruct (bayespost_preserves_order lm dark 0 1 a b Ha Hb) as (p & q & H).
  exists lm, a, b, p, q. tauto.
Defined.

(** Adding a constant to every log-prior shifts [logpost] by it. *)
Lemma logpost_shift_prior lm data c :
  logpost {| logpx := logpx lm; logpxneg := logpxneg lm;
             logpy := (λ a, a + c) <$> logpy lm |} data =
  (λ a, a + c) <$> logpost lm data.
Proof.
  unfold logpost. cbn [logpx logpxneg logpy].
  generalize (sum0 ncls (madd (bmul (logpx lm) data)
                           (bmul (logpxneg lm) (vcompl data)))).
  intros v. generalize (logpy lm). intros u. revert v.
  induction u as [|a u IH]; intros [|b v]; try done.
  cbn [vadd zip_with fmap list_fmap]. f_equal; [lra | apply IH].
Qed.


End Posterior.

Section Stabilization.

Implicit Types (v : vec) (lm : logmodel).

Lemma foldl_Rmax_ge a t :
  a <= foldl Rmax a t ∧ Forall (λ x, x <= foldl Rmax a t) t.
Proof.
  revert a. induction t as [|b t IH]; intros a; [split; [cbn; lra | constructor]|].
  cbn [foldl]. destruct (IH (Rmax a b)) as [H1 H2].
  pose proof (Rmax_l a b). pose proof (Rmax_r a b).
  split; [lra|]. constructor; [lra | done].
Qed.

Lemma foldl_Rmax_elem a t : foldl Rmax a t ∈ a :: t.
Proof.
  revert a. induction t as [|b t IH]; intros a; [cbn; by left|].
  cbn [foldl]. specialize (IH (Rmax a b)).
  apply elem_of_cons in IH as [-> | IH].
  - unfold Rmax. destruct (Rle_dec a b); [right; by left | by left].
  - right. by right.
Qed.

(** [nd.max] of a non-empty vector is one of its entries, and none is
    larger. *)
Lemma vmax_elem v : v ≠ [] → vmax v ∈ v.
Proof. destruct v as [|a t]; [done|]. intros _. apply foldl_Rmax_elem. Qed.

Lemma vmax_ub v x : x ∈ v → x <= vmax v.
Proof.
  destruct v as [|a t]; [by intros ?%elem_of_nil|].
  destruct (foldl_Rmax_ge a t) as [Ha Ht]. cbn [vmax].
  intros [-> | Hx]%elem_of_cons; [done|].
  rewrite Forall_forall in Ht. by apply Ht.
Qed.

Lemma vmax_fmap_mono (f : R → R) v :
  (∀ a b, a <= b → f a <= f b) → v ≠ [] → vmax (f <$> v) = f (vmax v).
Proof.
  intros Hf Hv. destruct v as [|a t]; [done|]. clear Hv.
  rewrite fmap_cons. cbn [vmax]. revert a.
  induction t as [|b t IH]; intros a; [done|].
  rewrite fmap_cons. cbn [foldl]. rewrite <- IH. f_equal.
  unfold Rmax. destruct (Rle_dec a b) as [Hab|Hab], (Rle_dec (f a) (f b)) as [Hfab|Hfab];
    try done.
  - exfalso. apply Hfab. by apply Hf.
  - assert (f b <= f a) by (apply Hf; lra). lra.
Qed.

Lemma vsum_ge_elem v x : Forall (λ e, 0 <= e) v → x ∈ v → x <= vsum v.
Proof.
  induction 1 as [|e v He Hv IH]; [by intros ?%elem_of_nil|].
  rewrite vsum_cons. intros [-> | Hx]%elem_of_cons.
  - assert (0 <= vsum v); [|lra].
    clear IH. induction Hv as [|e' v He' _ IH']; [cbn; lra|].
    rewrite vsum_cons. lra.
  - specialize (IH Hx). lra.
Qed.

Lemma vsum_le_length v : Forall (λ e, e <= 1) v → vsum v <= INR (length v).
Proof.
  induction 1 as [|e v He _ IH]; [cbn; lra|].
  rewrite vsum_cons. change (length (e :: v)) with (S (length v)).
  rewrite S_INR. lra.
Qed.

(** In exact arithmetic, subtracting the largest log-posterior keeps the
    softmax in range: every exponential lies in [(0, 1]] and the largest is
    1, so the denominator [np.sum(post)] lies between 1 and 10; the largest
    entry of the returned posterior is its inverse, at least [1/10]. *)
Theorem subtracting_the_maximum_bounds_the_sum train m lm data :
  fit train = Some m → logs m = Some lm →
  Forall (λ e, 0 < e <= 1)
    (exp <$> ((λ a, a - vmax (logpost lm data)) <$> logpost lm data)) ∧
  1 <= softmax_denominator lm data <= 10 ∧
  vmax (bayespost lm data) = 1 / softmax_denominator lm data ∧
  1 / 10 <= vmax (bayespost lm data).
Proof.
  intros Hfit Hlogs.
  pose proof (length_logpost train m lm data Hfit Hlogs) as Hlen.
  assert (Hne : logpost lm data ≠ []).
  { intros Hnil. rewrite Hnil in Hlen. by cbv in Hlen. }
  set (lp := logpost lm data) in *. set (M := vmax lp).
  assert (Hexp : Forall (λ e, 0 < e <= 1) (exp <$> ((λ a, a - M) <$> lp))).
  { rewrite <- list_fmap_compose. apply Forall_fmap, Forall_forall.
    intros a Ha. unfold compose. pose proof (vmax_ub lp a Ha). fold M in H.
    split; [apply exp_pos|]. rewrite <- exp_0.
    destruct (Req_dec (a - M) 0) as [-> | Hd]; [lra|].
    left. apply exp_increasing. lra. }
  assert (Hone : 1 ∈ exp <$> ((λ a, a - M) <$> lp)).
  { rewrite <- list_fmap_compose. apply list_elem_of_fmap.
    exists M. split; [|by apply vmax_elem].
    unfold compose. replace (M - M) with 0 by lra. by rewrite exp_0. }
  assert (HD : 1 <= softmax_denominator lm data <= 10).
  { unfold softmax_denominator. fold lp. fold M. split.
    - apply vsum_ge_elem; [|done].
      eapply Forall_impl; [exact Hexp|]. intros e He. cbn beta in He. lra.
    - replace 10 with (INR (length (exp <$> ((λ a, a - M) <$> lp)))).
      + apply vsum_le_length. eapply Forall_impl; [exact Hexp|].
        intros e He. cbn beta in He. lra.
      + rewrite !length_fmap, Hlen. unfold ncls. cbn. lra. }
  assert (Hmax : vmax (bayespost lm data) = 1 / softmax_denominator lm data).
  { rewrite bayespost_fmap. fold lp. fold M.
    rewrite vmax_fmap_mono; [|intros a b Hab|done].
    - fold M. replace (M - M) with 0 by lra. by rewrite exp_0.
    - apply Rmult_le_compat_r; [left; apply Rinv_0_lt_compat; lra|].
      destruct (Req_dec a b) as [-> | Hd]; [lra|].
      left. apply exp_increasing. lra. }
  split; [done|]. split; [done|]. split; [done|].
  rewrite Hmax. unfold Rdiv. rewrite !Rmult_1_l.
  apply Rinv_le_contravar; lra.
Qed.

(** The bounds for a dark image after the ten images. *)
Lemma stabilization_witness :
  ∃ lm,
    Forall (λ e, 0 < e <= 1)
      (exp <$> ((λ a, a - vmax (logpost lm dark)) <$> logpost lm dark)) ∧
    1 <= softmax_denominator lm dark <= 10 ∧
    vmax (bayespost lm dark) = 1 / softmax_denominator lm dark ∧
    1 / 10 <= vmax (bayespost lm dark).
Proof.
  destruct ten_images_state as (m & lm & Hfit & _ & Hlogs).
  exists lm.
  exact (subtracting_the_maximum_bounds_the_sum ten_images m lm dark Hfit Hlogs).
Defined.

End Stabilization.

Section Loops.

Implicit Types (lm : logmodel) (s : sample) (test : list sample).

(** The drawings of the samples [test], from column [ctr] on. *)
Lemma show_loop_spec lm test : ∀ ctr shown,
  (ctr < 10)%nat →
  Forall (λ s, length s.1 = npix) (take (10 - ctr) test) →
  show_loop lm ctr shown test =
    Some ((ctr + length (take (10 - ctr) test))%nat,
          shown ++ imap (λ k s, ((ctr + k)%nat, s.1, bayespost lm s.1))
                     (take (10 - ctr) test)).
Proof.
  induction test as [|s test IH]; intros ctr shown Hctr Hwf.
  - rewrite take_nil. cbn. by rewrite Nat.add_0_r, app_nil_r.
  - destruct (10 - ctr)%nat as [|n] eqn:Hn; [lia|].
    rewrite firstn_cons in *. apply Forall_cons in Hwf as [Hs Hwf].
    cbn [show_loop]. rewrite !bool_decide_eq_true_2 by done. cbv zeta.
    rewrite imap_cons. cbn [length].
    destruct (decide (S ctr = 10%nat)) as [Heq|Hne].
    + rewrite bool_decide_eq_true_2 by done.
      assert (n = 0%nat) as -> by lia. rewrite take_0. cbn [imap length].
      by rewrite !Nat.add_0_r, Nat.add_1_r.
    + rewrite bool_decide_eq_false_2 by done.
      assert (Hn' : (10 - S ctr)%nat = n) by lia.
      rewrite IH by (rewrite ?Hn'; done || lia). rewrite Hn'.
      rewrite <- app_assoc. cbn [app]. rewrite Nat.add_0_r.
      assert (Himap :
        imap (λ k s0, ((S ctr + k)%nat, s0.1, bayespost lm s0.1)) (take n test) =
        imap ((λ k s0, ((ctr + k)%nat, s0.1, bayespost lm s0.1)) ∘ S) (take n test)).
      { apply imap_ext. intros k x _. unfold compose. do 2 f_equal. lia. }
      rewrite Himap. do 2 f_equal. lia.
Qed.

(** The loop of cell 4 draws the first ten test images and stops: it reads
    no image past the tenth, draws image [k] with its posterior in column
    [k], never indexes the figure out of range, and ends with
    [ctr = min 10 (number of test images)]. *)
Theorem show_ten_draws_the_first_ten lm test :
  Forall (λ s, length s.1 = npix) (take 10 test) →
  show_ten lm test =
    Some (min 10 (length test),
          imap (λ k s, (k, s.1, bayespost lm s.1)) (take 10 test)).
Proof.
  intros Hwf. unfold show_ten.
  rewrite show_loop_spec by (done || lia).
  cbn [app Nat.add Nat.sub]. by rewrite length_take.
Qed.

(** Twelve images, the last two with one pixel only: ten drawings. *)
Lemma show_ten_witness :
  show_ten (LogModel [] [] []) (replicate 10 (dark, 0%nat) ++ replicate 2 ([0], 0%nat)) =
    Some (min 10 (length (replicate 10 (dark, 0%nat) ++ replicate 2 ([0], 0%nat))),
          imap (λ k s, (k, s.1, bayespost (LogModel [] [] []) s.1))
            (take 10 (replicate 10 (dark, 0%nat) ++ replicate 2 ([0], 0%nat)))).
Proof.
  apply (show_ten_draws_the_first_ten (LogModel [] [] [])).
  rewrite take_app_length' by (by rewrite length_replicate).
  apply Forall_replicate. apply length_dark.
Defined.

(** The counters of the test loop: every sample is counted, some as
    errors. *)
Lemma test_loop_bounds lm test : ∀ ctr err ctr' err',
  test_loop lm (ctr, err) test = Some (ctr', err') →
  ctr' = (ctr + length test)%nat ∧ (err ≤ err' ≤ err + length test)%nat.
Proof.
  induction test as [|s test IH]; intros ctr err ctr' err' H.
  - injection H as <- <-. cbn. lia.
  - cbn [test_loop] in H. unfold test_step in H.
    destruct (bool_decide (length s.1 = npix)); [|done]. cbv zeta in H.
    destruct (bayespost lm s.1 !! s.2) as [p|]; [|done].
    cbn [mbind option_bind] in H. apply IH in H.
    destruct (decide (p < vmax (bayespost lm s.1))); cbn [length]; lia.
Qed.

(** Whenever an error rate is printed it lies between 0 and 1. *)
Theorem error_rate_is_a_fraction lm test e :
  error_rate lm test = Some e → 0 <= e <= 1.
Proof.
  unfold error_rate. intros H.
  destruct (test_loop lm (0%nat, 0%nat) test) as [[ctr err]|] eqn:Hloop; [|done].
  cbn [mbind option_bind fst snd] in H.
  destruct (decide (ctr = 0%nat)) as [|Hctr]; [done|]. injection H as <-.
  apply test_loop_bounds in Hloop as [-> Herr]. cbn [Nat.add] in *.
  assert (Hpos : 0 < INR (length test)) by (apply lt_0_INR; lia).
  assert (Hle : INR err <= INR (length test)) by (apply le_INR; lia).
  pose proof (pos_INR err). split.
  - apply Rmult_le_pos; [done|]. left. by apply Rinv_0_lt_compat.
  - apply Rmult_le_reg_r with (INR (length test)); [done|].
    unfold Rdiv. rewrite Rmult_assoc, Rinv_l by lra. lra.
Qed.

(** The error rate of the ten images on themselves. *)
Lemma error_rate_fraction_witness :
  ∃ lm e, error_rate lm ten_images = Some e ∧ 0 <= e <= 1.
Proof.
  destruct ten_images_state as (m & lm & Hfit & _ & Hlogs).
  destruct (error_rate lm ten_images) as [e|] eqn:He.
  - exists lm, e. split; [done|]. exact (error_rate_is_a_fraction lm ten_images e He).
  - exfalso. unfold error_rate in He.
    rewrite (test_loop_spec lm ten_images 0 0) in He.
    + cbn [mbind option_bind fst snd] in He. by rewrite decide_False in He.
    + eapply Forall_impl; [exact ten_images_wf|]. intros s [Hl Hy].
      split; [done|].
      by rewrite length_bayespost, (length_logpost ten_images m lm s.1 Hfit Hlogs).
Defined.

End Loops.

End NaiveBayesProofs.

(** ** The naive Bayes notebook in [float32] *)

Module Float32Proofs.

Import NaiveBayes NaiveBayesProofs Float32.

(** *** Rounding *)

Lemma Int_part_IZR (z : Z) : Int_part (IZR z) = z.
Proof. symmetry. apply Int_part_spec. lra. Qed.

Lemma rne_IZR (z : Z) : rne (IZR z) = z.
Proof.
  unfold rne. rewrite Int_part_IZR.
  destruct (Rlt_dec _ _) as [|H]; [reflexivity|]. exfalso. apply H. lra.
Qed.

Lemma ln2_pos : 0 < ln 2.
Proof. rewrite <- ln_1. apply ln_increasing; lra. Qed.

Lemma ln_powerRZ (e : Z) : ln (powerRZ 2 e) = IZR e * ln 2.
Proof. rewrite powerRZ_Rpower by lra. apply ln_Rpower. Qed.

Lemma floor_log2_unique (r : R) (e : Z) :
  powerRZ 2 e <= Rabs r < powerRZ 2 (e + 1) -> floor_log2 r = e.
Proof.
  intros [Hlo Hhi]. unfold floor_log2. symmetry. apply Int_part_spec.
  assert (H2 := ln2_pos).
  assert (Hpos : 0 < powerRZ 2 e) by (apply powerRZ_lt; lra).
  assert (Hr : 0 < Rabs r) by lra.
  assert (H1 : IZR e * ln 2 <= ln (Rabs r)).
  { rewrite <- ln_powerRZ. destruct Hlo as [Hlo|Hlo].
    - left. apply ln_increasing; assumption.
    - rewrite Hlo. lra. }
  assert (H3 : ln (Rabs r) < IZR (e + 1) * ln 2).
  { rewrite <- ln_powerRZ. apply ln_increasing; assumption. }
  rewrite plus_IZR in H3.
  assert (Hq : ln (Rabs r) / ln 2 * ln 2 = ln (Rabs r)) by (field; lra).
  split; apply Rmult_lt_reg_r with (ln 2) || apply Rmult_le_reg_r with (ln 2);
    try assumption; lra.
Qed.

Lemma floor_log2_bounds (r : R) :
  r <> 0 -> powerRZ 2 (floor_log2 r) <= Rabs r < powerRZ 2 (floor_log2 r + 1).
Proof.
  intros Hr. assert (Hpos : 0 < Rabs r) by (apply Rabs_pos_lt; assumption).
  assert (H2 := ln2_pos).
  destruct (base_Int_part (ln (Rabs r) / ln 2)) as [Hlo Hhi].
  fold (floor_log2 r) in Hlo, Hhi.
  assert (Hq : ln (Rabs r) / ln 2 * ln 2 = ln (Rabs r)) by (field; lra).
  assert (H1 : IZR (floor_log2 r) * ln 2 <= ln (Rabs r)).
  { rewrite <- Hq. apply Rmult_le_compat_r; lra. }
  assert (H3 : ln (Rabs r) < IZR (floor_log2 r + 1) * ln 2).
  { rewrite plus_IZR, <- Hq. apply Rmult_lt_compat_r; lra. }
  rewrite <- !ln_powerRZ in *.
  split.
  - destruct (Rle_dec (powerRZ 2 (floor_log2 r)) (Rabs r)) as [|Hn]; [assumption|].
    exfalso. apply Rnot_le_lt in Hn. apply ln_increasing in Hn; lra.
  - apply ln_lt_inv; [assumption|apply powerRZ_lt; lra|assumption].
Qed.

Lemma powerRZ_2_lt (a b : Z) : (a < b)%Z -> powerRZ 2 a < powerRZ 2 b.
Proof.
  intros H. apply ln_lt_inv; try (apply powerRZ_lt; lra).
  rewrite !ln_powerRZ. apply Rmult_lt_compat_r; [apply ln2_pos | apply IZR_lt; assumption].
Qed.

Lemma powerRZ_2_le (a b : Z) : (a <= b)%Z -> powerRZ 2 a <= powerRZ 2 b.
Proof.
  intros H. destruct (Z.eq_dec a b) as [->|]; [lra|].
  left. apply powerRZ_2_lt. lia.
Qed.

Lemma powerRZ_2_lt_inv (a b : Z) : powerRZ 2 a < powerRZ 2 b -> (a < b)%Z.
Proof.
  intros H. destruct (Z_lt_le_dec a b) as [|Hle]; [assumption|].
  apply powerRZ_2_le in Hle. lra.
Qed.

Lemma powerRZ_2_Zpow (n : Z) : (0 <= n)%Z -> powerRZ 2 n = IZR (2 ^ n).
Proof.
  intros H. rewrite <- (Z2Nat.id n) by assumption.
  rewrite <- pow_powerRZ, pow_IZR. reflexivity.
Qed.

Lemma floor_log2_lt (r : R) (e : Z) :
  r <> 0 -> Rabs r < powerRZ 2 e -> (floor_log2 r < e)%Z.
Proof.
  intros Hr H. destruct (floor_log2_bounds r Hr) as [Hlo _].
  apply powerRZ_2_lt_inv. lra.
Qed.

Lemma rne_0 : rne 0 = 0%Z.
Proof. apply (rne_IZR 0). Qed.

Lemma f32_0 : f32 0 = 0.
Proof. unfold f32. rewrite Rmult_0_l, rne_0. lra. Qed.

(** A number with a significand below [2^24] at an exponent the format
    has is a [float32]. *)
Lemma f32_exact (m e : Z) :
  (-149 <= e)%Z -> (Z.abs m < 2 ^ 24)%Z ->
  f32 (IZR m * powerRZ 2 e) = IZR m * powerRZ 2 e.
Proof.
  intros He Hm. destruct (Z.eq_dec m 0%Z) as [->|Hm0].
  { rewrite Rmult_0_l. apply f32_0. }
  set (r := IZR m * powerRZ 2 e).
  assert (Hpe : 0 < powerRZ 2 e) by (apply powerRZ_lt; lra).
  assert (Hr : r <> 0).
  { unfold r. apply Rmult_integral_contrapositive_currified; [|lra].
    intros H. apply eq_IZR in H. contradiction. }
  assert (Habs : Rabs r < powerRZ 2 (e + 24)).
  { unfold r. rewrite Rabs_mult, (Rabs_pos_eq (powerRZ 2 e)) by lra.
    rewrite powerRZ_add, Rmult_comm by lra.
    apply Rmult_lt_compat_l; [assumption|].
    rewrite <- abs_IZR, powerRZ_2_Zpow by lia. apply IZR_lt. assumption. }
  apply floor_log2_lt in Habs; [|assumption].
  assert (Hu : (ulp_exp r <= e)%Z) by (unfold ulp_exp; lia).
  unfold f32. set (u := ulp_exp r) in *.
  assert (Hscale : r * powerRZ 2 (- u) = IZR (m * 2 ^ (e - u))).
  { unfold r. rewrite mult_IZR, <- powerRZ_2_Zpow by lia.
    replace (e - u)%Z with (e + - u)%Z by lia. rewrite powerRZ_add by lra. ring. }
  rewrite Hscale, rne_IZR, mult_IZR, <- powerRZ_2_Zpow by lia.
  rewrite Rmult_assoc, <- powerRZ_add by lra.
  replace (e - u + u)%Z with e by lia. reflexivity.
Qed.

(** The integers up to [2^24] are [float32] numbers. *)
Lemma f32_IZR (k : Z) : (Z.abs k <= 2 ^ 24)%Z -> f32 (IZR k) = IZR k.
Proof.
  intros Hk. destruct (Z_lt_le_dec (Z.abs k) (2 ^ 24)) as [Hlt|Hge].
  - rewrite <- (Rmult_1_r (IZR k)). change 1 with (powerRZ 2 0).
    apply f32_exact; [lia|assumption].
  - change (2 ^ 24)%Z with 16777216%Z in *.
    assert (Hc : k = (8388608 * 2)%Z \/ k = (-8388608 * 2)%Z) by lia.
    destruct Hc as [->| ->]; rewrite mult_IZR; replace (IZR 2) with (powerRZ 2 1) by (simpl; lra);
      apply f32_exact; lia.
Qed.

Lemma ulp_exp_eq (r : R) (e : Z) :
  (-149 <= e)%Z -> powerRZ 2 (e + 23) <= Rabs r < powerRZ 2 (e + 24) -> ulp_exp r = e.
Proof.
  intros He H. unfold ulp_exp. rewrite (floor_log2_unique r (e + 23)); [lia|].
  replace (e + 23 + 1)%Z with (e + 24)%Z by lia. assumption.
Qed.

Lemma ulp_exp_subnormal (r : R) :
  r <> 0 -> Rabs r < powerRZ 2 (-126) -> ulp_exp r = (-149)%Z.
Proof.
  intros Hr H. apply floor_log2_lt in H; [|assumption]. unfold ulp_exp. lia.
Qed.

(** A tie goes to the even neighbour. *)
Lemma rne_tie (z : Z) : Z.even z = true -> rne (IZR z + 1 / 2) = z.
Proof.
  intros Hz. unfold rne.
  assert (Hf : Int_part (IZR z + 1 / 2) = z) by (symmetry; apply Int_part_spec; lra).
  rewrite Hf. destruct (Rlt_dec _ _); [lra|]. destruct (Rlt_dec _ _); [lra|].
  rewrite Hz. reflexivity.
Qed.

Lemma rne_small (x : R) : -1 / 2 <= x <= 1 / 2 -> rne x = 0%Z.
Proof.
  intros [Hlo Hhi]. unfold rne. destruct (Rlt_dec x 0) as [Hneg|Hpos].
  - assert (Hf : Int_part x = (-1)%Z) by (symmetry; apply Int_part_spec; lra).
    rewrite Hf. destruct (Rlt_dec _ _); [lra|]. destruct (Rlt_dec _ _); reflexivity.
  - assert (Hf : Int_part x = 0%Z) by (symmetry; apply Int_part_spec; lra).
    rewrite Hf. destruct (Rlt_dec _ _); [reflexivity|]. destruct (Rlt_dec _ _); [lra|].
    reflexivity.
Qed.

(** Below half of the smallest positive [float32] everything rounds to
    zero: underflow. *)
Lemma f32_underflow (r : R) : Rabs r <= powerRZ 2 (-150) -> f32 r = 0.
Proof.
  intros H. destruct (Req_dec r 0) as [->|Hr]; [apply f32_0|].
  assert (H126 : powerRZ 2 (-150) < powerRZ 2 (-126)) by (apply powerRZ_2_lt; lia).
  unfold f32. rewrite ulp_exp_subnormal by (assumption || lra).
  rewrite rne_small; [lra|].
  change (- -149)%Z with 149%Z.
  assert (Hm : powerRZ 2 (-150) * powerRZ 2 149 = 1 / 2).
  { rewrite <- powerRZ_add by lra. simpl. lra. }
  assert (Hp : 0 < powerRZ 2 149) by (apply powerRZ_lt; lra).
  assert (Hr1 : - powerRZ 2 (-150) <= r <= powerRZ 2 (-150)).
  { unfold Rabs in H. destruct (Rcase_abs r); lra. }
  split; nra.
Qed.

(** [2^24 + 1] is the first integer [float32] does not have: it rounds
    back to [2^24]. *)
Lemma f32_2p24_plus_1 : f32 16777217 = 16777216.
Proof.
  unfold f32. rewrite (ulp_exp_eq _ 1).
  - replace (16777217 * powerRZ 2 (- (1))) with (IZR 8388608 + 1 / 2) by (simpl; lra).
    rewrite rne_tie by reflexivity. simpl. lra.
  - lia.
  - rewrite Rabs_pos_eq by lra. rewrite !powerRZ_2_Zpow by lia. split.
    + apply IZR_le. vm_compute. discriminate.
    + apply IZR_lt. vm_compute. reflexivity.
Qed.


Lemma round_IZR (k : Z) : (Z.abs k <= 2 ^ 24)%Z → round (IZR k) = Num (IZR k).
Proof.
  intros Hk. unfold round. rewrite f32_IZR by assumption.
  destruct (Rlt_dec _ _) as [|Hn]; [reflexivity|]. exfalso. apply Hn.
  rewrite <- abs_IZR, powerRZ_2_Zpow by lia. apply IZR_lt.
  change (2 ^ 24)%Z with 16777216%Z in Hk.
  assert (16777216 < 2 ^ 128)%Z by reflexivity. lia.
Qed.

Lemma round_INR (k : nat) : (Z.of_nat k <= 2 ^ 24)%Z → round (INR k) = Num (INR k).
Proof. intros Hk. rewrite INR_IZR_INZ. apply round_IZR. lia. Qed.

(** Adding natural numbers is exact as long as the sum stays within
    [2^24]. *)
Lemma fadd_INR (j k : nat) :
  (Z.of_nat (j + k) <= 2 ^ 24)%Z → fadd (Num (INR j)) (Num (INR k)) = Num (INR (j + k)).
Proof. intros H. cbn [fadd]. rewrite <- plus_INR. by apply round_INR. Qed.

(** From [2^24] on, adding one changes nothing. *)
Lemma fadd_sticks : fadd (Num 16777216) (Num 1) = Num 16777216.
Proof.
  cbn [fadd]. unfold round. replace (16777216 + 1) with 16777217 by lra.
  rewrite f32_2p24_plus_1.
  destruct (Rlt_dec _ _) as [|Hn]; [reflexivity|]. exfalso. apply Hn.
  rewrite Rabs_pos_eq by lra. rewrite powerRZ_2_Zpow by lia. by apply IZR_lt.
Qed.

(** *** The training loop: counting is exact below [2^24] *)

Section Training.

Implicit Types (c : NaiveBayes.counters) (s : sample) (train : list sample).
Implicit Types (v : vec) (b : nat).

Lemma counts_upto_mono b b' v : (b ≤ b')%nat → counts_upto b v → counts_upto b' v.
Proof.
  intros Hb Hv. eapply Forall_impl; [exact Hv|].
  intros x (k & -> & Hk). exists k. split; [done|lia].
Qed.

Lemma fadd_count b (k : nat) (x : R) :
  (k ≤ b)%nat → (Z.of_nat b + 1 <= 2 ^ 24)%Z → x = 0 ∨ x = 1 →
  fadd (Num (INR k)) (Num x) = Num (INR k + x) ∧
  ∃ k' : nat, INR k + x = INR k' ∧ (k' ≤ S b)%nat.
Proof.
  intros Hk Hb [-> | ->].
  - change 0 with (INR 0). rewrite fadd_INR by lia. rewrite <- plus_INR.
    split; [done|]. exists (k + 0)%nat. split; [done|lia].
  - change 1 with (INR 1). rewrite fadd_INR by lia. rewrite <- plus_INR.
    split; [done|]. exists (k + 1)%nat. split; [done|lia].
Qed.

Lemma alter_counts b y v (x : R) :
  counts_upto b v → (Z.of_nat b + 1 <= 2 ^ 24)%Z → x = 0 ∨ x = 1 →
  alter (λ n, fadd n (Num x)) y (Num <$> v) = Num <$> alter (λ n, n + x) y v ∧
  counts_upto (S b) (alter (λ n, n + x) y v).
Proof.
  intros Hv Hb Hx. split.
  - symmetry. apply list_fmap_alter. eapply Forall_impl; [exact Hv|].
    intros a (k & -> & Hk). cbn beta. symmetry. by eapply fadd_count.
  - apply Forall_alter.
    + apply (counts_upto_mono b); [lia|done].
    + intros a Ha _. destruct (Forall_lookup_1 _ _ _ _ Hv Ha) as (k & -> & Hk).
      by destruct (fadd_count b k x Hk Hb Hx) as [_ H].
Qed.

Lemma zip_alter_counts b y (xc : mat) (data : vec) :
  Forall (counts_upto b) xc → (Z.of_nat b + 1 <= 2 ^ 24)%Z →
  Forall (λ x, x = 0 ∨ x = 1) data →
  zip_with (λ row x, alter (λ n, fadd n (Num x)) y row)
    ((λ row : vec, Num <$> row) <$> xc) data
  = (λ row : vec, Num <$> row) <$> zip_with (λ row d, alter (λ n, n + d) y row) xc data
  ∧ Forall (counts_upto (S b)) (zip_with (λ row d, alter (λ n, n + d) y row) xc data).
Proof.
  intros Hxc Hb. revert data.
  induction Hxc as [|row xc Hrow Hxc IH]; intros data Hd; [done|].
  destruct Hd as [|x data Hx Hd]; [done|].
  cbn [fmap list_fmap zip_with].
  destruct (alter_counts b y row x Hrow Hb Hx) as [-> H2].
  destruct (IH data Hd) as [IH1 H3]. cbn [fmap] in IH1. rewrite IH1.
  split; [done|by constructor].
Qed.

(** One step of the loop on counters within [b]: the [float32] counters
    are the exact ones. *)
Lemma train_step_counts b c s :
  wf_sample s → binary s → (Z.of_nat b + 1 <= 2 ^ 24)%Z →
  Forall (counts_upto b) (NaiveBayes.xcount c) → counts_upto b (NaiveBayes.ycount c) →
  ∃ c', NaiveBayes.train_step c s = Some c' ∧
    train_step (of_reals c) s = Some (of_reals c') ∧
    Forall (counts_upto (S b)) (NaiveBayes.xcount c') ∧
    counts_upto (S b) (NaiveBayes.ycount c').
Proof.
  destruct s as [data y]. intros [Hlen Hy] Hbin Hb Hxc Hyc. cbn [fst snd] in *.
  unfold binary in Hbin. cbn [fst] in Hbin.
  unfold NaiveBayes.train_step, train_step, reshape784.
  rewrite (bool_decide_eq_true_2 _ Hy), (bool_decide_eq_true_2 _ Hlen).
  assert (Hge : (npix ≤ length data)%nat) by (rewrite Hlen; done).
  rewrite (bool_decide_eq_true_2 _ Hge), take_ge by (rewrite Hlen; done).
  cbn [andb mbind option_bind].
  destruct (alter_counts b y (NaiveBayes.ycount c) 1 Hyc Hb) as [Ey Hy']; [by right|].
  destruct (zip_alter_counts b y (NaiveBayes.xcount c) data Hxc Hb Hbin) as [Ex Hx'].
  eexists. split; [reflexivity|]. split; [|split; assumption].
  unfold of_reals. cbn [NaiveBayes.xcount NaiveBayes.ycount xcount ycount].
  by rewrite Ey, Ex.
Qed.

Lemma train_loop_counts train : ∀ b c,
  Forall wf_sample train → Forall binary train →
  (Z.of_nat b + Z.of_nat (length train) <= 2 ^ 24)%Z →
  Forall (counts_upto b) (NaiveBayes.xcount c) → counts_upto b (NaiveBayes.ycount c) →
  ∃ c', NaiveBayes.train_loop c train = Some c' ∧
    train_loop (of_reals c) train = Some (of_reals c') ∧
    counts_upto (b + length train) (NaiveBayes.ycount c').
Proof.
  induction train as [|s train IH]; intros b c Hwf Hbin Hb Hxc Hyc.
  - exists c. split; [done|]. split; [done|].
    by apply (counts_upto_mono b); [lia|].
  - apply Forall_cons in Hwf as [Hs Hwf]. apply Forall_cons in Hbin as [Hsb Hbin].
    cbn [length] in Hb.
    destruct (train_step_counts b c s Hs Hsb) as (c1 & E1 & E2 & Hx1 & Hy1);
      [lia|done|done|].
    destruct (IH (S b) c1 Hwf Hbin) as (c' & E3 & E4 & Hy'); [lia|done|done|].
    exists c'. cbn [NaiveBayes.train_loop train_loop]. rewrite E1, E2.
    cbn [mbind option_bind]. split; [done|]. split; [done|].
    by replace (b + length (s :: train))%nat with (S b + length train)%nat
      by (cbn [length]; lia).
Qed.

Lemma counts_nonneg b v : counts_upto b v → 0 <= vsum v.
Proof.
  induction 1 as [|x v (k & -> & _) _ IH]; [cbn; lra|].
  rewrite vsum_cons. pose proof (pos_INR k). lra.
Qed.

(** A sum of natural numbers is exact as long as it stays within [2^24]. *)
Lemma fsum_counts b v : counts_upto b v → ∀ a : nat,
  INR a + vsum v <= 16777216 →
  foldl fadd (Num (INR a)) (Num <$> v) = Num (INR a + vsum v).
Proof.
  induction 1 as [|x v (k & -> & _) Hv IH]; intros a Ha.
  - cbn. f_equal. lra.
  - rewrite vsum_cons in *. pose proof (counts_nonneg _ _ Hv) as H0.
    cbn [fmap list_fmap foldl]. rewrite fadd_INR.
    + rewrite IH; rewrite plus_INR; [f_equal; lra | lra].
    + apply le_IZR. rewrite <- INR_IZR_INZ, plus_INR.
      change (IZR (2 ^ 24)) with 16777216. lra.
Qed.

Lemma of_reals_init : of_reals NaiveBayes.init_counters = init_counters.
Proof.
  unfold of_reals, NaiveBayes.init_counters, init_counters.
  cbn [NaiveBayes.xcount NaiveBayes.ycount]. by rewrite !fmap_replicate.
Qed.

Lemma init_counted :
  Forall (counts_upto 1) (NaiveBayes.xcount NaiveBayes.init_counters) ∧
  counts_upto 1 (NaiveBayes.ycount NaiveBayes.init_counters).
Proof.
  assert (H1 : counts_upto 1 (replicate ncls 1)).
  { apply Forall_replicate. exists 1%nat. split; [done|lia]. }
  split; [|exact H1]. by apply Forall_replicate.
Qed.

(** The [float32] loop on a training set of binary images that leaves every
    counter within [2^24] holds the exact counters. *)
Lemma train_loop_exact train :
  Forall wf_sample train → Forall binary train →
  (Z.of_nat (length train) + 1 <= 2 ^ 24)%Z →
  ∃ c, NaiveBayes.train_loop NaiveBayes.init_counters train = Some c ∧
    train_loop init_counters train = Some (of_reals c) ∧
    counts_upto (1 + length train) (NaiveBayes.ycount c).
Proof.
  intros Hwf Hbin Hn. destruct init_counted as [Hx Hy].
  destruct (train_loop_counts train 1 NaiveBayes.init_counters Hwf Hbin)
    as (c & E1 & E2 & Hc); [lia|done|done|].
  rewrite of_reals_init in E2. by exists c.
Qed.

Lemma vsum_ycount_init train c :
  NaiveBayes.train_loop NaiveBayes.init_counters train = Some c →
  vsum (NaiveBayes.ycount c) = 10 + INR (length train).
Proof.
  intros Hloop.
  rewrite (vsum_ycount train _ c init_counters_shape Hloop).
  f_equal. cbn. lra.
Qed.

(** C1 (amended). The estimation is frequency counting with Laplace
    smoothing as long as the counters stay within [2^24]: on a training set
    of at most [2^24 - 10] binary images (784 pixels each, labels among the
    ten digits) the [float32] training loop runs to its end, and then
    [ycount[y]] is 1 plus the number of samples with label [y],
    [xcount[i,y]] is 1 plus the sum of pixel [i] over the samples with label
    [y] (which is the number of those samples that set the pixel), the sum
    of [ycount] is 10 plus the number of samples, [py[y]] is the [float32]
    quotient of [ycount[y]] by that sum, and [px[i,y]] is the [float32]
    quotient of [xcount[i,y]] by [ycount[y]]. *)
Theorem float32_counts_with_laplace_smoothing train :
  Forall wf_sample train → Forall binary train →
  (Z.of_nat (length train) + 10 <= 2 ^ 24)%Z →
  ∃ (c : Float32.counters) (m : Float32.model),
    train_loop init_counters train = Some c ∧ fit train = Some m ∧
    fsum (ycount c) = Num (10 + INR (length train)) ∧
    (∀ y, (y < ncls)%nat →
       ycount c !! y = Some (Num (1 + n_y train y)) ∧
       py m !! y = Some (fdiv (Num (1 + n_y train y)) (fsum (ycount c)))) ∧
    (∀ i y, (i < npix)%nat → (y < ncls)%nat →
       xcount c !! i ≫= (.!! y) = Some (Num (1 + n_iy train i y)) ∧
       n_iy train i y = on_iy train i y ∧
       px m !! i ≫= (.!! y) =
         Some (fdiv (Num (1 + n_iy train i y)) (Num (1 + n_y train y)))).
Proof.
  intros Hwf Hbin Hn.
  destruct (train_loop_exact train Hwf Hbin) as (c & E1 & E2 & Hc); [lia|].
  destruct (fit_spec train Hwf) as (c0 & Hloop & _ & _ & _ & Hy & Hx).
  assert (c0 = c) as -> by congruence. clear Hloop.
  assert (Hsum : fsum (ycount (of_reals c)) = Num (10 + INR (length train))).
  { unfold of_reals, fsum. cbn [ycount]. change (Num 0) with (Num (INR 0)).
    rewrite (fsum_counts _ _ Hc 0); rewrite (vsum_ycount_init train c E1).
    - f_equal. cbn [INR]. lra.
    - apply IZR_le in Hn. rewrite plus_IZR, <- INR_IZR_INZ in Hn.
      change (IZR (2 ^ 24)) with 16777216 in Hn. cbn [INR]. lra. }
  assert (Hyc : ∀ y, (y < ncls)%nat →
            ycount (of_reals c) !! y = Some (Num (1 + n_y train y))).
  { intros y Hlt. destruct (Hy y Hlt) as [Hyc _].
    unfold of_reals. cbn [ycount]. by rewrite list_lookup_fmap, Hyc. }
  exists (of_reals c), (estimate (of_reals c)).
  split; [done|]. split; [unfold fit; by rewrite E2|]. split; [done|]. split.
  - intros y Hlt. split; [by apply Hyc|].
    cbn [estimate py]. by rewrite list_lookup_fmap, (Hyc y Hlt).
  - intros i y Hi Hlt. destruct (Hx i y Hi Hlt) as [Hxc _].
    unfold mget in Hxc. destruct (NaiveBayes.xcount c !! i) as [row|] eqn:Hrow; [|done].
    cbn [mbind option_bind] in Hxc.
    assert (Hrow' : xcount (of_reals c) !! i = Some (Num <$> row)).
    { unfold of_reals. cbn [xcount]. by rewrite list_lookup_fmap, Hrow. }
    assert (Hent : (Num <$> row) !! y = Some (Num (1 + n_iy train i y))).
    { by rewrite list_lookup_fmap, Hxc. }
    split; [by rewrite Hrow'|]. split; [by apply n_iy_binary|].
    cbn [estimate px]. rewrite list_lookup_fmap, Hrow'. cbn [fmap option_fmap option_map].
    cbn [mbind option_bind]. by rewrite lookup_zip_with, Hent, (Hyc y Hlt).
Qed.

(** The [float32] counters on the two images. *)
Lemma float32_counts_witness :
  ∃ (c : Float32.counters) (m : Float32.model),
    train_loop init_counters two_images = Some c ∧ fit two_images = Some m ∧
    fsum (ycount c) = Num (10 + INR (length two_images)) ∧
    (∀ y, (y < ncls)%nat →
       ycount c !! y = Some (Num (1 + n_y two_images y)) ∧
       py m !! y = Some (fdiv (Num (1 + n_y two_images y)) (fsum (ycount c)))) ∧
    (∀ i y, (i < npix)%nat → (y < ncls)%nat →
       xcount c !! i ≫= (.!! y) = Some (Num (1 + n_iy two_images i y)) ∧
       n_iy two_images i y = on_iy two_images i y ∧
       px m !! i ≫= (.!! y) =
         Some (fdiv (Num (1 + n_iy two_images i y)) (Num (1 + n_y two_images y)))).
Proof.
  apply (float32_counts_with_laplace_smoothing two_images
           two_images_wf two_images_binary).
  unfold two_images. rewrite length_fmap. cbn [length]. lia.
Defined.

Lemma train_loop_app (fc : Float32.counters) (l1 l2 : list sample) :
  train_loop fc (l1 ++ l2) = train_loop fc l1 ≫= λ fc', train_loop fc' l2.
Proof.
  revert fc. induction l1 as [|s l1 IH]; intros fc; [done|].
  cbn [app train_loop]. destruct (train_step fc s) as [fc1|]; [|done].
  cbn [mbind option_bind]. apply IH.
Qed.

Lemma n_y_replicate (k : nat) (d : vec) (y : nat) : n_y (replicate k (d, y)) y = INR k.
Proof.
  induction k as [|k IH]; [done|].
  cbn [replicate]. rewrite n_y_cons, IH, S_INR. cbn [label snd].
  destruct (decide (y = y)); [lra|done].
Qed.

(** One sample more than the counter can count. *)
Lemma counter_sticks (k : nat) :
  Z.of_nat k = 16777215%Z →
  ∃ fc : Float32.counters,
    train_loop init_counters (replicate (S k) (dark, 0%nat)) = Some fc ∧
    ycount fc !! 0%nat = Some (Num 16777216).
Proof.
  intros Hk. set (s := (dark, 0%nat)).
  assert (Hs : wf_sample s) by (split; [apply length_dark | unfold ncls; cbn; lia]).
  assert (Hb : binary s) by apply dark_binary.
  assert (HINR : INR k = 16777215) by (by rewrite INR_IZR_INZ, Hk).
  destruct (train_loop_exact (replicate k s)) as (c1 & E1 & E2 & _).
  { by apply Forall_replicate. }
  { by apply Forall_replicate. }
  { rewrite length_replicate. lia. }
  destruct (fit_spec (replicate k s)) as (c0 & Hloop & _ & _ & _ & Hy & _).
  { by apply Forall_replicate. }
  assert (c0 = c1) as -> by congruence.
  destruct (Hy 0%nat) as [Hy0 _]; [unfold ncls; lia|].
  unfold s in Hy0. rewrite n_y_replicate in Hy0.
  replace (1 + INR k) with 16777216 in Hy0 by lra.
  rewrite replicate_S_end, train_loop_app, E2. cbn [mbind option_bind train_loop].
  unfold train_step, s, reshape784.
  rewrite bool_decide_eq_true_2 by (unfold ncls; lia).
  rewrite bool_decide_eq_true_2 by (by rewrite length_dark).
  cbn [mbind option_bind]. eexists. split; [reflexivity|].
  cbn [ycount of_reals]. rewrite list_lookup_alter_eq, list_lookup_fmap, Hy0.
  cbn [fmap option_fmap option_map]. by rewrite fadd_sticks.
Qed.

(** C1, as the claim has it, fails on a long training set: after [2^24]
    dark images of the digit 0 (binary images of 784 pixels) the counter
    [ycount[0]] holds [2^24], which is the number of these samples and not
    one more. *)
Lemma counter_stops_at_2p24 :
  Forall wf_sample many_zeros ∧ Forall binary many_zeros ∧
  ∃ fc : Float32.counters, train_loop init_counters many_zeros = Some fc ∧
    ycount fc !! 0%nat = Some (Num 16777216) ∧
    n_y many_zeros 0 = 16777216.
Proof.
  unfold many_zeros.
  split; [|split].
  - apply Forall_replicate. split; [apply length_dark | unfold ncls; cbn; lia].
  - apply Forall_replicate, dark_binary.
  - rewrite n_y_replicate.
    assert (HS : Z.to_nat 16777216 = S (Z.to_nat 16777215)).
    { change 16777216%Z with (Z.succ 16777215). apply Z2Nat.inj_succ. lia. }
    destruct (counter_sticks (Z.to_nat 16777215)) as (fc & E & Hc).
    { apply Z2Nat.id. lia. }
    exists fc. rewrite HS. split; [exact E|]. split; [exact Hc|].
    rewrite <- HS, INR_IZR_INZ, Z2Nat.id by lia. reflexivity.
Qed.


(** *** Cell 2: the images of the [float32] counters *)

Lemma nums_lookup (v : vec) i : nums v !! i = Num <$> v !! i.
Proof. apply list_lookup_fmap. Qed.

Lemma length_nums (v : vec) : length (nums v) = length v.
Proof. apply length_fmap. Qed.

Lemma column_of_reals i (a : mat) :
  column i (num_rows a) = nums <$> NaiveBayes.column i a.
Proof.
  unfold column, NaiveBayes.column, num_rows. induction a as [|row a IH]; [done|].
  rewrite fmap_cons. cbn [mapM]. rewrite nums_lookup.
  destruct (row !! i) as [x|]; [|done].
  cbn [fmap option_fmap option_map mbind option_bind]. rewrite IH.
  by destruct (mapM (.!! i) a).
Qed.

Lemma reshape_nums szs : ∀ v : vec,
  reshape szs (nums v) = num_rows (reshape szs v).
Proof.
  induction szs as [|sz szs IH]; intros v; [done|].
  cbn [reshape]. unfold num_rows. rewrite fmap_cons.
  fold (num_rows (reshape szs (drop sz v))).
  rewrite <- IH. unfold nums. by rewrite fmap_take, fmap_drop.
Qed.

Lemma reshape2_of_reals r k (v : vec) :
  reshape2 r k (nums v) = num_rows <$> NaiveBayes.reshape2 r k v.
Proof.
  unfold reshape2, NaiveBayes.reshape2. rewrite length_nums.
  destruct (bool_decide _); [|done]. cbn [fmap option_fmap option_map].
  by rewrite reshape_nums.
Qed.

Lemma mapM_natural {A B : Type} (g : A → B) (f1 : nat → option B) (f2 : nat → option A)
    (l : list nat) :
  (∀ i, f1 i = g <$> f2 i) → mapM f1 l = (λ k : list A, g <$> k) <$> mapM f2 l.
Proof.
  intros H. induction l as [|i l IH]; [done|]. cbn [mapM]. rewrite H, IH.
  destruct (f2 i); [|done]. by destruct (mapM f2 l).
Qed.

Lemma heat_maps_of_reals c :
  heat_maps (of_reals c) =
  (λ imgs : list mat, num_rows <$> imgs) <$> NaiveBayes.heat_maps c.
Proof.
  unfold heat_maps, NaiveBayes.heat_maps. apply mapM_natural. intros i.
  unfold of_reals. cbn [xcount]. fold (num_rows (NaiveBayes.xcount c)).
  rewrite column_of_reals.
  destruct (NaiveBayes.column i (NaiveBayes.xcount c)) as [col|]; [|done].
  cbn [fmap option_fmap option_map mbind option_bind]. apply reshape2_of_reals.
Qed.

(** Cell 2 draws the smoothed counts as long as the counters stay within
    [2^24]: after training on fewer than [2^24] binary images, the loop
    draws ten images of 28 rows, and the image of digit [i] holds at row [r]
    and column [k] one plus the number of samples of digit [i] that set the
    pixel at that place, the counter [xcount[28 r + k, i]]. *)
Theorem float32_heat_maps_show_the_counts train :
  Forall wf_sample train → Forall binary train →
  (Z.of_nat (length train) + 1 <= 2 ^ 24)%Z →
  ∃ (fc : Float32.counters) imgs,
    train_loop init_counters train = Some fc ∧
    heat_maps fc = Some imgs ∧ length imgs = 10%nat ∧
    ∀ i r k, (i < 10)%nat → (r < 28)%nat → (k < 28)%nat →
      ∃ img, imgs !! i = Some img ∧ length img = 28%nat ∧
        img !! r ≫= (.!! k) = Some (Num (1 + on_iy train (28 * r + k) i)).
Proof.
  intros Hwf Hbin Hn.
  destruct (train_loop_exact train Hwf Hbin Hn) as (c & E1 & E2 & _).
  destruct (heat_maps_exact train Hwf) as (c0 & imgs & Hloop & Hmaps & Hlen & Himgs).
  assert (c0 = c) as -> by congruence.
  exists (of_reals c), (num_rows <$> imgs).
  split; [done|]. split; [by rewrite heat_maps_of_reals, Hmaps|].
  split; [by rewrite length_fmap|].
  intros i r k Hi Hr Hk. destruct (Himgs i r k Hi Hr Hk) as (img & Himg & Hl & Hent).
  exists (num_rows img). split; [by rewrite list_lookup_fmap, Himg|].
  split; [by unfold num_rows; rewrite length_fmap|].
  unfold mget in Hent. unfold num_rows. rewrite list_lookup_fmap.
  destruct (img !! r) as [row|]; [|done]. cbn [fmap option_fmap option_map mbind option_bind] in *.
  rewrite nums_lookup, Hent. cbn [fmap option_fmap option_map].
  by rewrite (n_iy_binary train _ i Hbin).
Qed.

(** The images of the [float32] counters of the two images. *)
Lemma float32_heat_maps_witness :
  ∃ (fc : Float32.counters) imgs,
    train_loop init_counters two_images = Some fc ∧
    heat_maps fc = Some imgs ∧ length imgs = 10%nat ∧
    ∀ i r k, (i < 10)%nat → (r < 28)%nat → (k < 28)%nat →
      ∃ img, imgs !! i = Some img ∧ length img = 28%nat ∧
        img !! r ≫= (.!! k) = Some (Num (1 + on_iy two_images (28 * r + k) i)).
Proof.
  apply (float32_heat_maps_show_the_counts two_images two_images_wf two_images_binary).
  unfold two_images. rewrite length_fmap. cbn [length]. lia.
Defined.

End Training.

(** *** The softmax: underflow *)

Section Softmax.

Lemma ln2_lt_1 : ln 2 < 1.
Proof.
  rewrite <- (ln_exp 1). apply ln_increasing; [lra|].
  pose proof (exp_ineq1 1). lra.
Qed.

Lemma round_0 : round 0 = Num 0.
Proof. apply (round_IZR 0). lia. Qed.

Lemma round_1 : round 1 = Num 1.
Proof. apply (round_IZR 1). lia. Qed.

(** [nd.exp] is zero from -150 down. *)
Lemma fexp_underflow (x : R) : x <= -150 → fexp (Num x) = Num 0.
Proof.
  intros Hx. cbn [fexp]. unfold round. rewrite f32_underflow.
  - destruct (Rlt_dec _ _) as [|Hn]; [done|]. exfalso. apply Hn.
    rewrite Rabs_R0. apply powerRZ_lt. lra.
  - rewrite Rabs_pos_eq by (left; apply exp_pos).
    rewrite powerRZ_Rpower by lra. unfold Rpower.
    pose proof ln2_lt_1. pose proof ln2_pos.
    destruct (Req_dec x (IZR (-150) * ln 2)) as [->|Hne]; [lra|].
    left. apply exp_increasing. change (IZR (-150)) with (-150). nra.
Qed.

Lemma fexp_0 : fexp (Num 0) = Num 1.
Proof. cbn [fexp]. rewrite exp_0. apply round_1. Qed.

Lemma fadd_0_0 : fadd (Num 0) (Num 0) = Num 0.
Proof. cbn [fadd]. rewrite Rplus_0_l. apply round_0. Qed.

Lemma fsum_zeros : fsum (replicate 10 (Num 0)) = Num 0.
Proof. unfold fsum. cbn [replicate foldl]. by rewrite !fadd_0_0. Qed.

Lemma fsum_ones : fsum (replicate 10 (Num 1)) = Num 10.
Proof.
  unfold fsum. change (replicate 10 (Num 1)) with (Num <$> replicate 10 1).
  change (Num 0) with (Num (INR 0)).
  rewrite (fsum_counts 1).
  - f_equal. cbn. lra.
  - apply Forall_replicate. exists 1%nat. split; [done|lia].
  - cbn. lra.
Qed.

Lemma vmax_cold : vmax cold = -600.
Proof.
  assert (H : vmax cold ∈ cold) by (by apply vmax_elem).
  by apply elem_of_replicate in H as [H _].
Qed.

Lemma round_not_nan (r : R) : round r ≠ NaN.
Proof. unfold round. by destruct (Rlt_dec _ _). Qed.

(** C4, as the claim has it, fails in [float32]: on ten log-posteriors of
    -600 the exponentials are all zero, so the softmax without the
    subtraction is [0/0], not a number; with the subtraction of the maximum
    every entry is the [float32] quotient of 1 by 10. *)
Lemma softmax_underflows_without_the_shift :
  softmax (Num <$> cold) = replicate 10 NaN ∧
  softmax (stabilize cold) = replicate 10 (round (1 / 10)) ∧
  softmax (stabilize cold) ≠ softmax (Num <$> cold).
Proof.
  assert (H1 : softmax (Num <$> cold) = replicate 10 NaN).
  { unfold softmax, cold. cbv zeta. rewrite !fmap_replicate.
    rewrite fexp_underflow by lra. rewrite fsum_zeros. cbn [fdiv].
    by rewrite !decide_True by done. }
  assert (H2 : softmax (stabilize cold) = replicate 10 (round (1 / 10))).
  { unfold softmax, stabilize. rewrite vmax_cold. unfold cold. cbv zeta.
    rewrite !fmap_replicate. replace (-600 - -600) with 0 by lra.
    rewrite round_0, fexp_0, fsum_ones. cbn [fdiv].
    rewrite decide_False by lra. done. }
  split; [done|]. split; [done|].
  rewrite H1, H2. cbn [replicate]. intros H. injection H as H _.
  by apply round_not_nan in H.
Qed.

End Softmax.

End Float32Proofs.

(** ** Tied parameters *)

Module TiedParametersProofs.

Import TiedParameters.

Section Proofs.

Variable init : loc → mat.
Variable w0 : world.

Lemma shared_net_layers :
  (shared_net init w0).1 =
    [ {| weight := S (S (next w0)); bias := S (S (S (next w0))) |};
      {| weight := next w0; bias := S (next w0) |};
      {| weight := next w0; bias := S (next w0) |};
      {| weight := S (S (S (S (next w0)))); bias := S (S (S (S (S (next w0))))) |} ].
Proof. reflexivity. Qed.

Lemma data_initialized l :
  l ∈ (shared_net init w0).1 →
  data (shared_net init w0).2 (weight l) = Some (init (weight l)).
Proof.
  rewrite shared_net_layers.
  unfold data, shared_net, build_net, initialize, new_dense_with_params.
  cbn [new_dense new_parameter next heap snd foldr weight bias].
  unfold init_layer. cbn [weight bias].
  intros Hl. repeat (apply elem_of_cons in Hl as [-> | Hl]); cbn [weight];
    [..|by apply elem_of_nil in Hl];
    repeat first [ rewrite lookup_insert_eq; reflexivity
                 | rewrite lookup_insert_ne by lia ].
Qed.

Lemma assign_data w p f a a' :
  data w p = Some a → f a = Some a' →
  ∃ w', assign w p f = Some w' ∧ data w' p = Some a'.
Proof.
  intros Ha Hf. unfold assign. rewrite Ha. cbn [mbind option_bind].
  rewrite Hf. cbn [mbind option_bind]. eexists. split; [done|].
  unfold data. cbn [heap]. apply lookup_insert_eq.
Qed.

Lemma assign_other w p q f w' :
  assign w p f = Some w' → p ≠ q → data w' q = data w q.
Proof.
  unfold assign. intros H Hne.
  destruct (data w p) as [a|]; [|done]. cbn [mbind option_bind] in H.
  destruct (f a) as [a'|]; [|done]. cbn [mbind option_bind] in H.
  injection H as <-. unfold data. cbn [heap]. by rewrite lookup_insert_ne.
Qed.

Lemma set_entry_in_range r c v a :
  is_Some (mget a r c) → ∃ a', set_entry r c v a = Some a' ∧ mget a' r c = Some v.
Proof.
  intros [x Hx]. unfold mget in Hx.
  destruct (a !! r) as [row|] eqn:Hrow; [|done]. cbn [mbind option_bind] in Hx.
  unfold set_entry. rewrite Hrow. cbn [mbind option_bind]. rewrite Hx.
  cbn [mbind option_bind]. eexists. split; [done|].
  unfold mget. rewrite list_lookup_insert_eq by (by eapply lookup_lt_Some).
  cbn [mbind option_bind].
  by rewrite list_lookup_insert_eq by (by eapply lookup_lt_Some).
Qed.

(** The first layer has parameters of its own: an assignment through the
    second layer does not reach it. *)
Lemma untied_layer_unaffected l0 l1 f w' :
  (shared_net init w0).1 !! 0%nat = Some l0 →
  (shared_net init w0).1 !! 1%nat = Some l1 →
  assign (shared_net init w0).2 (weight l1) f = Some w' →
  data w' (weight l0) = data (shared_net init w0).2 (weight l0).
Proof.
  rewrite shared_net_layers. intros [= <-] [= <-] Hset.
  eapply assign_other; [exact Hset|]. cbn [weight]. lia.
Qed.

(** C7. Tied parameters stay equal under mutation: in the network of cell
    14, [net[1].weight] and [net[2].weight] are the same parameter, so after
    initialization [net[1].weight.data()] is [net[2].weight.data()]; after
    any in-place assignment through either of the two handles both still
    read the same array, the assigned one; and after
    [data()[r, c] = v] (at an index of the array) the entry [[r, c]] read
    through either handle is [v]. *)
Theorem tied_parameters_stay_equal :
  ∃ l1 l2,
    (shared_net init w0).1 !! 1%nat = Some l1 ∧
    (shared_net init w0).1 !! 2%nat = Some l2 ∧
    weight l1 = weight l2 ∧
    is_Some (data (shared_net init w0).2 (weight l1)) ∧
    data (shared_net init w0).2 (weight l1) = data (shared_net init w0).2 (weight l2) ∧
    (∀ h a f a',
      h = l1 ∨ h = l2 →
      data (shared_net init w0).2 (weight h) = Some a → f a = Some a' →
      ∃ w', assign (shared_net init w0).2 (weight h) f = Some w' ∧
        data w' (weight l1) = Some a' ∧ data w' (weight l2) = Some a') ∧
    (∀ h a r c v,
      h = l1 ∨ h = l2 →
      data (shared_net init w0).2 (weight h) = Some a → is_Some (mget a r c) →
      ∃ w' a', set_item (shared_net init w0).2 (weight h) r c v = Some w' ∧
        data w' (weight l1) = Some a' ∧ data w' (weight l2) = Some a' ∧
        mget a' r c = Some v).
Proof.
  rewrite shared_net_layers.
  exists {| weight := next w0; bias := S (next w0) |},
         {| weight := next w0; bias := S (next w0) |}.
  split; [done|]. split; [done|]. split; [done|].
  split; [|split; [done|split]].
  - rewrite (data_initialized {| weight := next w0; bias := S (next w0) |}); [done|].
    rewrite shared_net_layers. apply elem_of_cons. right. apply elem_of_cons. by left.
  - intros h a f a' Hh Ha Hf.
    assert (Hw : weight h = next w0) by (by destruct Hh as [-> | ->]).
    rewrite Hw in *. cbn [weight].
    destruct (assign_data _ _ f a a' Ha Hf) as (w' & Hset & Ha').
    by exists w'.
  - intros h a r c v Hh Ha Hrc.
    assert (Hw : weight h = next w0) by (by destruct Hh as [-> | ->]).
    rewrite Hw in *. cbn [weight].
    destruct (set_entry_in_range r c v a Hrc) as (a' & Hf & Hv).
    destruct (assign_data _ _ _ a a' Ha Hf) as (w' & Hset & Ha').
    by exists w', a'.
Qed.

End Proofs.

(** In a fresh kernel with weights of zeros, 100 written at [[0,0]]
    through [net[1]] is read back. *)
Lemma tied_parameters_example :
  ∃ w' a', set_item (shared_net zeros fresh).2 0%nat 0 0 100 = Some w' ∧
    data w' 0%nat = Some a' ∧ mget a' 0 0 = Some 100.
Proof.
  destruct (tied_parameters_stay_equal zeros fresh)
    as (l1 & l2 & H1 & H2 & Heq & _ & _ & _ & Hset).
  injection H1 as <-. injection H2 as <-.
  destruct (Hset _ (zeros 0%nat) 0%nat 0%nat 100 (or_introl eq_refl))
    as (w' & a' & Hw' & Ha1 & Ha2 & Hv).
  - apply (data_initialized zeros fresh). rewrite shared_net_layers.
    apply elem_of_cons. right. apply elem_of_cons. by left.
  - by eexists.
  - by exists w', a'.
Defined.

(** ** Beyond the claim: cell 13 and the parameters that are not tied *)

Section InPlace.

Implicit Types (w : world) (a : mat).

Lemma set_entry_other r c v a a' r' c' :
  set_entry r c v a = Some a' → (r', c') ≠ (r, c) → mget a' r' c' = mget a r' c'.
Proof.
  unfold set_entry. intros H Hne.
  destruct (a !! r) as [row|] eqn:Hrow; [|done]. cbn [mbind option_bind] in H.
  destruct (row !! c) as [x|] eqn:Hx; [|done]. cbn [mbind option_bind] in H.
  injection H as <-. unfold mget.
  destruct (decide (r' = r)) as [-> | Hr].
  - rewrite list_lookup_insert_eq by (by eapply lookup_lt_Some). rewrite Hrow.
    cbn [mbind option_bind]. apply list_lookup_insert_ne. congruence.
  - by rewrite list_lookup_insert_ne.
Qed.

Lemma add_one_lookup a r c :
  mget ((λ row : vec, (λ x, x + 1) <$> row) <$> a) r c = (λ x, x + 1) <$> mget a r c.
Proof.
  unfold mget. rewrite list_lookup_fmap. destruct (a !! r) as [row|]; [|done].
  cbn [fmap option_fmap option_map mbind option_bind]. apply list_lookup_fmap.
Qed.

(** Cell 13 composes two in-place assignments on one array: after
    [data()[:] += 1] and [data()[0,0] = 42] the corner reads 42, every
    other entry is its old value plus one, and no other parameter has
    changed. *)
Theorem cell_13_adds_one_then_sets_the_corner w p a :
  data w p = Some a → is_Some (mget a 0 0) →
  ∃ w' a', cell_13 w p = Some w' ∧ data w' p = Some a' ∧
    mget a' 0 0 = Some 42 ∧
    (∀ r c, (r, c) ≠ (0%nat, 0%nat) → mget a' r c = (λ x, x + 1) <$> mget a r c) ∧
    (∀ q, q ≠ p → data w' q = data w q).
Proof.
  intros Ha [x Hx].
  destruct (assign_data w p add_one a _ Ha eq_refl) as (w1 & Hw1 & Ha1).
  assert (Hin : is_Some (mget ((λ row : vec, (λ x, x + 1) <$> row) <$> a) 0 0)).
  { rewrite add_one_lookup, Hx. by eexists. }
  destruct (set_entry_in_range 0 0 42 _ Hin) as (a' & Hset & Hv).
  destruct (assign_data w1 p (set_entry 0 0 42) _ a' Ha1 Hset) as (w' & Hw' & Ha').
  exists w', a'. split; [|split; [done|split; [done|split]]].
  - unfold cell_13. rewrite Hw1. cbn [mbind option_bind]. exact Hw'.
  - intros r c Hne. rewrite (set_entry_other _ _ _ _ _ r c Hset Hne).
    apply add_one_lookup.
  - intros q Hq. assert (Hpq : p ≠ q) by congruence.
    rewrite (assign_other w1 p q _ w' Hw' Hpq).
    exact (assign_other w p q add_one w1 Hw1 Hpq).
Qed.

(** A 2 x 2 array of zeros in a fresh kernel. *)
Lemma cell_13_witness :
  ∃ w' a',
    cell_13 {| next := 1%nat; heap := {[ 0%nat := [[0; 0]; [0; 0]] ]} |} 0%nat = Some w' ∧
    data w' 0%nat = Some a' ∧ mget a' 0 0 = Some 42 ∧
    (∀ r c, (r, c) ≠ (0%nat, 0%nat) →
       mget a' r c = (λ x, x + 1) <$> mget [[0; 0]; [0; 0]] r c) ∧
    (∀ q, q ≠ 0%nat →
       data w' q = data {| next := 1%nat; heap := {[ 0%nat := [[0; 0]; [0; 0]] ]} |} q).
Proof.
  apply (cell_13_adds_one_then_sets_the_corner
           {| next := 1%nat; heap := {[ 0%nat := [[0; 0]; [0; 0]] ]} |} 0%nat).
  - unfold data. cbn [heap]. apply lookup_singleton_eq.
  - by eexists.
Defined.

End InPlace.

Section Untied.

Variable init : loc → mat.
Variable w0 : world.

(** An assignment through the tied weight reaches nothing else: the weights
    of the first and the last layer and the biases of all four layers read
    as before. *)
Theorem tied_assignment_leaves_the_rest l1 f w' :
  (shared_net init w0).1 !! 1%nat = Some l1 →
  assign (shared_net init w0).2 (weight l1) f = Some w' →
  ∀ k l, (shared_net init w0).1 !! k = Some l →
    data w' (bias l) = data (shared_net init w0).2 (bias l) ∧
    (k ≠ 1%nat → k ≠ 2%nat →
     data w' (weight l) = data (shared_net init w0).2 (weight l)).
Proof.
  rewrite shared_net_layers. intros [= <-] Hset k l Hl. cbn [weight] in Hset.
  destruct k as [|[|[|[|k]]]]; cbn in Hl; try done; injection Hl as <-;
    cbn [weight bias]; (split; [|intros ??; try done]);
    (eapply assign_other; [exact Hset | lia]).
Qed.

End Untied.

(** The network of cell 14 in a fresh kernel, 100 written through
    [net[1]]. *)
Lemma tied_assignment_witness :
  ∃ w', assign (shared_net zeros fresh).2 0%nat (set_entry 0 0 100) = Some w' ∧
    ∀ k l, (shared_net zeros fresh).1 !! k = Some l →
      data w' (bias l) = data (shared_net zeros fresh).2 (bias l) ∧
      (k ≠ 1%nat → k ≠ 2%nat →
       data w' (weight l) = data (shared_net zeros fresh).2 (weight l)).
Proof.
  assert (Hd : data (shared_net zeros fresh).2 0%nat = Some (zeros 0%nat)).
  { apply (data_initialized zeros fresh {| weight := 0%nat; bias := 1%nat |}).
    rewrite shared_net_layers. apply elem_of_cons. right. apply elem_of_cons. by left. }
  destruct (set_entry_in_range 0 0 100 (zeros 0%nat)) as (a' & Ha' & _); [by eexists|].
  destruct (assign_data _ _ _ _ _ Hd Ha') as (w' & Hw' & _).
  exists w'. split; [exact Hw'|].
  exact (tied_assignment_leaves_the_rest zeros fresh
           {| weight := 0%nat; bias := 1%nat |} (set_entry 0 0 100) w' eq_refl Hw').
Defined.

(** Every call of [block1] allocates parameters of its own: the network
    [rgnet] of cell 9 holds eighteen parameters, pairwise distinct and all
    new, and [rgnet[0][1][0]] is the first layer of the second [block1]. *)
Theorem nested_blocks_share_nothing (w : world) :
  collect_params (rgnet w).1 = seq (next w) 18 ∧
  NoDup (collect_params (rgnet w).1) ∧
  next (rgnet w).2 = (next w + 18)%nat ∧ heap (rgnet w).2 = heap w ∧
  (child 0 (rgnet w).1 ≫= child 1) ≫= child 0 =
    Some (Layer {| weight := 4 + next w; bias := 5 + next w |}).
Proof.
  assert (H : collect_params (rgnet w).1 = seq (next w) 18) by reflexivity.
  split; [done|]. split; [rewrite H; apply NoDup_seq|].
  split; [cbn; lia|]. split; reflexivity.
Qed.

End TiedParametersProofs.

(** ** Name resolution in the notebooks *)

Module NotebooksProofs.

Import Notebooks NotebookCells.

Local Open Scope string_scope.

Section Kernels.

Context {A : Type}.

Implicit Types (g : namespace A) (fr : frame A) (v : value A) (D L : list string).

Lemma grows_refl g : grows g g.
Proof. by intros x. Qed.

Lemma grows_trans g g' g'' : grows g g' → grows g' g'' → grows g g''.
Proof. intros H1 H2 x Hx. by apply H2, H1. Qed.

Lemma grows_insert g x v : grows g (<[x := v]> g).
Proof.
  intros y Hy. unfold bound. rewrite lookup_insert_is_Some.
  destruct (decide (x = y)); [by left | by right].
Qed.

Lemma good_mono g g' v : grows g g' → good g v → good g' v.
Proof.
  intros Hg. destruct v as [a | ps body]; [done|].
  intros (D0 & Hb & Hc). exists D0. split; [|done]. intros x Hx. by apply Hg, Hb.
Qed.

Lemma good_frame_mono g g' fr : grows g g' → good_frame g fr → good_frame g' fr.
Proof.
  intros Hg. destruct fr as [[L lm]|]; [|done].
  intros H x v Hx. eapply good_mono; [done|]. by eapply H.
Qed.

Lemma inv_weaken D D' g1 g2 : (∀ x, x ∈ D → x ∈ D') → inv D' g1 g2 → inv D g1 g2.
Proof. intros HD (Hs & Hb & Hg). split; [done|]. split; [|done]. intros x Hx. by apply Hb, HD. Qed.

Lemma ext_refl D g1 g2 fr : inv D g1 g2 → good_frame g1 fr → ext D g1 g2 fr g1 g2 fr.
Proof. intros Hi Hf. split; [done|]. split; [apply grows_refl|]. by repeat split. Qed.

Lemma ext_trans D D' g1 g2 fr g1' g2' fr' g1'' g2'' fr'' :
  ext D g1 g2 fr g1' g2' fr' → ext D' g1' g2' fr' g1'' g2'' fr'' →
  ext D' g1 g2 fr g1'' g2'' fr''.
Proof.
  intros (_ & Hg & _ & Hl & Ht & Hk) (Hi' & Hg' & Hf' & Hl' & Ht' & Hk').
  split; [done|]. split; [by eapply grows_trans|]. split; [done|].
  split; [congruence|]. split; [congruence|].
  intros Htop. destruct (Hk Htop) as [-> ->].
  apply Hk'. congruence.
Qed.

Lemma ext_weaken D D' g1 g2 fr g1' g2' fr' :
  (∀ x, x ∈ D → x ∈ D') → ext D' g1 g2 fr g1' g2' fr' → ext D g1 g2 fr g1' g2' fr'.
Proof. intros HD (Hi & H). split; [by eapply inv_weaken|done]. Qed.

(** A name that resolves is read alike in the two kernels. *)
Lemma lookup_alike D g1 g2 fr x :
  ok (locals fr) D x = true → inv D g1 g2 → good_frame g1 fr →
  lookup_name g2 fr x = lookup_name g1 fr x ∧
  ∀ v, lookup_name g1 fr x = Some v → good g1 v.
Proof.
  intros Hok (Hs & Hb & Hg) Hf. unfold ok in Hok.
  apply orb_true_iff in Hok.
  assert (HD : x ∈ D → g2 !! x = g1 !! x ∧ ∀ v, g1 !! x = Some v → good g1 v).
  { intros Hx. destruct (Hb x Hx) as [v Hv]. split; [|by intros ?; apply Hg].
    rewrite Hv. by eapply lookup_weaken. }
  destruct fr as [[L lm]|]; cbn [lookup_name locals] in *.
  - destruct (bool_decide (x ∈ L)) eqn:HL.
    + split; [done|]. intros v Hv. by eapply Hf.
    + destruct Hok as [Hok|Hok]; [done|]. apply bool_decide_eq_true in Hok.
      destruct (HD Hok) as [-> H]. done.
  - destruct Hok as [Hok|Hok].
    + apply bool_decide_eq_true in Hok. by apply elem_of_nil in Hok.
    + apply bool_decide_eq_true in Hok. destruct (HD Hok) as [-> H]. done.
Qed.

(** Binding a good value. *)
Lemma bind_name_alike D g1 g2 fr x v :
  inv D g1 g2 → good_frame g1 fr → good g1 v →
  ∃ g1' g2' fr', bind_name g1 fr x v = (g1', fr') ∧ bind_name g2 fr x v = (g2', fr') ∧
    ext (if at_top fr then x :: D else D) g1 g2 fr g1' g2' fr'.
Proof.
  intros (Hs & Hb & Hg) Hf Hv. destruct fr as [[L lm]|]; cbn [bind_name at_top].
  - eexists _, _, _. split; [done|]. split; [done|].
    split; [done|]. split; [apply grows_refl|]. split; [|done].
    intros y u. rewrite lookup_insert_Some. intros [[_ <-]|[_ Hy]]; [done|by eapply Hf].
  - eexists _, _, _. split; [done|]. split; [done|].
    pose proof (grows_insert g1 x v) as Hgr.
    split; [|split; [done|done]].
    split; [by apply insert_mono|]. split.
    + intros y Hy. apply elem_of_cons in Hy as [->|Hy].
      * unfold bound. rewrite lookup_insert_is_Some. by left.
      * by apply Hgr, Hb.
    + intros y u. rewrite lookup_insert_Some.
      intros [[_ <-]|[_ Hy]]; (eapply good_mono; [exact Hgr|]); [done|by eapply Hg].
Qed.

Lemma bind_names_alike xs : ∀ D g1 g2 fr (vs : list (value A)),
  inv D g1 g2 → good_frame g1 fr → Forall (good g1) vs →
  match bind_names g1 fr xs vs, bind_names g2 fr xs vs with
  | Some (g1', fr1), Some (g2', fr2) =>
      fr1 = fr2 ∧ ext (if at_top fr then (xs ++ D)%list else D) g1 g2 fr g1' g2' fr1
  | None, None => True
  | _, _ => False
  end.
Proof.
  induction xs as [|x xs IH]; intros D g1 g2 fr vs Hi Hf Hvs.
  - destruct vs; cbn [bind_names]; [|done]. split; [done|].
    destruct (at_top fr); by apply ext_refl.
  - destruct Hvs as [|v vs Hv Hvs]; cbn [bind_names]; [done|].
    destruct (bind_name_alike D g1 g2 fr x v Hi Hf Hv) as (g1' & g2' & fr' & -> & -> & He).
    pose proof He as (Hi' & Hgr & Hf' & Hl & Ht & _).
    specialize (IH _ g1' g2' fr' vs Hi' Hf').
    destruct (bind_names g1' fr' xs vs) as [[g1'' fr1]|],
             (bind_names g2' fr' xs vs) as [[g2'' fr2]|];
      try (by apply IH; eapply Forall_impl; [exact Hvs|]; intros ?; apply good_mono).
    destruct IH as [-> He'].
    { eapply Forall_impl; [exact Hvs|]. intros ?. by apply good_mono. }
    split; [done|]. eapply ext_trans; [exact He|]. rewrite Ht in He'.
    eapply ext_weaken; [|exact He']. destruct (at_top fr); [|done].
    intros y Hy. rewrite elem_of_app, elem_of_cons.
    rewrite elem_of_app, elem_of_cons in Hy. tauto.
Qed.

End Kernels.

(** *** A notebook whose names resolve runs alike in every kernel *)

Section Semantics.

Context {A W : Type}.
Variable lit : string → A.
Variable prim : string → list (value A) → W → option (A * W).
Variable truthy : A → bool.
Variable stop : A → bool.
Variable unpack : nat → A → option (list A).

Implicit Types (g : namespace A) (fr : frame A) (v : value A) (D L : list string).
Implicit Types (w : W) (e : expr) (s : stmt).

Local Abbreviation ev := (eval lit prim truthy stop unpack).
Local Abbreviation ex := (exec lit prim truthy stop unpack).
Local Abbreviation lp := (loop lit prim truthy stop unpack).

Lemma bind_targets_alike D g1 g2 fr xs v :
  inv D g1 g2 → good_frame g1 fr → good g1 v →
  match bind_targets unpack g1 fr xs v, bind_targets unpack g2 fr xs v with
  | Some (g1', fr1), Some (g2', fr2) =>
      fr1 = fr2 ∧ ext (if at_top fr then (xs ++ D)%list else D) g1 g2 fr g1' g2' fr1
  | None, None => True
  | _, _ => False
  end.
Proof.
  intros Hi Hf Hv. unfold bind_targets.
  assert (Hgen : match v with
                 | Lib a => vs ← unpack (length xs) a; bind_names g1 fr xs (Lib <$> vs)
                 | Clo _ _ => None
                 end = None ∧
                 match v with
                 | Lib a => vs ← unpack (length xs) a; bind_names g2 fr xs (Lib <$> vs)
                 | Clo _ _ => None
                 end = None ∨
                 ∃ vs, Forall (good g1) vs ∧
                   match v with
                   | Lib a => vs ← unpack (length xs) a; bind_names g1 fr xs (Lib <$> vs)
                   | Clo _ _ => None
                   end = bind_names g1 fr xs vs ∧
                   match v with
                   | Lib a => vs ← unpack (length xs) a; bind_names g2 fr xs (Lib <$> vs)
                   | Clo _ _ => None
                   end = bind_names g2 fr xs vs).
  { destruct v as [a|]; [|by left]. destruct (unpack (length xs) a) as [vs|]; [|by left].
    right. exists (Lib <$> vs). split; [|done]. apply Forall_fmap. by apply Forall_true. }
  destruct xs as [|x [|x' xs]].
  - destruct Hgen as [[-> ->]|(vs & Hvs & -> & ->)]; [done|]. by apply bind_names_alike.
  - destruct (bind_name_alike D g1 g2 fr x v Hi Hf Hv) as (g1' & g2' & fr' & -> & -> & He).
    split; [done|]. done.
  - destruct Hgen as [[-> ->]|(vs & Hvs & -> & ->)]; [done|]. by apply bind_names_alike.
Qed.

Lemma import_names_alike line names : ∀ D g1 g2 fr w,
  inv D g1 g2 → good_frame g1 fr →
  match import_names prim line g1 fr w names, import_names prim line g2 fr w names with
  | Some (g1', fr1, w1), Some (g2', fr2, w2) =>
      fr1 = fr2 ∧ w1 = w2 ∧
      ext (if at_top fr then (names ++ D)%list else D) g1 g2 fr g1' g2' fr1
  | None, None => True
  | _, _ => False
  end.
Proof.
  induction names as [|x names IH]; intros D g1 g2 fr w Hi Hf; cbn [import_names].
  - split; [done|]. split; [done|]. destruct (at_top fr); by apply ext_refl.
  - destruct (prim _ [] w) as [[a w1]|]; [|done]. cbn [mbind option_bind].
    destruct (bind_name_alike D g1 g2 fr x (Lib a) Hi Hf I)
      as (g1' & g2' & fr' & -> & -> & He).
    pose proof He as (Hi' & Hgr & Hf' & Hl & Ht & _).
    specialize (IH _ g1' g2' fr' w1 Hi' Hf').
    destruct (import_names prim line g1' fr' w1 names) as [[[g1'' fr1] w1']|],
             (import_names prim line g2' fr' w1 names) as [[[g2'' fr2] w2']|]; try done.
    destruct IH as (-> & -> & He'). split; [done|]. split; [done|].
    eapply ext_trans; [exact He|]. rewrite Ht in He'.
    eapply ext_weaken; [|exact He']. destruct (at_top fr); [|done].
    intros y Hy. rewrite elem_of_app, elem_of_cons.
    rewrite elem_of_app, elem_of_cons in Hy. tauto.
Qed.

(** Evaluators that agree on the expressions of a list agree on the
    list. *)
Lemma eval_list_alike L D g1 (ev1 ev2 : W → expr → option (value A * W)) es :
  (∀ e w, closed_expr L D e = true →
     ev2 w e = ev1 w e ∧ ∀ v w', ev1 w e = Some (v, w') → good g1 v) →
  forallb (closed_expr L D) es = true → ∀ w,
  eval_list ev2 w es = eval_list ev1 w es ∧
  ∀ vs w', eval_list ev1 w es = Some (vs, w') → Forall (good g1) vs.
Proof.
  intros Hev. induction es as [|e es IH]; intros Hc w; cbn [eval_list].
  - split; [done|]. intros vs w' [= <- <-]. constructor.
  - cbn [forallb] in Hc. apply andb_true_iff in Hc as [He Hes].
    destruct (Hev e w He) as [-> Hg].
    destruct (ev1 w e) as [[v w1]|]; [|done]. cbn [mbind option_bind].
    destruct (IH Hes w1) as [-> Hgs].
    destruct (eval_list ev1 w1 es) as [[vs w2]|]; [|done]. cbn [mbind option_bind].
    split; [done|]. intros vs' w' [= <- <-]. constructor; [by eapply Hg|by eapply Hgs].
Qed.

Lemma alike_trans {D D1 Dn g1 g2 fr g1' g2' fr1}
    {r1 r2 : option (namespace A * frame A * W * signal A)} :
  ext D g1 g2 fr g1' g2' fr1 → (∀ x, x ∈ D → x ∈ D1) →
  alike D1 Dn g1' g2' fr1 r1 r2 → alike D Dn g1 g2 fr r1 r2.
Proof.
  intros He HD. destruct r1 as [[[[g1'' fr1'] w1] s1]|], r2 as [[[[g2'' fr2'] w2] s2]|];
    try done.
  intros (-> & -> & -> & He' & Hn & Hs). split; [done|]. split; [done|]. split; [done|].
  split; [|done]. eapply ext_trans; [exact He|]. by eapply ext_weaken.
Qed.

(** Statements that run alike one by one run alike in a block. *)
Lemma exec_list_alike
    (exe : namespace A → frame A → W → stmt → option (namespace A * frame A * W * signal A)) :
  (∀ s D g1 g2 fr w,
     closed_stmt (at_top fr) (locals fr) D s = true → inv D g1 g2 → good_frame g1 fr →
     alike D (if at_top fr then (defs s ++ D)%list else D) g1 g2 fr
       (exe g1 fr w s) (exe g2 fr w s)) →
  ∀ ss D g1 g2 fr w,
    closed_block (at_top fr) (locals fr) D ss = true → inv D g1 g2 → good_frame g1 fr →
    alike D (after (at_top fr) D ss) g1 g2 fr
      (exec_list exe g1 fr w ss) (exec_list exe g2 fr w ss).
Proof.
  intros Hex. induction ss as [|s ss IH]; intros D g1 g2 fr w Hc Hi Hf;
    cbn [exec_list after].
  - split; [done|]. split; [done|]. split; [done|]. split; [by apply ext_refl|]. done.
  - cbn [closed_block] in Hc. apply andb_true_iff in Hc as [Hs Hss].
    specialize (Hex s D g1 g2 fr w Hs Hi Hf).
    destruct (exe g1 fr w s) as [[[[g1' fr1] w1] s1]|],
             (exe g2 fr w s) as [[[[g2' fr2] w2] s2]|]; try done.
    destruct Hex as (-> & -> & -> & He & Hn & Hsig). cbn [mbind option_bind].
    pose proof He as (_ & _ & Hf' & Hl & Ht & _).
    destruct s2 as [| |v].
    + specialize (IH (if at_top fr then (defs s ++ D)%list else D) g1' g2' fr2 w2).
      rewrite Hl, Ht in IH. specialize (IH Hss (Hn eq_refl) Hf').
      eapply alike_trans; [exact He| |exact IH].
      intros x Hx. destruct (at_top fr); [|done]. apply elem_of_app. by right.
    + split; [done|]. split; [done|]. split; [done|]. split; [done|]. done.
    + split; [done|]. split; [done|]. split; [done|]. split; [done|]. done.
Qed.

Lemma alike_drop {D Dn g1 g2 fr} {r1 r2 : option (namespace A * frame A * W * signal A)} :
  alike D Dn g1 g2 fr r1 r2 → alike D D g1 g2 fr r1 r2.
Proof.
  destruct r1 as [[[[g1' fr1] w1] s1]|], r2 as [[[[g2' fr2] w2] s2]|]; try done.
  intros (-> & -> & -> & He & _ & Hs). repeat (split; [done|]). split; [|done].
  intros _. apply He.
Qed.

(** A step that binds nothing. *)
Lemma same_alike D g1 g2 fr w (sig : signal A) (b : bool) :
  inv D g1 g2 → good_frame g1 fr → good_signal g1 sig →
  alike D (if b then ([] ++ D)%list else D) g1 g2 fr
    (Some (g1, fr, w, sig)) (Some (g2, fr, w, sig)).
Proof.
  intros Hi Hf Hs. repeat (split; [done|]). split; [by apply ext_refl|].
  split; [|done]. by destruct b.
Qed.

(** A step that binds names. *)
Lemma ext_alike D D' Dn g1 g2 fr g1' g2' fr' w :
  ext D' g1 g2 fr g1' g2' fr' → (∀ x, x ∈ D → x ∈ D') → (∀ x, x ∈ Dn → x ∈ D') →
  alike D Dn g1 g2 fr (Some (g1', fr', w, Normal)) (Some (g2', fr', w, Normal)).
Proof.
  intros He HD HDn. repeat (split; [done|]). split; [by eapply ext_weaken|].
  split; [|done]. intros _. eapply inv_weaken; [exact HDn|]. apply He.
Qed.

(** The evaluator, one step at a time. *)
Lemma exec_Magic n g fr w line :
  ex (S n) g fr w (Magic line) = '(_, w1) ← prim line [] w; Some (g, fr, w1, Normal).
Proof. reflexivity. Qed.

Lemma exec_Import n g fr w line names :
  ex (S n) g fr w (Import line names) =
  '(g1, fr1, w1) ← import_names prim line g fr w names; Some (g1, fr1, w1, Normal).
Proof. reflexivity. Qed.

Lemma exec_Assign n g fr w xs e :
  ex (S n) g fr w (Assign xs e) =
  '(v, w1) ← ev n g fr w e;
  '(g1, fr1) ← bind_targets unpack g fr xs v;
  Some (g1, fr1, w1, Normal).
Proof. reflexivity. Qed.

Lemma exec_AugAssign n g fr w x o e :
  ex (S n) g fr w (AugAssign x o e) =
  v ← lookup_name g fr x;
  '(ve, w1) ← ev n g fr w e;
  '(a, w2) ← prim o [v; ve] w1;
  let '(g1, fr1) := bind_name g fr x (Lib a) in
  Some (g1, fr1, w2, Normal).
Proof. reflexivity. Qed.

Lemma exec_SetItem n g fr w obj ix o e :
  ex (S n) g fr w (SetItem obj ix o e) =
  '(vs, w1) ← eval_list (ev n g fr) w (item_exprs obj ix o e);
  '(_, w2) ← prim ("[]" ++ o) vs w1;
  Some (g, fr, w2, Normal).
Proof. reflexivity. Qed.

Lemma exec_ExprStmt n g fr w e :
  ex (S n) g fr w (ExprStmt e) = '(_, w1) ← ev n g fr w e; Some (g, fr, w1, Normal).
Proof. reflexivity. Qed.

Lemma exec_For n g fr w xs it body :
  ex (S n) g fr w (For xs it body) =
  '(v, w1) ← ev n g fr w it;
  '(a, w2) ← prim "iter" [v] w1;
  lp n g fr w2 (Lib a) xs body.
Proof. reflexivity. Qed.

Lemma exec_If n g fr w c body :
  ex (S n) g fr w (If c body) =
  '(v, w1) ← ev n g fr w c;
  if match v with Lib a => truthy a | Clo _ _ => true end
  then exec_list (ex n) g fr w1 body
  else Some (g, fr, w1, Normal).
Proof. reflexivity. Qed.

Lemma exec_Break n g fr w : ex (S n) g fr w Break = Some (g, fr, w, Broke).
Proof. reflexivity. Qed.

Lemma exec_Def n g fr w f ps body :
  ex (S n) g fr w (Def f ps body) =
  let '(g1, fr1) := bind_name g fr f (Clo ps body) in Some (g1, fr1, w, Normal).
Proof. reflexivity. Qed.

Lemma exec_Return n g fr w e :
  ex (S n) g fr w (Return e) = '(v, w1) ← ev n g fr w e; Some (g, fr, w1, Returned v).
Proof. reflexivity. Qed.

Lemma exec_Class n g fr w name bases body :
  ex (S n) g fr w (Class name bases body) =
  '(vs, w1) ← eval_list (ev n g fr) w bases;
  '(_, cf, w2, _) ← exec_list (ex n) g (Some (assigned body, ∅)) w1 body;
  ms ← members cf (assigned body);
  '(a, w3) ← prim ("class " ++ name) (vs ++ ms)%list w2;
  let '(g1, fr1) := bind_name g fr name (Lib a) in
  Some (g1, fr1, w3, Normal).
Proof. reflexivity. Qed.

Lemma loop_S n g fr w itr xs body :
  lp (S n) g fr w itr xs body =
  '(a, w1) ← prim "next" [itr] w;
  if stop a then Some (g, fr, w1, Normal)
  else
    '(g1, fr1) ← bind_targets unpack g fr xs (Lib a);
    '(g2, fr2, w2, sig) ← exec_list (ex n) g1 fr1 w1 body;
    match sig with
    | Normal => lp n g2 fr2 w2 itr xs body
    | Broke => Some (g2, fr2, w2, Normal)
    | Returned _ => Some (g2, fr2, w2, sig)
    end.
Proof. reflexivity. Qed.

Lemma closed_For top L D xs it body :
  closed_stmt top L D (For xs it body) =
  closed_expr L D it && closed_block top L (if top then (xs ++ D)%list else D) body.
Proof. reflexivity. Qed.

Lemma closed_If top L D c body :
  closed_stmt top L D (If c body) = closed_expr L D c && closed_block top L D body.
Proof. reflexivity. Qed.

Lemma closed_Def top L D f ps body :
  closed_stmt top L D (Def f ps body) =
  closed_block false (ps ++ assigned body)%list D body.
Proof. reflexivity. Qed.

Lemma closed_Class top L D name bases body :
  closed_stmt top L D (Class name bases body) =
  forallb (closed_expr L D) bases && closed_block false (assigned body) D body.
Proof. reflexivity. Qed.

(** A function of the notebook runs alike in the two kernels once its
    body does. *)
Lemma call_alike n g1 g2 w ps body (vs : list (value A)) :
  (∀ ss D g1 g2 fr w,
     closed_block (at_top fr) (locals fr) D ss = true → inv D g1 g2 → good_frame g1 fr →
     alike D (after (at_top fr) D ss) g1 g2 fr
       (exec_list (ex n) g1 fr w ss) (exec_list (ex n) g2 fr w ss)) →
  g1 ⊆ g2 → (∀ x u, g1 !! x = Some u → good g1 u) →
  good g1 (Clo ps body) → Forall (good g1) vs →
  let run g :=
    '(_, lf) ← bind_names g (Some ((ps ++ assigned body)%list, ∅)) ps vs;
    '(_, _, w3, sig) ← exec_list (ex n) g lf w body;
    match sig with
    | Returned v => Some (v, w3)
    | Normal => Some (Lib (lit "None"), w3)
    | Broke => None
    end in
  run g2 = run g1 ∧ ∀ v w', run g1 = Some (v, w') → good g1 v.
Proof.
  intros IHb Hsub Hall (D0 & Hb & Hc) Hvs run. unfold run. clear run.
  assert (Hi : inv D0 g1 g2) by done.
  set (fr0 := Some ((ps ++ assigned body)%list, ∅) : frame A).
  assert (Hf0 : good_frame g1 fr0) by (intros x u Hx; by rewrite lookup_empty in Hx).
  pose proof (bind_names_alike ps D0 g1 g2 fr0 vs Hi Hf0 Hvs) as Hbn.
  destruct (bind_names g1 fr0 ps vs) as [[g1' lf]|],
           (bind_names g2 fr0 ps vs) as [[g2' lf2]|]; try done.
  destruct Hbn as [<- (_ & _ & Hf' & Hl & Ht & Hk)]. cbn [at_top fr0] in Hk.
  destruct (Hk eq_refl) as [-> ->]. cbn [mbind option_bind].
  specialize (IHb body D0 g1 g2 lf w). rewrite Hl, Ht in IHb.
  specialize (IHb Hc Hi Hf').
  destruct (exec_list (ex n) g1 lf w body) as [[[[g1' fr1] w1] s1]|],
           (exec_list (ex n) g2 lf w body) as [[[[g2' fr2] w2] s2]|]; try done.
  destruct IHb as (-> & -> & -> & (_ & _ & _ & _ & Ht' & Hk') & _ & Hsig).
  cbn [mbind option_bind]. split; [done|].
  destruct (Hk' Ht) as [-> _].
  destruct s2 as [| |u]; intros v w' [= <- <-]; done.
Qed.

Lemma kernels_alike n :
  (∀ e D g1 g2 fr w,
     closed_expr (locals fr) D e = true → inv D g1 g2 → good_frame g1 fr →
     ev n g2 fr w e = ev n g1 fr w e ∧
     ∀ v w', ev n g1 fr w e = Some (v, w') → good g1 v) ∧
  (∀ s D g1 g2 fr w,
     closed_stmt (at_top fr) (locals fr) D s = true → inv D g1 g2 → good_frame g1 fr →
     alike D (if at_top fr then (defs s ++ D)%list else D) g1 g2 fr
       (ex n g1 fr w s) (ex n g2 fr w s)) ∧
  (∀ xs body itr D g1 g2 fr w,
     closed_block (at_top fr) (locals fr) (if at_top fr then (xs ++ D)%list else D) body
       = true →
     inv D g1 g2 → good_frame g1 fr →
     alike D D g1 g2 fr (lp n g1 fr w itr xs body) (lp n g2 fr w itr xs body)).
Proof.
  induction n as [|n (IHe & IHx & IHl)].
  { split; [|split]; intros; cbn; done. }
  pose proof (exec_list_alike (ex n) IHx) as IHb.
  split; [|split].
  - intros e D g1 g2 fr w Hc Hi Hf.
    destruct e as [x|c|o args|f args kws]; cbn [exec eval loop closed_expr] in *.
    + destruct (lookup_alike D g1 g2 fr x Hc Hi Hf) as [-> Hg].
      destruct (lookup_name g1 fr x) as [v|]; [|done]. cbn [mbind option_bind].
      split; [done|]. intros ? ? [= <- <-]. by apply Hg.
    + split; [done|]. by intros ? ? [= <- <-].
    + destruct (eval_list_alike (locals fr) D g1 (ev n g1 fr) (ev n g2 fr) args
                  (λ e w Hc, IHe e D g1 g2 fr w Hc Hi Hf) Hc w) as [-> _].
      destruct (eval_list (ev n g1 fr) w args) as [[vs w1]|]; [|done].
      cbn [mbind option_bind]. destruct (prim o vs w1) as [[a w2]|]; [|done].
      cbn [mbind option_bind]. split; [done|]. by intros ? ? [= <- <-].
    + apply andb_true_iff in Hc as [Hcf Hca].
      destruct (IHe f D g1 g2 fr w Hcf Hi Hf) as [-> Hgf].
      destruct (ev n g1 fr w f) as [[vf w1]|]; [|done]. cbn [mbind option_bind].
      destruct (eval_list_alike (locals fr) D g1 (ev n g1 fr) (ev n g2 fr) args
                  (λ e w Hc, IHe e D g1 g2 fr w Hc Hi Hf) Hca w1) as [-> Hgs].
      destruct (eval_list (ev n g1 fr) w1 args) as [[vs w2]|]; [|done].
      cbn [mbind option_bind]. destruct vf as [a|ps body].
      * destruct (prim _ (Lib a :: vs) w2) as [[r w3]|]; [|done].
        cbn [mbind option_bind]. split; [done|]. by intros ? ? [= <- <-].
      * destruct kws; [|done]. destruct Hi as (Hsub & _ & Hall).
        by apply call_alike; [|done|done|eapply Hgf|eapply Hgs].
  - intros s D g1 g2 fr w Hc Hi Hf.
    assert (Hev : ∀ e w, closed_expr (locals fr) D e = true →
              ev n g2 fr w e = ev n g1 fr w e ∧
              ∀ v w', ev n g1 fr w e = Some (v, w') → good g1 v)
      by (intros e' w' He'; exact (IHe e' D g1 g2 fr w' He' Hi Hf)).
    destruct s as [line|line names|xs e|x o e|obj ix o e|e|xs it body|c body|
                   |f ps body|e|name bases body].
    + rewrite !exec_Magic. cbn [defs]. destruct (prim line [] w) as [[a w1]|]; [|done].
      cbn [mbind option_bind]. by apply same_alike.
    + rewrite !exec_Import. cbn [defs].
      pose proof (import_names_alike line names D g1 g2 fr w Hi Hf) as H.
      destruct (import_names prim line g1 fr w names) as [[[g1' fr1] w1]|],
               (import_names prim line g2 fr w names) as [[[g2' fr2] w2]|]; try done.
      destruct H as (-> & -> & He). cbn [mbind option_bind].
      eapply ext_alike; [exact He| |done].
      intros y Hy. destruct (at_top fr); [|done]. apply elem_of_app. by right.
    + rewrite !exec_Assign. cbn [defs closed_stmt] in *. destruct (Hev e w Hc) as [-> Hg].
      destruct (ev n g1 fr w e) as [[v w1]|]; [|done]. cbn [mbind option_bind].
      pose proof (bind_targets_alike D g1 g2 fr xs v Hi Hf (Hg _ _ eq_refl)) as H.
      destruct (bind_targets unpack g1 fr xs v) as [[g1' fr1]|],
               (bind_targets unpack g2 fr xs v) as [[g2' fr2]|]; try done.
      destruct H as (-> & He). cbn [mbind option_bind].
      eapply ext_alike; [exact He| |done].
      intros y Hy. destruct (at_top fr); [|done]. apply elem_of_app. by right.
    + rewrite !exec_AugAssign. cbn [defs closed_stmt] in *. apply andb_true_iff in Hc as [Hx Hc].
      destruct (lookup_alike D g1 g2 fr x Hx Hi Hf) as [-> _].
      destruct (lookup_name g1 fr x) as [v|]; [|done]. cbn [mbind option_bind].
      destruct (Hev e w Hc) as [-> _].
      destruct (ev n g1 fr w e) as [[ve w1]|]; [|done]. cbn [mbind option_bind].
      destruct (prim o [v; ve] w1) as [[a w2]|]; [|done]. cbn [mbind option_bind].
      destruct (bind_name_alike D g1 g2 fr x (Lib a) Hi Hf I)
        as (g1' & g2' & fr' & -> & -> & He).
      eapply ext_alike; [exact He| |].
      * intros y Hy. destruct (at_top fr); [|done]. apply elem_of_cons. by right.
      * intros y Hy. destruct (at_top fr); [|done]. apply elem_of_cons. by right.
    + rewrite !exec_SetItem. cbn [defs closed_stmt] in *.
      destruct (eval_list_alike (locals fr) D g1 (ev n g1 fr) (ev n g2 fr) _ Hev Hc w)
        as [-> _].
      destruct (eval_list (ev n g1 fr) w _) as [[vs w1]|]; [|done].
      cbn [mbind option_bind]. destruct (prim _ vs w1) as [[a w2]|]; [|done].
      cbn [mbind option_bind]. by apply same_alike.
    + rewrite !exec_ExprStmt. cbn [defs closed_stmt] in *. destruct (Hev e w Hc) as [-> _].
      destruct (ev n g1 fr w e) as [[v w1]|]; [|done]. cbn [mbind option_bind].
      by apply same_alike.
    + rewrite closed_For in Hc. apply andb_true_iff in Hc as [Hit Hc].
      rewrite !exec_For. cbn [defs]. destruct (Hev it w Hit) as [-> _].
      destruct (ev n g1 fr w it) as [[v w1]|]; [|done]. cbn [mbind option_bind].
      destruct (prim "iter" [v] w1) as [[a w2]|]; [|done]. cbn [mbind option_bind].
      replace (if at_top fr then ([] ++ D)%list else D) with D by (by destruct (at_top fr)).
      by apply IHl.
    + rewrite closed_If in Hc. apply andb_true_iff in Hc as [Hcc Hc].
      rewrite !exec_If. cbn [defs]. destruct (Hev c w Hcc) as [-> _].
      destruct (ev n g1 fr w c) as [[v w1]|]; [|done]. cbn [mbind option_bind].
      replace (if at_top fr then ([] ++ D)%list else D) with D by (by destruct (at_top fr)).
      destruct (match v with Lib a => truthy a | Clo _ _ => true end).
      * eapply alike_drop. by apply IHb.
      * by apply (same_alike D g1 g2 fr w1 Normal false).
    + rewrite !exec_Break. cbn [defs]. by apply same_alike.
    + rewrite closed_Def in Hc. rewrite !exec_Def. cbn [defs].
      destruct (bind_name_alike D g1 g2 fr f (Clo ps body) Hi Hf)
        as (g1' & g2' & fr' & -> & -> & He).
      { exists D. split; [apply Hi|done]. }
      eapply ext_alike; [exact He| |done].
      intros y Hy. destruct (at_top fr); [|done]. apply elem_of_cons. by right.
    + rewrite !exec_Return. cbn [defs closed_stmt] in *. destruct (Hev e w Hc) as [-> Hg].
      destruct (ev n g1 fr w e) as [[v w1]|]; [|done]. cbn [mbind option_bind].
      apply same_alike; [done|done|]. by eapply Hg.
    + rewrite closed_Class in Hc. apply andb_true_iff in Hc as [Hb Hc].
      rewrite !exec_Class. cbn [defs].
      destruct (eval_list_alike (locals fr) D g1 (ev n g1 fr) (ev n g2 fr) _ Hev Hb w)
        as [-> Hgs].
      destruct (eval_list (ev n g1 fr) w bases) as [[vs w1]|]; [|done].
      cbn [mbind option_bind].
      set (cf := Some (assigned body, ∅) : frame A).
      assert (Hcf : good_frame g1 cf) by (intros y u Hy; by rewrite lookup_empty in Hy).
      pose proof (IHb body D g1 g2 cf w1 Hc Hi Hcf) as H.
      destruct (exec_list (ex n) g1 cf w1 body) as [[[[g1' fr1] w2] s1]|],
               (exec_list (ex n) g2 cf w1 body) as [[[[g2' fr2] w2'] s2]|]; try done.
      destruct H as (-> & -> & -> & _). cbn [mbind option_bind].
      destruct (members fr2 (assigned body)) as [ms|]; [|done]. cbn [mbind option_bind].
      destruct (prim _ (vs ++ ms)%list w2') as [[a w3]|]; [|done].
      cbn [mbind option_bind].
      destruct (bind_name_alike D g1 g2 fr name (Lib a) Hi Hf I)
        as (g1'' & g2'' & fr' & -> & -> & He).
      eapply ext_alike; [exact He| |done].
      intros y Hy. destruct (at_top fr); [|done]. apply elem_of_cons. by right.
  - intros xs body itr D g1 g2 fr w Hc Hi Hf. rewrite !loop_S.
    destruct (prim "next" [itr] w) as [[a w1]|]; [|done]. cbn [mbind option_bind].
    destruct (stop a).
    { by apply (same_alike D g1 g2 fr w1 Normal false). }
    pose proof (bind_targets_alike D g1 g2 fr xs (Lib a) Hi Hf I) as H.
    destruct (bind_targets unpack g1 fr xs (Lib a)) as [[g1' fr1]|],
             (bind_targets unpack g2 fr xs (Lib a)) as [[g2' fr2]|]; try done.
    destruct H as (-> & He). cbn [mbind option_bind].
    pose proof He as (Hi' & _ & Hf' & Hl & Ht & _).
    set (D1 := if at_top fr then (xs ++ D)%list else D) in *.
    assert (HD : ∀ y, y ∈ D → y ∈ D1).
    { intros y Hy. unfold D1. destruct (at_top fr); [|done]. apply elem_of_app. by right. }
    pose proof (IHb body D1 g1' g2' fr2 w1) as H. rewrite Hl, Ht in H.
    specialize (H Hc Hi' Hf').
    destruct (exec_list (ex n) g1' fr2 w1 body) as [[[[g1'' fr3] w2] s1]|],
             (exec_list (ex n) g2' fr2 w1 body) as [[[[g2'' fr3'] w2'] s2]|]; try done.
    destruct H as (-> & -> & -> & He2 & _ & Hsig). cbn [mbind option_bind].
    pose proof (ext_weaken D D1 _ _ _ _ _ _ HD (ext_trans _ _ _ _ _ _ _ _ _ _ _ He He2)) as He3.
    pose proof He3 as (Hi3 & _ & Hf3 & Hl3 & Ht3 & _).
    destruct s2 as [| |u].
    + apply (alike_trans (D1 := D) He3); [done|].
      apply IHl; [|done|done]. by rewrite Hl3, Ht3.
    + repeat (split; [done|]). done.
    + repeat (split; [done|]). done.
Qed.

(** *** What a notebook leaves of the namespace it found *)

Lemma bind_name_frame g fr x v g' fr' :
  bind_name g fr x v = (g', fr') →
  at_top fr' = at_top fr ∧ ∀ y, at_top fr = false ∨ y ≠ x → g' !! y = g !! y.
Proof.
  destruct fr as [[L lm]|]; cbn [bind_name at_top]; intros [= <- <-].
  - done.
  - split; [done|]. intros y [|Hy]; [done|]. by rewrite lookup_insert_ne.
Qed.

Lemma bind_names_frame xs : ∀ g fr (vs : list (value A)) g' fr',
  bind_names g fr xs vs = Some (g', fr') →
  at_top fr' = at_top fr ∧ ∀ y, at_top fr = false ∨ y ∉ xs → g' !! y = g !! y.
Proof.
  induction xs as [|x xs IH]; intros g fr vs g' fr'; destruct vs as [|v vs];
    cbn [bind_names]; try done.
  - by intros [= <- <-].
  - destruct (bind_name g fr x v) as [g1 fr1] eqn:Hb.
    destruct (bind_name_frame _ _ _ _ _ _ Hb) as [Ht H1].
    intros Hbs. destruct (IH _ _ _ _ _ Hbs) as [Ht' H2].
    split; [congruence|]. intros y Hy. rewrite H2, H1; [done| |].
    + destruct Hy as [|Hy]; [by left|]. right. intros ->. apply Hy. by left.
    + rewrite Ht. destruct Hy as [|Hy]; [by left|]. right. intros Hin. apply Hy. by right.
Qed.

Lemma bind_targets_frame g fr xs v g' fr' :
  bind_targets unpack g fr xs v = Some (g', fr') →
  at_top fr' = at_top fr ∧ ∀ y, at_top fr = false ∨ y ∉ xs → g' !! y = g !! y.
Proof.
  unfold bind_targets.
  assert (Hgen : match v with
                 | Lib a => vs ← unpack (length xs) a; bind_names g fr xs (Lib <$> vs)
                 | Clo _ _ => None
                 end = Some (g', fr') →
                 at_top fr' = at_top fr ∧
                 ∀ y, at_top fr = false ∨ y ∉ xs → g' !! y = g !! y).
  { destruct v as [a|]; [|done]. destruct (unpack (length xs) a) as [vs|]; [|done].
    apply bind_names_frame. }
  destruct xs as [|x [|x' xs]]; [done| |done].
  intros [= Hb]. destruct (bind_name_frame _ _ _ _ _ _ Hb) as [Ht H].
  split; [done|]. intros y Hy. apply H. destruct Hy as [|Hy]; [by left|].
  right. intros ->. apply Hy. by left.
Qed.

Lemma import_names_frame line names : ∀ g fr w g' fr' w',
  import_names prim line g fr w names = Some (g', fr', w') →
  at_top fr' = at_top fr ∧ ∀ y, at_top fr = false ∨ y ∉ names → g' !! y = g !! y.
Proof.
  induction names as [|x names IH]; intros g fr w g' fr' w'; cbn [import_names].
  - by intros [= <- <- <-].
  - destruct (prim _ [] w) as [[a w1]|]; [|done]. cbn [mbind option_bind].
    destruct (bind_name g fr x (Lib a)) as [g1 fr1] eqn:Hb.
    destruct (bind_name_frame _ _ _ _ _ _ Hb) as [Ht H1].
    intros Hi. destruct (IH _ _ _ _ _ _ Hi) as [Ht' H2].
    split; [congruence|]. intros y Hy. rewrite H2, H1; [done| |].
    + destruct Hy as [|Hy]; [by left|]. right. intros ->. apply Hy. by left.
    + rewrite Ht. destruct Hy as [|Hy]; [by left|]. right. intros Hin. apply Hy. by right.
Qed.

Lemma exec_list_frame
    (exe : namespace A → frame A → W → stmt → option (namespace A * frame A * W * signal A)) :
  (∀ s g fr w g' fr' w' sig, exe g fr w s = Some (g', fr', w', sig) →
     at_top fr' = at_top fr ∧
     ∀ y, at_top fr = false ∨ y ∉ assigned_stmt s → g' !! y = g !! y) →
  ∀ ss g fr w g' fr' w' sig, exec_list exe g fr w ss = Some (g', fr', w', sig) →
    at_top fr' = at_top fr ∧ ∀ y, at_top fr = false ∨ y ∉ assigned ss → g' !! y = g !! y.
Proof.
  intros Hex. induction ss as [|s ss IH]; intros g fr w g' fr' w' sig; cbn [exec_list].
  - by intros [= <- <- <- <-].
  - destruct (exe g fr w s) as [[[[g1 fr1] w1] s1]|] eqn:Hs; [|done].
    cbn [mbind option_bind]. destruct (Hex _ _ _ _ _ _ _ _ Hs) as [Ht H1].
    assert (Hy1 : ∀ y, at_top fr = false ∨ y ∉ assigned (s :: ss) →
                       at_top fr = false ∨ y ∉ assigned_stmt s).
    { intros y [|Hy]; [by left|]. right. intros Hin. apply Hy.
      unfold assigned. cbn [flat_map]. apply elem_of_app. by left. }
    assert (Hy2 : ∀ y, at_top fr = false ∨ y ∉ assigned (s :: ss) →
                       at_top fr1 = false ∨ y ∉ assigned ss).
    { intros y [|Hy]; [left; congruence|]. right. intros Hin. apply Hy.
      unfold assigned. cbn [flat_map]. apply elem_of_app. by right. }
    destruct s1.
    + intros Hr. destruct (IH _ _ _ _ _ _ _ Hr) as [Ht' H2].
      split; [congruence|]. intros y Hy. rewrite H2, H1; auto.
    + intros [= <- <- <- <-]. split; [done|]. intros y Hy. apply H1. auto.
    + intros [= <- <- <- <-]. split; [done|]. intros y Hy. apply H1. auto.
Qed.

Lemma kernel_frame n :
  (∀ s g fr w g' fr' w' sig, ex n g fr w s = Some (g', fr', w', sig) →
     at_top fr' = at_top fr ∧
     ∀ y, at_top fr = false ∨ y ∉ assigned_stmt s → g' !! y = g !! y) ∧
  (∀ xs body itr g fr w g' fr' w' sig,
     lp n g fr w itr xs body = Some (g', fr', w', sig) →
     at_top fr' = at_top fr ∧
     ∀ y, at_top fr = false ∨ y ∉ (xs ++ assigned body)%list → g' !! y = g !! y).
Proof.
  induction n as [|n [IHx IHl]]; [by split|].
  pose proof (exec_list_frame (ex n) IHx) as IHb.
  split.
  - intros s g fr w g' fr' w' sig.
    destruct s as [line|line names|xs e|x o e|obj ix o e|e|xs it body|c body|
                   |f ps body|e|name bases body].
    + rewrite exec_Magic. destruct (prim line [] w) as [[a w1]|]; [|done].
      by intros [= <- <- <- <-].
    + rewrite exec_Import.
      destruct (import_names prim line g fr w names) as [[[g1 fr1] w1]|] eqn:Hi; [|done].
      intros [= <- <- <- <-]. by eapply import_names_frame.
    + rewrite exec_Assign. destruct (ev n g fr w e) as [[v w1]|]; [|done].
      cbn [mbind option_bind].
      destruct (bind_targets unpack g fr xs v) as [[g1 fr1]|] eqn:Hb; [|done].
      intros [= <- <- <- <-]. by eapply bind_targets_frame.
    + rewrite exec_AugAssign. destruct (lookup_name g fr x) as [v|]; [|done].
      cbn [mbind option_bind]. destruct (ev n g fr w e) as [[ve w1]|]; [|done].
      cbn [mbind option_bind]. destruct (prim o [v; ve] w1) as [[a w2]|]; [|done].
      cbn [mbind option_bind].
      destruct (bind_name g fr x (Lib a)) as [g1 fr1] eqn:Hb.
      intros [= <- <- <- <-]. destruct (bind_name_frame _ _ _ _ _ _ Hb) as [Ht H].
      split; [done|]. intros y Hy. apply H. destruct Hy as [|Hy]; [by left|].
      right. intros ->. apply Hy. cbn. by left.
    + rewrite exec_SetItem.
      destruct (eval_list (ev n g fr) w _) as [[vs w1]|]; [|done].
      cbn [mbind option_bind]. destruct (prim _ vs w1) as [[a w2]|]; [|done].
      by intros [= <- <- <- <-].
    + rewrite exec_ExprStmt. destruct (ev n g fr w e) as [[v w1]|]; [|done].
      by intros [= <- <- <- <-].
    + rewrite exec_For. destruct (ev n g fr w it) as [[v w1]|]; [|done].
      cbn [mbind option_bind]. destruct (prim "iter" [v] w1) as [[a w2]|]; [|done].
      cbn [mbind option_bind]. apply IHl.
    + rewrite exec_If. destruct (ev n g fr w c) as [[v w1]|]; [|done].
      cbn [mbind option_bind].
      destruct (match v with Lib a => truthy a | Clo _ _ => true end).
      * apply IHb.
      * by intros [= <- <- <- <-].
    + rewrite exec_Break. by intros [= <- <- <- <-].
    + rewrite exec_Def. destruct (bind_name g fr f (Clo ps body)) as [g1 fr1] eqn:Hb.
      intros [= <- <- <- <-]. destruct (bind_name_frame _ _ _ _ _ _ Hb) as [Ht H].
      split; [done|]. intros y Hy. apply H. destruct Hy as [|Hy]; [by left|].
      right. intros ->. apply Hy. cbn. by left.
    + rewrite exec_Return. destruct (ev n g fr w e) as [[v w1]|]; [|done].
      by intros [= <- <- <- <-].
    + rewrite exec_Class. destruct (eval_list (ev n g fr) w bases) as [[vs w1]|]; [|done].
      cbn [mbind option_bind].
      destruct (exec_list (ex n) g _ w1 body) as [[[[g1 fr1] w2] s1]|]; [|done].
      cbn [mbind option_bind]. destruct (members fr1 _) as [ms|]; [|done].
      cbn [mbind option_bind]. destruct (prim _ (vs ++ ms)%list w2) as [[a w3]|]; [|done].
      cbn [mbind option_bind].
      destruct (bind_name g fr name (Lib a)) as [g2 fr2] eqn:Hb.
      intros [= <- <- <- <-]. destruct (bind_name_frame _ _ _ _ _ _ Hb) as [Ht H].
      split; [done|]. intros y Hy. apply H. destruct Hy as [|Hy]; [by left|].
      right. intros ->. apply Hy. cbn. by left.
  - intros xs body itr g fr w g' fr' w' sig. rewrite loop_S.
    destruct (prim "next" [itr] w) as [[a w1]|]; [|done]. cbn [mbind option_bind].
    destruct (stop a); [by intros [= <- <- <- <-]|].
    destruct (bind_targets unpack g fr xs (Lib a)) as [[g1 fr1]|] eqn:Hb; [|done].
    cbn [mbind option_bind]. destruct (bind_targets_frame _ _ _ _ _ _ Hb) as [Ht H1].
    destruct (exec_list (ex n) g1 fr1 w1 body) as [[[[g2 fr2] w2] s1]|] eqn:Hbody; [|done].
    cbn [mbind option_bind]. destruct (IHb _ _ _ _ _ _ _ _ Hbody) as [Ht2 H2].
    assert (Hstep : ∀ y, at_top fr = false ∨ y ∉ (xs ++ assigned body)%list →
                         g2 !! y = g !! y).
    { intros y Hy. rewrite H2, H1; [done| |].
      - destruct Hy as [|Hy]; [by left|]. right. intros Hin. apply Hy.
        apply elem_of_app. by left.
      - rewrite Ht. destruct Hy as [|Hy]; [by left|]. right. intros Hin. apply Hy.
        apply elem_of_app. by right. }
    destruct s1.
    + intros Hr. destruct (IHl _ _ _ _ _ _ _ _ _ _ Hr) as [Ht3 H3].
      split; [congruence|]. intros y Hy. rewrite H3, Hstep; [done|done|].
      destruct Hy as [|Hy]; [left; congruence|by right].
    + intros [= <- <- <- <-]. split; [congruence|done].
    + intros [= <- <- <- <-]. split; [congruence|done].
Qed.

(** *** The fresh kernel *)

Lemma fresh_kernel_lookup (obj : string → A) x v :
  fresh_kernel obj !! x = Some v ↔ x ∈ builtins ∧ v = Lib (obj x).
Proof.
  unfold fresh_kernel, builtins. cbn [fmap list_fmap list_to_map foldr uncurry fst snd].
  rewrite !lookup_insert_Some, lookup_empty, !elem_of_cons, elem_of_nil.
  split.
  - intros [[<- <-]|[_ [[<- <-]|[_ [[<- <-]|[_ [[<- <-]|[_ [=]]]]]]]]]; tauto.
  - intros [[->|[->|[->|[->|[]]]]] ->]; [by left|right..]; (split; [done|]);
      [by left|right..]; (split; [done|]); [by left|right]; (split; [done|]); by left.
Qed.

Lemma fresh_kernel_inv (obj : string → A) (g : namespace A) :
  fresh_kernel obj ⊆ g → inv builtins (fresh_kernel obj) g.
Proof.
  intros Hsub. split; [done|]. split.
  - intros x Hx. exists (Lib (obj x)). by apply fresh_kernel_lookup.
  - intros x v Hv. apply fresh_kernel_lookup in Hv as [_ ->]. done.
Qed.

(** A notebook whose names resolve runs alike in a fresh kernel and in any
    kernel that binds the same and more. *)
Lemma closed_notebook_runs_alike (obj : string → A) nb n (g : namespace A) w :
  self_contained nb = true → fresh_kernel obj ⊆ g →
  same_outcome (run lit prim truthy stop unpack n nb (fresh_kernel obj) w)
               (run lit prim truthy stop unpack n nb g w).
Proof.
  intros Hc Hsub. unfold run.
  pose proof (exec_list_alike (ex n) (proj1 (proj2 (kernels_alike n)))
                (concat nb) builtins (fresh_kernel obj) g None w Hc
                (fresh_kernel_inv obj g Hsub) I) as H.
  destruct (exec_list (ex n) (fresh_kernel obj) None w (concat nb))
    as [[[[g1' fr1] w1] s1]|],
    (exec_list (ex n) g None w (concat nb)) as [[[[g2' fr2] w2] s2]|]; try done.
  destruct H as (_ & -> & -> & (Hi & _) & _). split; [done|]. split; [done|]. apply Hi.
Qed.

(** A notebook that assigns no builtin leaves a kernel that binds what the
    fresh kernel binds, and more. *)
Lemma kept_builtins (obj : string → A) nb n w r :
  keeps_builtins nb = true →
  run lit prim truthy stop unpack n nb (fresh_kernel obj) w = Some r →
  fresh_kernel obj ⊆ r.1.1.1.
Proof.
  intros Hk Hrun. destruct r as [[[g' fr'] w'] sig]. cbn [fst]. unfold run in Hrun.
  destruct (exec_list_frame (ex n) (proj1 (kernel_frame n)) _ _ _ _ _ _ _ _ Hrun)
    as [_ H].
  apply map_subseteq_spec. intros x v Hv. rewrite H; [done|]. right.
  apply fresh_kernel_lookup in Hv as [Hx _]. intros Hin.
  unfold keeps_builtins in Hk. rewrite forallb_forall in Hk.
  apply list_elem_of_In, Hk, bool_decide_eq_true in Hin. done.
Qed.

End Semantics.

(** The check is needed: a cell that reads a name it does not bind fails
    in a fresh kernel and runs in a kernel that binds the name. *)
Lemma open_notebook_depends_on_the_kernel :
  self_contained reads_x = false ∧
  logged 10 reads_x (fresh_kernel (λ _, 1%nat)) = None ∧
  is_Some (logged 10 reads_x kernel_with_x).
Proof.
  split; [vm_compute; reflexivity|]. split; [vm_compute; reflexivity|].
  eexists. vm_compute. reflexivity.
Qed.

Lemma repository_resolves :
  Forall (λ nb, self_contained nb = true ∧ keeps_builtins nb = true) repository.
Proof. repeat constructor; vm_compute; reflexivity. Qed.



End NotebooksProofs.

(** ** Two ways to add and the normal density *)

Module LinearRegressionProofs.

Import LinearRegression.

Section Addition.

Implicit Types (a b c : vec).

(** After the iterations below [i] the first [i] entries of [c] are the
    sums, the others still zero. *)
Lemma for_range_add a b k : ∀ j i,
  (i + j = k)%nat → (k ≤ length a)%nat → (k ≤ length b)%nat →
  for_range i j (add_at a b) (take i (vadd a b) ++ replicate (k - i) 0) =
    Some (take k (vadd a b)).
Proof.
  induction j as [|j IH]; intros i Hij Ha Hb.
  - assert (i = k) as -> by lia. cbn [for_range].
    by rewrite Nat.sub_diag, app_nil_r.
  - cbn [for_range].
    destruct (lookup_lt_is_Some_2 a i) as [x Hx]; [lia|].
    destruct (lookup_lt_is_Some_2 b i) as [y Hy]; [lia|].
    assert (Hs : vadd a b !! i = Some (x + y)).
    { unfold vadd. by rewrite lookup_zip_with, Hx, Hy. }
    assert (Hlen : length (take i (vadd a b)) = i).
    { rewrite length_take. unfold vadd. rewrite length_zip_with. lia. }
    unfold add_at. rewrite Hx, Hy. cbn [mbind option_bind].
    rewrite bool_decide_eq_true_2
      by (rewrite length_app, Hlen, length_replicate; lia).
    cbn [mbind option_bind].
    replace (k - i)%nat with (S (k - S i)) by lia. cbn [replicate].
    rewrite insert_app_r_alt by lia. rewrite Hlen, Nat.sub_diag.
    cbn [insert list_insert]. rewrite cons_middle, app_assoc.
    rewrite <- (take_S_r _ _ _ Hs). apply IH; lia.
Qed.

(** The loop of cell 2 and the addition of cell 3 compute the same vector:
    on two vectors of [k] entries both return their elementwise sum. *)
Theorem loop_add_is_vector_add a b k :
  length a = k → length b = k →
  loop_add k a b = Some (vadd a b) ∧ vector_add a b = Some (vadd a b).
Proof.
  intros Ha Hb. split.
  - unfold loop_add.
    assert (H : for_range 0 k (add_at a b) (replicate k 0) = Some (take k (vadd a b))).
    { pose proof (for_range_add a b k k 0) as H. rewrite Nat.sub_0_r in H.
      apply H; lia. }
    rewrite H.
    f_equal. apply take_ge. unfold vadd. rewrite length_zip_with. lia.
  - unfold vector_add. rewrite bool_decide_eq_true_2; [done | congruence].
Qed.

(** The vectors of the notebook: both ways give ten thousand twos. *)
Lemma loop_add_witness :
  loop_add size (ones size) (ones size) = Some (vadd (ones size) (ones size)) ∧
  vector_add (ones size) (ones size) = Some (vadd (ones size) (ones size)).
Proof.
  apply (loop_add_is_vector_add (ones size) (ones size) size);
    apply length_replicate.
Defined.

(** An iteration that raises whatever [c] holds stops the loop. *)
Lemma for_range_raises (body : vec → nat → option vec) i0 : ∀ j i c,
  (i ≤ i0 < i + j)%nat → (∀ c, body c i0 = None) → for_range i j body c = None.
Proof.
  induction j as [|j IH]; intros i c Hi Hbody; [lia|].
  cbn [for_range]. destruct (decide (i = i0)) as [-> | Hne].
  - by rewrite Hbody.
  - destruct (body c i) as [c'|]; [|done]. cbn [mbind option_bind].
    apply IH; [lia | done].
Qed.

(** The loop of cell 2 raises when one of the two vectors has fewer than
    [k] entries: the index runs out of its range. *)
Theorem loop_add_raises_on_short_vectors a b k :
  (length a < k)%nat ∨ (length b < k)%nat → loop_add k a b = None.
Proof.
  intros Hshort. unfold loop_add.
  apply (for_range_raises _ (min (length a) (length b))); [lia|].
  intros c. unfold add_at.
  destruct (Nat.min_dec (length a) (length b)) as [Hm | Hm]; rewrite Hm.
  - by rewrite (lookup_ge_None_2 a) by lia.
  - destruct (a !! length b); [|done]. cbn [mbind option_bind].
    by rewrite (lookup_ge_None_2 b) by lia.
Qed.

(** Three entries asked of a vector of two. *)
Lemma loop_add_raises_witness : loop_add 3 [1; 1] [1; 1; 1] = None.
Proof.
  apply (loop_add_raises_on_short_vectors [1; 1] [1; 1; 1] 3).
  left. cbn. lia.
Defined.

End Addition.

Section Density.

Lemma variance_pos sigma : sigma ≠ 0 → 0 < sigma ^ 2.
Proof. intros H. nra. Qed.

Lemma peak_pos sigma : sigma ≠ 0 → 0 < peak sigma.
Proof.
  intros H. unfold peak. apply Rdiv_lt_0_compat; [lra|].
  apply sqrt_lt_R0. pose proof PI_RGT_0. pose proof (variance_pos sigma H). nra.
Qed.

Lemma exponent_nonpos mu sigma x :
  sigma ≠ 0 → - (0.5 / sigma ^ 2) * (x - mu) ^ 2 <= 0.
Proof.
  intros H. pose proof (variance_pos sigma H) as Hv.
  assert (Ha : 0 < 0.5 / sigma ^ 2) by (apply Rdiv_lt_0_compat; lra).
  pose proof (pow2_ge_0 (x - mu)) as Hb.
  assert (0 <= 0.5 / sigma ^ 2 * (x - mu) ^ 2) by (apply Rmult_le_pos; lra).
  lra.
Qed.

(** The curve drawn for a pair [(mu, sigma)] with [sigma] not zero, as a
    function over the real numbers: every value is positive and at most the
    value [1/sqrt(2 pi sigma^2)] taken at the mean, and the curve is
    symmetric about the mean.  (In [float32] the values far from the mean
    are zero.) *)
Theorem normal_density_peaks_at_the_mean mu sigma (x : vec) :
  sigma ≠ 0 →
  ∃ p, normal_density mu sigma x = Some p ∧ length p = length x ∧
    Forall (λ v, 0 < v <= peak sigma) p ∧
    normal_density mu sigma [mu] = Some [peak sigma] ∧
    ∀ t, normal_density mu sigma [mu + t] = normal_density mu sigma [mu - t].
Proof.
  intros Hs. pose proof (peak_pos sigma Hs) as Hpk.
  unfold normal_density. rewrite !decide_False by done.
  eexists. split; [done|]. split; [by rewrite length_fmap|]. split; [|split].
  - apply Forall_fmap, Forall_true. intros xi. unfold compose.
    pose proof (exp_pos (- (0.5 / sigma ^ 2) * (xi - mu) ^ 2)) as He.
    pose proof (exponent_nonpos mu sigma xi Hs) as Hle.
    assert (exp (- (0.5 / sigma ^ 2) * (xi - mu) ^ 2) <= 1).
    { rewrite <- exp_0. destruct Hle as [Hlt | ->]; [|lra].
      left. by apply exp_increasing. }
    split; nra.
  - cbn [fmap list_fmap]. do 2 f_equal.
    replace (- (0.5 / sigma ^ 2) * (mu - mu) ^ 2) with 0 by (field; done).
    rewrite exp_0. lra.
  - intros t. cbn [fmap list_fmap].
    replace ((mu + t - mu) ^ 2) with ((mu - t - mu) ^ 2) by ring. done.
Qed.

(** The third curve of the notebook, mean 3 and [sigma] 1. *)
Lemma normal_density_witness :
  ∃ p, normal_density 3 1 [0; 3] = Some p ∧ length p = length [0; 3] ∧
    Forall (λ v, 0 < v <= peak 1) p ∧
    normal_density 3 1 [3] = Some [peak 1] ∧
    ∀ t, normal_density 3 1 [3 + t] = normal_density 3 1 [3 - t].
Proof. apply (normal_density_peaks_at_the_mean 3 1 [0; 3]). lra. Defined.

(** Changing the mean shifts the curve, and a larger [sigma] lowers its
    peak. *)
Theorem mean_shifts_and_sigma_flattens mu sigma1 sigma2 (x : vec) :
  0 < Rabs sigma1 < Rabs sigma2 →
  normal_density mu sigma1 x = normal_density 0 sigma1 ((λ xi, xi - mu) <$> x) ∧
  peak sigma2 < peak sigma1.
Proof.
  intros [H1 H12]. split.
  - unfold normal_density. destruct (decide (sigma1 = 0)); [done|]. f_equal.
    rewrite <- list_fmap_compose. apply list_fmap_ext. intros _ xi _.
    unfold compose. replace (xi - mu - 0) with (xi - mu) by lra. done.
  - assert (Hs1 : sigma1 ≠ 0) by (intros ->; rewrite Rabs_R0 in H1; lra).
    assert (Hsq : sigma1 ^ 2 < sigma2 ^ 2).
    { rewrite <- (pow2_abs sigma1), <- (pow2_abs sigma2). nra. }
    pose proof (variance_pos sigma1 Hs1) as Hv. pose proof PI_RGT_0 as Hpi.
    unfold peak, Rdiv. rewrite !Rmult_1_l.
    apply Rinv_lt_contravar.
    + apply Rmult_lt_0_compat; apply sqrt_lt_R0; nra.
    + apply sqrt_lt_1; nra.
Qed.

(** The first two curves of the notebook: [sigma] 1 and 2. *)
Lemma mean_shifts_witness :
  normal_density 3 1 [0] = normal_density 0 1 ((λ xi, xi - 3) <$> [0]) ∧
  peak 2 < peak 1.
Proof.
  apply (mean_shifts_and_sigma_flattens 3 1 2 [0]).
  rewrite Rabs_R1, (Rabs_pos_eq 2) by lra. lra.
Defined.

(** The three pairs of the notebook have [sigma] 1, 2 and 1: the loop draws
    three curves over the grid. *)
Lemma curves_drawn (x : vec) :
  ∃ cs, curves x = Some cs ∧ length cs = 3%nat ∧ Forall (λ c, length c = length x) cs.
Proof.
  unfold curves, parameters, normal_density. cbn [mapM fst snd].
  rewrite !decide_False by lra. cbn [mbind option_bind mret option_ret].
  eexists. split; [done|]. split; [done|].
  repeat constructor; by rewrite length_fmap.
Qed.

End Density.

End LinearRegressionProofs.

(** ** The custom initializer *)

Module InitializersProofs.

Import Initializers.

(** One entry of [MyInit]: kept when its absolute value is at least 5,
    zero otherwise. *)
Lemma my_init_lookup (draw : mat) r c :
  mget (my_init draw) r c =
  (λ x, if decide (5 <= Rabs x) then x else 0) <$> mget draw r c.
Proof.
  unfold mget, my_init. rewrite list_lookup_fmap.
  destruct (draw !! r) as [row|]; [|done].
  cbn [fmap option_fmap option_map mbind option_bind].
  rewrite list_lookup_fmap. destruct (row !! c) as [x|]; [|done].
  cbn [fmap option_fmap option_map]. f_equal.
  destruct (decide (5 <= Rabs x)); lra.
Qed.

(** [MyInit] keeps the shape of the array and leaves every entry either 0
    or in one of the two outer bands: from a draw in [-10, 10) each entry
    ends up 0, in [5, 10) or in [-10, -5], and an entry is changed only
    when its absolute value is below 5. *)
Theorem my_init_zeroes_the_middle (draw : mat) :
  Forall (Forall (λ x, -10 <= x < 10)) draw →
  length (my_init draw) = length draw ∧
  (∀ r c x, mget draw r c = Some x →
     ∃ v, mget (my_init draw) r c = Some v ∧
       (v = 0 ∨ 5 <= v < 10 ∨ -10 <= v <= -5) ∧
       (5 <= Rabs x → v = x) ∧ (Rabs x < 5 → v = 0)) ∧
  (∀ r c, mget draw r c = None → mget (my_init draw) r c = None).
Proof.
  intros Hdraw. split; [unfold my_init; by rewrite length_fmap|]. split.
  - intros r c x Hx. rewrite my_init_lookup, Hx. cbn [fmap option_fmap option_map].
    eexists. split; [done|].
    assert (Hr : -10 <= x < 10).
    { unfold mget in Hx. destruct (draw !! r) as [row|] eqn:Hrow; [|done].
      cbn [mbind option_bind] in Hx.
      pose proof (Forall_lookup_1 _ _ _ _ Hdraw Hrow) as Hrow'.
      apply (Forall_lookup_1 _ _ _ _ Hrow' Hx). }
    destruct (decide (5 <= Rabs x)) as [Habs|Habs].
    + split; [|split; [done | lra]].
      unfold Rabs in Habs. destruct (Rcase_abs x); lra.
    + split; [by left|]. split; [done | lra].
  - intros r c Hnone. by rewrite my_init_lookup, Hnone.
Qed.

(** A row with one entry of each kind. *)
Lemma my_init_witness :
  length (my_init [[7; 3; -6]]) = length [[7; 3; -6]] ∧
  (∀ r c x, mget [[7; 3; -6]] r c = Some x →
     ∃ v, mget (my_init [[7; 3; -6]]) r c = Some v ∧
       (v = 0 ∨ 5 <= v < 10 ∨ -10 <= v <= -5) ∧
       (5 <= Rabs x → v = x) ∧ (Rabs x < 5 → v = 0)) ∧
  (∀ r c, mget [[7; 3; -6]] r c = None → mget (my_init [[7; 3; -6]]) r c = None).
Proof.
  apply (my_init_zeroes_the_middle [[7; 3; -6]]).
  repeat constructor; lra.
Defined.

End InitializersProofs.
